(** * Finding Friends score tracker: scoring, session store and statistics

    A shallow embedding of the domain logic of [src/src/App.jsx] (and of the
    older copy of the component in [src/unnamed/part_001]: its scoring
    function, and what it does differently in [onRename], the bid buttons
    and the Statistics cards).

    Conventions of the embedding.
    - JavaScript numbers.  Bids, opponent scores and everything the form
      produces with [parseInt] are integers ([Z]); counters that start at
      0 or 1 and are only incremented are [nat].  A score is the exact
      rational ([Q]) its expression denotes: the products by 1.5, 0.75 and
      0.5 and the results of [Math.round] are computed exactly by the
      engine for the values the form accepts, and the quotient of the
      losing branch is kept as the fraction it denotes; the double the
      engine holds for it is that fraction rounded once ([toDouble]).
      Numeric equalities between scores are stated with [Qeq].  The totals
      of the rows of [totalsByPlayer] are the exact sums of the scores.
      The statistics of [enhancedStats] are computed in doubles (IEEE 754
      binary64, round to nearest even): the running total of a player is
      a sum of doubles in the order of the rounds and a rate is
      [Math.round] of a quotient and a product of doubles; the totals are
      finite.
    - The component is the code of a module, hence strict: writing a
      property on a number throws a [TypeError].
    - JavaScript objects used as maps ([scores], [playerStats], [rs],
      [gameData]) are association lists in property-enumeration order,
      written only through [Obj.set]: assigning an existing key keeps its
      position; a new key that is a canonical array index goes among the
      index keys, in ascending order, before every other key; any other
      new key goes last.  The two tables of the statistics, which are
      read and written under names typed by the user, are modelled with
      what they inherit: the members of [Object.prototype] ([inherited]),
      and the prototype that an assignment under the name [__proto__]
      installs instead of creating a key ([Table], [assign], [guarded],
      [bump]).
    - A [Map] is the list of its entries in insertion order ([Map.set]).
    - Reading an array past its end gives [undefined]: [players !! i] is an
      [option string], and [propKey] is the property key an optional name
      turns into when it indexes an object.
    - Every array and object kept in the state is built by a spread, a
      [map] or a [filter], never written in place after it is shared, so
      arrays are values.  The one in-place operation on an array that is
      read again afterwards, [Array.prototype.sort] on [playerRankings], is
      modelled by rebinding the variable to the sorted array.
    - The clock is a parameter: [today] stands for [todayLabel()] and
      [now] for [Date.now()]. *)

From Stdlib Require Import QArith Qround Lia Permutation Sorted.
From Stdlib Require Floats.SpecFloat.
From stdpp Require Import base option list sets strings pretty.

Local Open Scope Z_scope.

(** ** JavaScript values *)

Module Obj.
(** An object with string keys, in property-enumeration order. *)

Definition digit (c : Ascii.ascii) : option N :=
  let n := Ascii.N_of_ascii c in
  if decide (48 <= n <= 57)%N then Some (n - 48)%N else None.

Fixpoint digits (s : string) (acc : N) : option N :=
  match s with
  | EmptyString => Some acc
  | String c s' => d ← digit c; digits s' (10 * acc + d)%N
  end.

(** The array index a key denotes, if it is one: a decimal numeral
    without sign or leading zero, below 2^32 - 1. *)
Definition arrayIndex (k : string) : option N :=
  n ← digits k 0%N;
  if decide (pretty n = k ∧ (n < 2 ^ 32 - 1)%N) then Some n else None.

(** A new key [k] is enumerated before the key [k'] already there. *)
Definition precedes (k k' : string) : bool :=
  match arrayIndex k, arrayIndex k' with
  | Some n, Some n' => bool_decide (n < n')%N
  | Some _, None => true
  | None, _ => false
  end.

Section obj.
Context {V : Type}.

Fixpoint get (k : string) (o : list (string * V)) : option V :=
  match o with
  | [] => None
  | (k', v) :: o' => if decide (k = k') then Some v else get k o'
  end.

(** Assignment to a property the object has. *)
Fixpoint replace (k : string) (v : V) (o : list (string * V))
  : list (string * V) :=
  match o with
  | [] => []
  | (k', v') :: o' =>
      if decide (k = k') then (k, v) :: o' else (k', v') :: replace k v o'
  end.

(** Creation of a property. *)
Fixpoint add (k : string) (v : V) (o : list (string * V))
  : list (string * V) :=
  match o with
  | [] => [(k, v)]
  | (k', v') :: o' =>
      if precedes k k' then (k, v) :: o else (k', v') :: add k v o'
  end.

(** [o[k] = v] *)
Definition set (k : string) (v : V) (o : list (string * V))
  : list (string * V) :=
  match get k o with
  | Some _ => replace k v o
  | None => add k v o
  end.

Definition fromEntries (es : list (string * V)) : list (string * V) :=
  foldl (fun o e => set e.1 e.2 o) [] es.

Definition entries (o : list (string * V)) : list (string * V) := o.
Definition keys (o : list (string * V)) : list string := fst <$> o.
Definition values (o : list (string * V)) : list V := snd <$> o.
End obj.
End Obj.

Abbreviation obj V := (list (string * V)) (only parsing).

(** A [Map] with string keys: its entries in insertion order.  [set] on a
    key of the map replaces the value where the entry is, [set] on a new
    key adds the entry last, whatever the key looks like. *)
Module Map.
Section map.
Context {V : Type}.

Definition get (k : string) (m : list (string * V)) : option V := Obj.get k m.

Definition set (k : string) (v : V) (m : list (string * V))
  : list (string * V) :=
  match Obj.get k m with
  | Some _ => Obj.replace k v m
  | None => m ++ [(k, v)]
  end.

Definition entries (m : list (string * V)) : list (string * V) := m.
End map.
End Map.

(** The property names every object inherits from [Object.prototype].
    Reading one of them on an object that has no own property of that name
    gives a function, or, for [__proto__], the prototype of the object. *)
Definition inherited : list string :=
  [ "constructor"; "__defineGetter__"; "__defineSetter__"; "hasOwnProperty";
    "__lookupGetter__"; "__lookupSetter__"; "isPrototypeOf";
    "propertyIsEnumerable"; "toString"; "valueOf"; "__proto__";
    "toLocaleString" ].

(** An object built by assignments [acc[p] = { ... }] on [{}]: its own
    entries and, once a value has been assigned under the name [__proto__]
    (which sets the prototype of the object and creates no key), the value
    that is now its prototype. *)
Record Table (V : Type) : Type := mkTable {
  own : list (string * V);
  proto : option V;
}.
Arguments mkTable {V} own proto.
Arguments own {V} t.
Arguments proto {V} t.

(** [acc[k] = v] for an object [v]. *)
Definition assign {V : Type} (k : string) (v : V) (t : Table V) : Table V :=
  if decide (k = "__proto__") then mkTable (own t) (Some v)
  else mkTable (Obj.set k v (own t)) (proto t).

(** The property key of [o[x]] when [x] is a name or [undefined]. *)
Definition propKey (x : option string) : string :=
  match x with Some s => s | None => "undefined" end.

(** A number as the engine can produce it from a division. *)
Inductive number : Type :=
  | Finite (q : Q)
  | Infinity
  | NegInfinity
  | NaN.

(** [x / n] for a divisor that is the length of an array. *)
Definition div (x : Q) (n : nat) : number :=
  match n with
  | O => if Qlt_le_dec 0 x then Infinity
         else if Qlt_le_dec x 0 then NegInfinity else NaN
  | S _ => Finite (x / inject_Z (Z.of_nat n))
  end.

(** The number a property assignment stores.  A value that is not finite
    is only ever formed for an empty list of recipients, where nothing is
    stored. *)
Definition stored (x : number) : Q :=
  match x with Finite q => q | _ => 0%Q end.

(** [Math.round]: nearest integer, halves towards plus infinity. *)
Definition Math_round (x : Q) : Z := Qfloor (x + 0.5).

(** The sign of a number: all that [Array.prototype.sort] looks at in
    what a comparator returns. *)
Definition sign (x : Q) : Z := Z.sgn (Qnum x).

(** Doubles: IEEE 754 binary64 numbers with the operations of the
    executable specification of the standard library (round to nearest,
    ties to even). *)
Definition double : Type := SpecFloat.spec_float.
Definition fadd : double -> double -> double := SpecFloat.SFadd 53 1024.
Definition fmul : double -> double -> double := SpecFloat.SFmul 53 1024.
Definition fdiv : double -> double -> double := SpecFloat.SFdiv 53 1024.

(** The double of a whole number, exact below 2^53. *)
Definition ofZ (z : Z) : double := SpecFloat.binary_normalize 53 1024 z 0 false.

(** The double a score denotes: the quotient, rounded once, of its
    numerator by its denominator, which is the double the engine holds for
    a whole number and for a quotient [opponentScore * 1.5 / n]. *)
Definition toDouble (q : Q) : double :=
  fdiv (ofZ (Qnum q)) (ofZ (Zpos (Qden q))).

(** The exact value of a finite double. *)
Definition exact (x : double) : Q :=
  match x with
  | SpecFloat.S754_finite s m e =>
      let v :=
        if (0 <=? e)%Z then inject_Z (Zpos m * 2 ^ e)
        else (Zpos m # Z.to_pos (2 ^ (- e)))%Q in
      if s then (- v)%Q else v
  | _ => 0%Q
  end.

(** [Math.round] of a finite double, computed on its exact value; the
    totals and quotients of the statistics are finite. *)
Definition Math_round_double (x : double) : Z := Math_round (exact x).

(** [if (x)] on a number: 0 and [NaN] are falsy. *)
Definition truthy (x : double) : bool :=
  match x with
  | SpecFloat.S754_zero _ | SpecFloat.S754_nan => false
  | _ => true
  end.

(** [x.toFixed(0)], below the magnitude where the engine switches to
    exponent notation: the sign, then the nearest integer of the absolute
    value, halves upwards. *)
Definition toFixed0 (x : number) : string :=
  match x with
  | Finite q =>
      if Qlt_le_dec q 0 then "-" +:+ pretty (Qfloor (- q + 0.5))
      else pretty (Qfloor (q + 0.5))
  | Infinity => "Infinity"
  | NegInfinity => "-Infinity"
  | NaN => "NaN"
  end.

(** [Array.prototype.sort] with a comparator: a stable sort, [a] goes
    after [b] when [cmp a b > 0]. *)
Section sort.
Context {A : Type} (cmp : A -> A -> Z).

Fixpoint sort_insert (x : A) (l : list A) : list A :=
  match l with
  | [] => [x]
  | y :: l' => if decide (0 < cmp x y) then y :: sort_insert x l' else x :: l
  end.

Definition sort (l : list A) : list A := foldr sort_insert [] l.
End sort.

(** What [calculateScores] returns. *)
Record Result : Type := mkResult {
  scores : obj Q;
  winner : string;
  distribution : string;
}.

(** ** src/src/App.jsx *)

Module App.

Definition defaultPlayers : list string :=
  ["Player 1"; "Player 2"; "Player 3"; "Player 4"; "Player 5"; "Player 6"].

Definition START_BID : Z := 150.
Definition NO_BIDS_VALUE : Z := 160.

(** Scoring logic (lines 190-233). *)
Definition calculateScores (mode : string) (players : list string)
    (hostIdx : nat) (friendIdxs : list nat) (bid opponentScore : Z)
  : Result :=
  let n := length players in
  let scores := Obj.fromEntries ((fun p => (p, 0%Q)) <$> players) in
  let hostName := players !! hostIdx in
  let friendNames := (fun i => players !! i) <$> friendIdxs in
  let teamSet := hostName :: friendNames in
  let opponents := filter (fun p => Some p ∉ teamSet) players in
  let winHostTeam := bool_decide (opponentScore < bid) in
  if decide (mode = "1v5") then
    if winHostTeam then
      mkResult (Obj.set (propKey hostName) 400%Q scores)
               "Host" "1v5 host win: +400"
    else
      let each := Finite ((inject_Z opponentScore * 1.5) / 5) in
      mkResult (foldl (fun s p => Obj.set p (stored each) s) scores opponents)
               "Opponents"
               ("1v5 opponents: each +" +:+ toFixed0 each)
  else if winHostTeam then
    let distributable := 400 - opponentScore in
    let scores :=
      match friendNames with
      | [] => Obj.set (propKey hostName) (inject_Z distributable) scores
      | [f0] =>
          let scores :=
            Obj.set (propKey hostName)
              (inject_Z (Math_round (inject_Z distributable * 0.75))) scores in
          Obj.set (propKey f0)
            (inject_Z distributable
             - default 0%Q (Obj.get (propKey hostName) scores))%Q scores
      | f0 :: f1 :: _ =>
          let hostShare := Math_round (inject_Z distributable * 0.5) in
          let friendShare :=
            Math_round (inject_Z (distributable - hostShare) / 2) in
          let scores := Obj.set (propKey hostName) (inject_Z hostShare) scores in
          let scores := Obj.set (propKey f0) (inject_Z friendShare) scores in
          Obj.set (propKey f1)
            (inject_Z (distributable - hostShare - friendShare)) scores
      end in
    mkResult scores "Host Team"
             ("Host team split of " +:+ pretty (400 - opponentScore))
  else
    let each := div (inject_Z opponentScore * 1.5) (length opponents) in
    mkResult (foldl (fun s p => Obj.set p (stored each) s) scores opponents)
             "Opponents"
             ("Opponents each +" +:+ toFixed0 each).


(** *** Session store *)

Module Round.
Record t : Type := mk {
  id : string;
  round : nat;
  mode : string;
  players : list string;
  host : option string;
  friends : list (option string);
  bid : Z;
  opponentScore : Z;
  scores : obj Q;
  winner : string;
  distribution : string;
  date : string;
}.
End Round.

Module Session.
Record t : Type := mk {
  players : list string;
  rounds : list Round.t;
  currentRound : nat;
}.
End Session.

(** The component state: the session map, the selected date and the
    fields of the New Round form. *)
Record State : Type := mkState {
  selectedDate : string;
  gameData : obj Session.t;
  mode : string;
  host : nat;
  friends : list nat;
  bid : Z;
  opponentScore : Z;
}.

Definition newSession : Session.t := Session.mk defaultPlayers [] 1.

(** The state of the first render. *)
Definition initialState (today : string) : State :=
  mkState today (Obj.set today newSession []) "Normal" 0 [] START_BID 0.

Definition setGameData (f : obj Session.t -> obj Session.t) (st : State)
  : State :=
  mkState (selectedDate st) (f (gameData st)) (mode st) (host st)
          (friends st) (bid st) (opponentScore st).

(** [getCurrent] (lines 53-63): the session of the selected date, created
    with the default roster when the date has none yet. *)
Definition getCurrent (st : State) : Session.t * State :=
  match Obj.get (selectedDate st) (gameData st) with
  | None =>
      (newSession,
       setGameData (fun prev => Obj.set (selectedDate st) newSession prev) st)
  | Some s => (s, st)
  end.

(** [const session = getCurrent()] (line 88). *)
Definition session (st : State) : Session.t := (getCurrent st).1.

(** [updateCurrent] (lines 65-70). *)
Definition updateCurrent (updater : Session.t -> Session.t) (st : State)
  : State :=
  setGameData (fun prev =>
    let existing := default newSession (Obj.get (selectedDate st) prev) in
    Obj.set (selectedDate st) (updater existing) prev) st.

(** [players[idx] = name] on an array of names.  An index within the
    array replaces the slot and the index just past the end appends; a
    larger index would leave empty slots behind, which an array of names
    cannot hold: no result. *)
Definition array_set (players : list string) (idx : nat) (name : string)
  : option (list string) :=
  if decide (idx < length players)%nat then Some (<[idx := name]> players)
  else if decide (idx = length players) then Some (players ++ [name])
  else None.

(** [onRename] (lines 73-79).  The updater copies the roster of the session
    it is given, writes the slot in the copy and returns the session with
    the copy: [array_set] on the roster of that session.  The rows of the
    roster editor call it with their own index. *)
Definition onRename (idx : nat) (name : string) (st : State) : option State :=
  let existing := default newSession (Obj.get (selectedDate st) (gameData st)) in
  players ← array_set (Session.players existing) idx name;
  Some (updateCurrent (fun s =>
          Session.mk players (Session.rounds s) (Session.currentRound s)) st).

Definition friendsAllowed (st : State) : nat :=
  if decide (mode st = "Normal") then 2%nat else 0%nat.

(** [toggleFriend] (lines 93-102). *)
Definition toggleFriend (i : nat) (st : State) : State :=
  if decide (i = host st) then st
  else if decide (friendsAllowed st = 0%nat) then st
  else
    let prev := friends st in
    let next :=
      if decide (i ∈ prev) then filter (fun x => x ≠ i) prev
      else prev ++ [i] in
    let next :=
      if decide (friendsAllowed st < length next)%nat
      then take (friendsAllowed st) next else next in
    mkState (selectedDate st) (gameData st) (mode st) (host st) next
            (bid st) (opponentScore st).

(** [resetNewGameForm] (lines 104-110). *)
Definition resetNewGameForm (st : State) : State :=
  mkState (selectedDate st) (gameData st) "Normal" 0 [] START_BID 0.

(** [addRound] (lines 235-277). *)
Definition addRound (today : string) (now : Z) (st : State) : State :=
  if decide (selectedDate st ≠ today) then st
  else
    let players := Session.players (session st) in
    let friendIdxs := filter (fun i => i ≠ host st) (friends st) in
    if decide (mode st = "Normal" ∧ (2 < length friendIdxs)%nat) then st
    else if decide (bid st < 80 ∧ bid st ≠ NO_BIDS_VALUE) then st
    else if decide (opponentScore st < 0 ∨ 400 < opponentScore st) then st
    else
      let res :=
        calculateScores (mode st) players (host st) friendIdxs
                        (bid st) (opponentScore st) in
      resetNewGameForm
        (updateCurrent (fun s =>
           Session.mk
             (Session.players s)
             (Session.rounds s ++
                [Round.mk (pretty now) (Session.currentRound s) (mode st)
                   players (players !! host st)
                   ((fun i => players !! i) <$> friendIdxs)
                   (bid st) (opponentScore st)
                   (scores res) (winner res) (distribution res)
                   (selectedDate st)])
             (Session.currentRound s + 1)%nat) st).

(** *** Statistics *)

Definition hostTeamWon (r : Round.t) : bool :=
  bool_decide (Round.winner r = "Host" ∨ Round.winner r = "Host Team").

(** An entry of [playerStats]; the total score is a double. *)
Module Stats.
Record t : Type := mk {
  totalScore : double;
  gamesPlayed : nat;
  hosted : nat;
  hostWins : nat;
  friendGames : nat;
  friendWins : nat;
}.

Definition zero : t := mk (ofZ 0) 0 0 0 0 0.
Definition played (s : t) : t :=
  mk (totalScore s) (gamesPlayed s + 1) (hosted s) (hostWins s)
     (friendGames s) (friendWins s).
Definition scored (score : Q) (s : t) : t :=
  mk (fadd (totalScore s) (toDouble score)) (gamesPlayed s) (hosted s)
     (hostWins s) (friendGames s) (friendWins s).
Definition asHost (won : bool) (s : t) : t :=
  mk (totalScore s) (gamesPlayed s) (hosted s + 1)
     (if won then hostWins s + 1 else hostWins s)%nat
     (friendGames s) (friendWins s).
Definition asFriend (won : bool) (s : t) : t :=
  mk (totalScore s) (gamesPlayed s) (hosted s) (hostWins s)
     (friendGames s + 1)
     (if won then friendWins s + 1 else friendWins s)%nat.

(** The number an entry holds under a property name. *)
Definition field (k : string) (s : t) : option double :=
  if decide (k = "totalScore") then Some (totalScore s)
  else if decide (k = "gamesPlayed") then Some (ofZ (Z.of_nat (gamesPlayed s)))
  else if decide (k = "hosted") then Some (ofZ (Z.of_nat (hosted s)))
  else if decide (k = "hostWins") then Some (ofZ (Z.of_nat (hostWins s)))
  else if decide (k = "friendGames") then Some (ofZ (Z.of_nat (friendGames s)))
  else if decide (k = "friendWins") then Some (ofZ (Z.of_nat (friendWins s)))
  else None.
End Stats.

(** An entry of [playerRankings]. *)
Module Ranking.
Record t : Type := mk {
  name : string;
  totalScore : Z;
  gamesPlayed : nat;
  hosted : nat;
  hostWins : nat;
  hostRate : Z;
  friendGames : nat;
  friendWins : nat;
  friendRate : Z;
}.
End Ranking.

Module EnhancedStats.
Record t : Type := mk {
  totalRounds : nat;
  playerRankings : list Ranking.t;
  bestHost : option Ranking.t;
  bestFriend : option Ranking.t;
  mostGamesPlayed : option Ranking.t;
}.
End EnhancedStats.

(** [games > 0 ? Math.round((wins / games) * 100) : 0] (lines 168, 171):
    the quotient and the product are doubles. *)
Definition rate (wins games : nat) : Z :=
  if decide (0 < games)%nat
  then Math_round_double
         (fmul (fdiv (ofZ (Z.of_nat wins)) (ofZ (Z.of_nat games))) (ofZ 100))
  else 0.

(** [forEach] with a body that can throw. *)
Fixpoint forEachM {A S : Type} (body : S -> A -> option S) (l : list A)
    (s : S) : option S :=
  match l with
  | [] => Some s
  | x :: l' => s' ← body s x; forEachM body l' s'
  end.

(** [if (playerStats[k]) { playerStats[k].field += ... }] in the strict
    code of a module.  An own entry is updated.  Otherwise the read goes
    to the prototype chain: under [__proto__] it gives the prototype,
    which is the entry assigned under that name if there is one, and is
    then updated; under the name of a field of that entry it gives a
    number, on which the update throws a [TypeError] ([None]) when the
    number is truthy; in every other case the table is left as it is (the
    value is [undefined], or a member of [Object.prototype], which takes
    the property). *)
Definition guarded (k : string) (f : Stats.t -> Stats.t) (t : Table Stats.t)
  : option (Table Stats.t) :=
  match Obj.get k (own t) with
  | Some v => Some (mkTable (Obj.set k (f v) (own t)) (proto t))
  | None =>
      match proto t with
      | None => Some t
      | Some s =>
          if decide (k = "__proto__") then Some (mkTable (own t) (Some (f s)))
          else match Stats.field k s with
               | Some x => if truthy x then None else Some t
               | None => Some t
               end
      end
  end.

(** The body of [allRounds.forEach] (lines 130-158). *)
Definition countRound (playerStats : Table Stats.t) (round : Round.t)
  : option (Table Stats.t) :=
  playerStats ←
    forEachM (fun ps p => guarded p Stats.played ps)
             (Round.players round) playerStats;
  playerStats ←
    forEachM (fun ps e => guarded e.1 (Stats.scored e.2) ps)
             (Obj.entries (Round.scores round)) playerStats;
  playerStats ←
    guarded (propKey (Round.host round)) (Stats.asHost (hostTeamWon round))
            playerStats;
  forEachM (fun ps friend =>
              guarded (propKey friend) (Stats.asFriend (hostTeamWon round)) ps)
           (Round.friends round) playerStats.

(** The table [playerStats] after the loop over all rounds (lines
    118-158); [None] when the loop throws. *)
Definition playerStats (allRounds : list Round.t) (players : list string)
  : option (Table Stats.t) :=
  forEachM countRound allRounds
    (foldl (fun acc p => assign p Stats.zero acc) (mkTable [] None) players).

Definition toRanking (e : string * Stats.t) : Ranking.t :=
  let stats := e.2 in
  Ranking.mk e.1
    (Math_round_double (Stats.totalScore stats))
    (Stats.gamesPlayed stats)
    (Stats.hosted stats)
    (Stats.hostWins stats)
    (rate (Stats.hostWins stats) (Stats.hosted stats))
    (Stats.friendGames stats)
    (Stats.friendWins stats)
    (rate (Stats.friendWins stats) (Stats.friendGames stats)).

(** Lines 160-186, from the own entries of [playerStats], which are what
    [Object.entries] lists.  The sort of line 178 reorders the array
    [playerRankings] itself, which is the array returned. *)
Definition summarise (totalRounds : nat) (playerStats : obj Stats.t)
  : EnhancedStats.t :=
  let playerRankings :=
    sort (fun a b => Ranking.totalScore b - Ranking.totalScore a)
         (toRanking <$> Obj.entries playerStats) in
  let bestHost :=
    head (sort (fun a b => Ranking.hostRate b - Ranking.hostRate a)
               (filter (fun p => (3 <= Ranking.hosted p)%nat) playerRankings)) in
  let bestFriend :=
    head (sort (fun a b => Ranking.friendRate b - Ranking.friendRate a)
               (filter (fun p => (3 <= Ranking.friendGames p)%nat)
                       playerRankings)) in
  let playerRankings :=
    sort (fun a b => Z.of_nat (Ranking.gamesPlayed b)
                     - Z.of_nat (Ranking.gamesPlayed a)) playerRankings in
  let mostGamesPlayed := head playerRankings in
  EnhancedStats.mk totalRounds playerRankings bestHost bestFriend
                   mostGamesPlayed.

(** [enhancedStats] (lines 113-187), a function of its dependencies
    [gameData] and [players]; [None] when the loop over the rounds
    throws. *)
Definition enhancedStats (gameData : obj Session.t) (players : list string)
  : option EnhancedStats.t :=
  let allRounds := flat_map Session.rounds (Obj.values gameData) in
  let totalRounds := length allRounds in
  table ← playerStats allRounds players;
  Some (summarise totalRounds (own table)).

(** An entry of [rs] in [roleStats]. *)
Module Role.
Record t : Type := mk {
  hosted : nat;
  hostWins : nat;
  friendGames : nat;
  friendWins : nat;
  played : nat;
}.

Definition zero : t := mk 0 0 0 0 0.
Definition incPlayed (s : t) : t :=
  mk (hosted s) (hostWins s) (friendGames s) (friendWins s) (played s + 1).
Definition incHosted (s : t) : t :=
  mk (hosted s + 1) (hostWins s) (friendGames s) (friendWins s) (played s).
Definition incHostWins (s : t) : t :=
  mk (hosted s) (hostWins s + 1) (friendGames s) (friendWins s) (played s).
Definition incFriendGames (s : t) : t :=
  mk (hosted s) (hostWins s) (friendGames s + 1) (friendWins s) (played s).
Definition incFriendWins (s : t) : t :=
  mk (hosted s) (hostWins s) (friendGames s) (friendWins s + 1) (played s).
End Role.

(** [o[k].field += 1] without a guard, on the own entries of [o], in the
    strict code of a module.  An own entry is updated.  Under a name that
    is not a key, the read gives a member of [Object.prototype] when the
    name is inherited, and the property is written on that member: the
    entries are left as they are.  Under any other name the read gives
    [undefined], or a number when a field of an entry installed as the
    prototype or a property written earlier on [Object.prototype] has
    that name, and the update throws a [TypeError] ([None]). *)
Definition bump {V : Type} (k : string) (f : V -> V) (o : obj V)
  : option (obj V) :=
  match Obj.get k o with
  | Some v => Some (Obj.set k (f v) o)
  | None => if decide (k ∈ inherited) then Some o else None
  end.

(** The body of [rounds.forEach] in [roleStats] (lines 298-309). *)
Definition roleRound (rs : obj Role.t) (r : Round.t) : option (obj Role.t) :=
  rs ← forEachM (fun rs p => bump p Role.incPlayed rs) (Round.players r) rs;
  rs ← bump (propKey (Round.host r)) Role.incHosted rs;
  rs ← (if hostTeamWon r
        then bump (propKey (Round.host r)) Role.incHostWins rs
        else Some rs);
  forEachM (fun rs f =>
              rs ← bump (propKey f) Role.incFriendGames rs;
              if hostTeamWon r then bump (propKey f) Role.incFriendWins rs
              else Some rs)
           (Round.friends r) rs.

(** [roleStats] (lines 292-311), a function of [rounds] and [players]:
    the own entries of [rs], [None] when the loop throws. *)
Definition roleStats (rounds : list Round.t) (players : list string)
  : option (obj Role.t) :=
  let rs :=
    own (foldl (fun acc p => assign p Role.zero acc) (mkTable [] None)
               players) in
  forEachM roleRound rounds rs.

(** *** Totals by player *)

(** A row [{ player, total }]. *)
Module Total.
Record t : Type := mk {
  player : string;
  total : Q;
}.
End Total.

(** The body of the loop over rounds (lines 283-285, 707-709, 738-740):
    [map.set(name, (map.get(name) || 0) + pts)] for every entry of the
    scores of the round. *)
Definition addScores (map : list (string * Q)) (r : Round.t)
  : list (string * Q) :=
  foldl (fun map e =>
           Map.set e.1 (default 0%Q (Map.get e.1 map) + e.2)%Q map)
        map (Obj.entries (Round.scores r)).

(** The rows of a map, sorted by [b.total - a.total]. *)
Definition rows (map : list (string * Q)) : list Total.t :=
  sort (fun a b => sign (Total.total b - Total.total a))
       ((fun e => Total.mk e.1 e.2) <$> Map.entries map).

(** [totalsByPlayer] (lines 280-290), a function of [rounds]; the totals
    of a session of the Past Games tab (lines 704-714) are the same
    function of [s.rounds]. *)
Definition totalsByPlayer (rounds : list Round.t) : list Total.t :=
  rows (foldl addScores [] rounds).

(** The rows of the all-time table (lines 734-745). *)
Definition allTimeRows (gameData : obj Session.t) : list Total.t :=
  rows (foldl (fun map s => foldl addScores map (Session.rounds s))
              [] (Obj.values gameData)).

(** *** The handlers of the interface

    What the user can do between two renders; [today] is the calendar
    date at that moment.  The guards are those of the widgets: a row, an
    option or a button that is not on the page cannot be used. *)

Inductive Event : Type :=
  | Rename (idx : nat) (name : string)
  | SelectMode (value : string)
  | SelectHost (v : nat)
  | ToggleFriend (i : nat)
  | BidMinus
  | BidPlus
  | BidNoBids
  | BidReset
  | TypeOpponentScore (value : Z)
  | AddRound (now : Z)
  | ResetForm
  | SelectDate (d : string)
  | JumpToToday.

Definition setForm (mode : string) (host : nat) (friends : list nat)
    (bid opponentScore : Z) (st : State) : State :=
  mkState (selectedDate st) (gameData st) mode host friends bid opponentScore.

Definition setSelectedDate (d : string) (st : State) : State :=
  mkState d (gameData st) (mode st) (host st) (friends st) (bid st)
          (opponentScore st).

Definition handle (today : string) (e : Event) (st0 : State) : option State :=
  let '(session, st) := getCurrent st0 in
  let players := Session.players session in
  match e with
  | Rename idx name =>
      if decide (idx < length players)%nat then onRename idx name st else None
  | SelectMode value =>
      if decide (value = "Normal" ∨ value = "1v5") then
        Some (setForm value (host st) []
                (if decide (value = "1v5") then 200 else START_BID)
                (opponentScore st) st)
      else None
  | SelectHost v =>
      if decide (v < length players)%nat then
        Some (setForm (mode st) v (filter (fun i => i ≠ v) (friends st))
                (bid st) (opponentScore st) st)
      else None
  | ToggleFriend i =>
      if decide (i < length players ∧ i ≠ host st ∧ friendsAllowed st ≠ 0)%nat
      then Some (toggleFriend i st) else None
  | BidMinus =>
      if decide (mode st = "1v5" ∨ bid st <= 80) then None
      else Some (setForm (mode st) (host st) (friends st)
                   (Z.max 80 (bid st - 5)) (opponentScore st) st)
  | BidPlus =>
      if decide (mode st = "1v5" ∨ 150 <= bid st) then None
      else Some (setForm (mode st) (host st) (friends st)
                   (Z.min 150 (bid st + 5)) (opponentScore st) st)
  | BidNoBids =>
      if decide (mode st = "1v5") then None
      else Some (setForm (mode st) (host st) (friends st) NO_BIDS_VALUE
                   (opponentScore st) st)
  | BidReset =>
      if decide (mode st = "1v5") then None
      else Some (setForm (mode st) (host st) (friends st) START_BID
                   (opponentScore st) st)
  | TypeOpponentScore value =>
      Some (setForm (mode st) (host st) (friends st) (bid st) value st)
  | AddRound now =>
      if decide (selectedDate st = today) then Some (addRound today now st)
      else None
  | ResetForm => Some (resetNewGameForm st)
  | SelectDate d =>
      if decide (d ∈ Obj.keys (gameData st)) then Some (setSelectedDate d st)
      else None
  | JumpToToday => Some (setSelectedDate today st)
  end.

(** A run of the interface: each event with the date on which it
    happens. *)
Fixpoint run (es : list (string * Event)) (st : State) : option State :=
  match es with
  | [] => Some st
  | (today, e) :: es' => st' ← handle today e st; run es' st'
  end.

End App.

(** ** src/unnamed/part_001 *)

Module Part001.

(** Scoring logic (lines 113-156). *)
Definition calculateScores (mode : string) (players : list string)
    (hostIdx : nat) (friendIdxs : list nat) (bid opponentScore : Z)
  : Result :=
  let n := length players in
  let scores := Obj.fromEntries ((fun p => (p, 0%Q)) <$> players) in
  let hostName := players !! hostIdx in
  let friendNames := (fun i => players !! i) <$> friendIdxs in
  let teamSet := hostName :: friendNames in
  let opponents := filter (fun p => Some p ∉ teamSet) players in
  let winHostTeam := bool_decide (opponentScore < bid) in
  if decide (mode = "1v5") then
    if winHostTeam then
      mkResult (Obj.set (propKey hostName) 400%Q scores)
               "Host" "1v5 host win: +400"
    else
      let each := Finite ((inject_Z opponentScore * 1.5) / 5) in
      mkResult (foldl (fun s p => Obj.set p (stored each) s) scores opponents)
               "Opponents"
               ("1v5 opponents: each +" +:+ toFixed0 each)
  else if winHostTeam then
    let distributable := 400 - opponentScore in
    let scores :=
      match friendNames with
      | [] => Obj.set (propKey hostName) (inject_Z distributable) scores
      | [f0] =>
          let scores :=
            Obj.set (propKey hostName)
              (inject_Z (Math_round (inject_Z distributable * 0.75))) scores in
          Obj.set (propKey f0)
            (inject_Z distributable
             - default 0%Q (Obj.get (propKey hostName) scores))%Q scores
      | f0 :: f1 :: _ =>
          let hostShare := Math_round (inject_Z distributable * 0.5) in
          let friendShare :=
            Math_round (inject_Z (distributable - hostShare) / 2) in
          let scores := Obj.set (propKey hostName) (inject_Z hostShare) scores in
          let scores := Obj.set (propKey f0) (inject_Z friendShare) scores in
          Obj.set (propKey f1)
            (inject_Z (distributable - hostShare - friendShare)) scores
      end in
    mkResult scores "Host Team"
             ("Host team split of " +:+ pretty (400 - opponentScore))
  else
    let each := div (inject_Z opponentScore * 1.5) (length opponents) in
    mkResult (foldl (fun s p => Obj.set p (stored each) s) scores opponents)
             "Opponents"
             ("Opponents each +" +:+ toFixed0 each).

Definition START_BID : Z := 150.
Definition NO_BIDS_VALUE : Z := 160.

(** [onRename] (lines 73-79): as in src/src/App.jsx, but the slot gets
    [name || `Player ${idx + 1}`], the default name of the row when the
    name typed is empty. *)
Definition onRename (idx : nat) (name : string) (st : App.State)
  : option App.State :=
  let existing :=
    default App.newSession (Obj.get (App.selectedDate st) (App.gameData st)) in
  players ← App.array_set (App.Session.players existing) idx
              (if decide (name = "") then "Player " +:+ pretty (idx + 1)%nat
               else name);
  Some (App.updateCurrent (fun s =>
          App.Session.mk players (App.Session.rounds s)
                         (App.Session.currentRound s)) st).

(** The four bid buttons (lines 408, 415, 421 and 427) as updates of
    [bid]; [resetNewGameForm] sets the bid as the Reset button does. *)
Inductive BidButton : Type := Minus | Plus | NoBids | Reset.

Definition press (button : BidButton) (b : Z) : Z :=
  match button with
  | Minus =>
      if decide (b = NO_BIDS_VALUE) then START_BID else Z.max START_BID (b - 5)
  | Plus => if decide (b = NO_BIDS_VALUE) then START_BID + 5 else b + 5
  | NoBids => NO_BIDS_VALUE
  | Reset => START_BID
  end.


End Part001.

(** ** Vocabulary of the statements *)

Import App.

(** What a guarded update [if (o[k]) { update o[k] }] does to the own
    entries of a table when it does not throw: an entry under the name is
    updated, and under a name that is not a key no entry changes. *)
Definition whenPresent {V : Type} (k : string) (f : V -> V) (o : obj V)
  : obj V :=
  match Obj.get k o with
  | Some v => Obj.set k (f v) o
  | None => o
  end.

(** The names of the roster that become own keys of a table filled by
    [acc[p] = {...}]: all but [__proto__], whose assignment replaces the
    prototype of the table. *)
Definition ownNames (players : list string) : list string :=
  filter (fun p => p ≠ "__proto__") players.

(** The own entries of [playerStats] after one round, after all rounds,
    and the statistics computed from them, when the loop does not throw. *)
Definition ownRound (entries : obj Stats.t) (round : Round.t) : obj Stats.t :=
  let entries :=
    foldl (fun ps p => whenPresent p Stats.played ps)
          entries (Round.players round) in
  let entries :=
    foldl (fun ps e => whenPresent e.1 (Stats.scored e.2) ps)
          entries (Obj.entries (Round.scores round)) in
  let entries :=
    whenPresent (propKey (Round.host round))
                (Stats.asHost (hostTeamWon round)) entries in
  foldl (fun ps friend =>
           whenPresent (propKey friend) (Stats.asFriend (hostTeamWon round)) ps)
        entries (Round.friends round).

Definition ownTable (allRounds : list Round.t) (players : list string)
  : obj Stats.t :=
  foldl ownRound
        (foldl (fun acc p => Obj.set p Stats.zero acc) [] players)
        allRounds.

Definition rankingsByTotal (allRounds : list Round.t) (players : list string)
  : list Ranking.t :=
  sort (fun a b => Ranking.totalScore b - Ranking.totalScore a)
       (toRanking <$> Obj.entries (ownTable allRounds players)).

Definition ownStats (gameData : obj Session.t) (players : list string)
  : EnhancedStats.t :=
  let allRounds := flat_map Session.rounds (Obj.values gameData) in
  summarise (length allRounds) (ownTable allRounds players).

(** The sum of a list of numbers. *)
Definition sumQ (l : list Q) : Q := foldr Qplus 0%Q l.

(** The three validation rules of [addRound] (lines 241-243) on the content
    of the form. *)
Definition rejected (mode : string) (host : nat) (friends : list nat)
    (bid opponentScore : Z) : Prop :=
  (mode = "Normal" ∧ (2 < length (filter (fun i => i ≠ host) friends))%nat)
  ∨ (bid < 80 ∧ bid ≠ 160)
  ∨ (opponentScore < 0 ∨ 400 < opponentScore).

(** An append attempt: the button is pressed on some day, at some instant,
    with some content in the form. *)
Record Attempt : Type := mkAttempt {
  a_today : string;
  a_now : Z;
  a_mode : string;
  a_host : nat;
  a_friends : list nat;
  a_bid : Z;
  a_opponentScore : Z;
}.

Definition attempt (a : Attempt) (st : State) : State :=
  addRound (a_today a) (a_now a)
    (setForm (a_mode a) (a_host a) (a_friends a) (a_bid a) (a_opponentScore a) st).

(** The attempt is made on the selected date and passes validation. *)
Definition passes (selected : string) (a : Attempt) : Prop :=
  a_today a = selected
  ∧ ¬ rejected (a_mode a) (a_host a) (a_friends a) (a_bid a) (a_opponentScore a).

#[global] Instance rejected_dec m h f b o : Decision (rejected m h f b o).
Proof. unfold rejected. apply _. Defined.

#[global] Instance passes_dec sel a : Decision (passes sel a).
Proof. unfold passes. apply _. Defined.

(** The sum of a counter over the entries of a table. *)
Definition total {V : Type} (g : V -> nat) (o : obj V) : nat :=
  sum_list (g <$> Obj.values o).

(** The counter of one name in a table, 0 for a name the table lacks. *)
Definition counter {V : Type} (g : V -> nat) (k : string) (o : obj V) : nat :=
  default 0%nat (g <$> Obj.get k o).

(** Two tables with the same names and the same values of a counter. *)
Definition sameCounter {V : Type} (g : V -> nat) (o o' : obj V) : Prop :=
  Obj.keys o' = Obj.keys o
  ∧ total g o' = total g o
  ∧ ∀ k, counter g k o' = counter g k o.

(** The host of the round is a name of the roster. *)
Definition hostKnown (players : list string) (r : Round.t) : Prop :=
  propKey (Round.host r) ∈ players.

(** Every name recorded in the round is a name of the roster. *)
Definition namesKnown (players : list string) (r : Round.t) : Prop :=
  Forall (fun p => p ∈ players) (Round.players r)
  ∧ propKey (Round.host r) ∈ players
  ∧ Forall (fun f => propKey f ∈ players) (Round.friends r).

#[global] Instance hostKnown_dec players r : Decision (hostKnown players r).
Proof. unfold hostKnown. apply _. Defined.

#[global] Instance namesKnown_dec players r : Decision (namesKnown players r).
Proof. unfold namesKnown. apply _. Defined.

(** What the widgets maintain in the form: one of the two modes, no
    friends in 1v5, at most two friends, none of them the host, and a host
    among the six rows. *)
Definition formOk (st : State) : Prop :=
  (mode st = "Normal" ∨ mode st = "1v5")
  ∧ (mode st = "1v5" → friends st = [])
  ∧ (length (friends st) <= 2)%nat
  ∧ (host st ∉ friends st)
  ∧ (host st < 6)%nat.

(** Every session has a roster of six names. *)
Definition rostersOk (st : State) : Prop :=
  ∀ d s, Obj.get d (gameData st) = Some s → length (Session.players s) = 6%nat.

(** A list in descending order of a key. *)
Definition descending {A : Type} (key : A -> Z) (l : list A) : Prop :=
  StronglySorted (fun a b => key b <= key a) l.

(** Two evenings of play.  On Monday the first player is renamed before
    the only round of the day, which the second player hosts and wins with
    no friends; the page stays open, and on Tuesday the user jumps to the
    new day, whose session starts with the default roster, and records a
    1v5 round that the first player wins. *)
Definition monday : string := "Mon Oct 28 2024".
Definition tuesday : string := "Tue Oct 29 2024".

Definition twoEvenings : list (string * Event) :=
  [ (monday, Rename 0 "Alice");
    (monday, SelectHost 1);
    (monday, TypeOpponentScore 100);
    (monday, AddRound 1730150000000);
    (tuesday, JumpToToday);
    (tuesday, SelectMode "1v5");
    (tuesday, AddRound 1730236400000) ].

(** A round is recorded, then the player who hosted it is renamed. *)
Definition renamedHost : list (string * Event) :=
  [ (monday, TypeOpponentScore 100);
    (monday, AddRound 1730150000000);
    (monday, Rename 0 "Alice") ].

(** The points a round hands out: the sum of the entries of [scores]. *)
Definition awarded (r : Result) : Q := sumQ (Obj.values (scores r)).

(** The host and the selected friends are rows of the roster, under the
    names given, and no two of them have the same name. *)
Definition team (players : list string) (hostIdx : nat) (friendIdxs : list nat)
    (hostName : string) (friendNames : list string) : Prop :=
  players !! hostIdx = Some hostName
  ∧ (fun i => players !! i) <$> friendIdxs = Some <$> friendNames
  ∧ NoDup (hostName :: friendNames).

(** The bid the buttons leave in the form: 200 in 1v5 mode, otherwise a
    multiple of 5 from 80 to 160. *)
Definition bidOk (st : State) : Prop :=
  if decide (mode st = "1v5") then bid st = 200
  else 80 <= bid st <= 160 ∧ bid st mod 5 = 0.

(** The selected friends are distinct rows of the roster editor. *)
Definition friendsOk (st : State) : Prop :=
  NoDup (friends st) ∧ Forall (fun i => (i < 6)%nat) (friends st).

(** A stored round is the record of a valid form: it carries the date of
    its session and six names; the opponent score is within [0,400]; the
    bid is 200 in 1v5 mode and a multiple of 5 from 80 to 160 in Normal
    mode; the host and the at most two friends (none in 1v5 mode) are
    distinct rows of the six names, and the scores, the winner and the
    distribution are those [calculateScores] gives for these fields. *)
Definition roundOk (d : string) (r : Round.t) : Prop :=
  Round.date r = d
  ∧ length (Round.players r) = 6%nat
  ∧ 0 <= Round.opponentScore r <= 400
  ∧ (if decide (Round.mode r = "1v5") then Round.bid r = 200
     else Round.mode r = "Normal"
          ∧ 80 <= Round.bid r <= 160 ∧ Round.bid r mod 5 = 0)
  ∧ ∃ hostIdx friendIdxs,
      (hostIdx < 6)%nat
      ∧ Forall (fun i => (i < 6)%nat) friendIdxs
      ∧ NoDup (hostIdx :: friendIdxs)
      ∧ (length friendIdxs <= 2)%nat
      ∧ (Round.mode r = "1v5" → friendIdxs = [])
      ∧ Round.host r = Round.players r !! hostIdx
      ∧ Round.friends r = (fun i => Round.players r !! i) <$> friendIdxs
      ∧ mkResult (Round.scores r) (Round.winner r) (Round.distribution r)
        = calculateScores (Round.mode r) (Round.players r) hostIdx friendIdxs
            (Round.bid r) (Round.opponentScore r).

(** The rounds of a session are numbered 1, 2, ... in order, the counter
    is one more than their number, and each of them is well formed. *)
Definition sessionOk (d : string) (s : Session.t) : Prop :=
  Round.round <$> Session.rounds s = seq 1 (length (Session.rounds s))
  ∧ Session.currentRound s = S (length (Session.rounds s))
  ∧ Forall (roundOk d) (Session.rounds s).

Definition sessionsOk (gameData : obj Session.t) : Prop :=
  ∀ d s, Obj.get d gameData = Some s → sessionOk d s.

(** Every session of the first map is still there in the second, with its
    rounds as the first rounds. *)
Definition extends (gameData gameData' : obj Session.t) : Prop :=
  ∀ d s, Obj.get d gameData = Some s →
    ∃ s', Obj.get d gameData' = Some s'
          ∧ Session.rounds s `prefix_of` Session.rounds s'.

(** Every stored round lists the names its session has now. *)
Definition namesKept (gameData : obj Session.t) : Prop :=
  ∀ d s, Obj.get d gameData = Some s →
    Forall (fun r => Round.players r = Session.players s) (Session.rounds s).

(** In a run of the interface, the names of a session are edited only
    while the session has no round. *)
Fixpoint renamesFirst (es : list (string * Event)) (st : State) : Prop :=
  match es with
  | [] => True
  | (today, e) :: es' =>
      match e with
      | Rename _ _ => Session.rounds (session st) = []
      | _ => True
      end
      ∧ match handle today e st with
        | Some st' => renamesFirst es' st'
        | None => True
        end
  end.

(** The order a stable sort by a key leaves in a list that was in the
    order [prior]: by the key, larger first, and by [prior] among equal
    keys. *)
Definition byKeyThen {A : Type} (key : A -> Z) (prior : A -> A -> Prop)
    (a b : A) : Prop :=
  key b < key a ∨ (key b = key a ∧ prior a b).


(** The points a list of score entries gives to a name, and the points
    the rounds give to a name: the sum of the entries of their scores
    under that name. *)
Definition pointsIn (name : string) (es : list (string * Q)) : Q :=
  sumQ (snd <$> filter (fun e => e.1 = name) es).


(** The score entries the rounds hold under a name, in the order of the
    rounds, and the total the engine reaches by adding scores to a total
    one after the other. *)
Definition entriesOf (name : string) (rounds : list Round.t) : list Q :=
  snd <$> filter (fun e => e.1 = name)
                 (flat_map (fun r => Obj.entries (Round.scores r)) rounds).

Definition addPoints (total : double) (scores : list Q) : double :=
  foldl (fun total score => fadd total (toDouble score)) total scores.

(** The total score of a name in the entries of [playerStats], 0 for a
    name they lack. *)
Definition totalScoreOf (name : string) (entries : obj Stats.t) : double :=
  default (ofZ 0) (Stats.totalScore <$> Obj.get name entries).

(** What the rounds say of a name: the rounds it hosted, those it hosted
    and won, the seats it had as a friend, and its seats as a friend in
    the rounds the host team won. *)
Definition hostedBy (name : string) (rounds : list Round.t) : nat :=
  length (filter (fun r => propKey (Round.host r) = name) rounds).

Definition hostWinsOf (name : string) (rounds : list Round.t) : nat :=
  length (filter (fun r => propKey (Round.host r) = name
                           ∧ hostTeamWon r = true) rounds).

Definition friendSeats (name : string) (r : Round.t) : nat :=
  length (filter (fun f => propKey f = name) (Round.friends r)).

Definition friendGamesOf (name : string) (rounds : list Round.t) : nat :=
  sum_list (friendSeats name <$> rounds).

Definition friendWinsOf (name : string) (rounds : list Round.t) : nat :=
  sum_list (friendSeats name
              <$> filter (fun r => hostTeamWon r = true) rounds).

(** Every name the loop of [roleStats] reads for the round is a key of
    the table or a name every object inherits. *)
Definition namesReadable (keys : list string) (r : Round.t) : Prop :=
  Forall (fun p => p ∈ keys ∨ p ∈ inherited) (Round.players r)
  ∧ (propKey (Round.host r) ∈ keys ∨ propKey (Round.host r) ∈ inherited)
  ∧ Forall (fun f => propKey f ∈ keys ∨ propKey f ∈ inherited)
           (Round.friends r).

#[global] Instance namesReadable_dec keys r : Decision (namesReadable keys r).
Proof. unfold namesReadable. apply _. Defined.


(** An evening of three rounds that the first player hosts with the
    second player as the friend: the host team wins the first two (400
    against 100 and 130 with a bid of 150) and loses the third (155). *)
Definition evening : list (string * Event) :=
  [ (monday, ToggleFriend 1); (monday, TypeOpponentScore 100);
    (monday, AddRound 1730150000000);
    (monday, ToggleFriend 1); (monday, TypeOpponentScore 130);
    (monday, AddRound 1730150600000);
    (monday, ToggleFriend 1); (monday, TypeOpponentScore 155);
    (monday, AddRound 1730151200000) ].

(** Three Normal rounds without friends that the first player hosts and
    loses with the bid of 150 against 176, 257 and 152: each of the five
    opponents gets 52.8, 77.1 and 45.6, which add up to 175.5 but, in
    doubles, to 175.49999999999997. *)
Definition lostEvening : list (string * Event) :=
  [ (monday, TypeOpponentScore 176); (monday, AddRound 1730150000000);
    (monday, TypeOpponentScore 257); (monday, AddRound 1730150600000);
    (monday, TypeOpponentScore 152); (monday, AddRound 1730151200000) ].

(** A round is recorded, then the player who hosted it is renamed
    [__proto__]. *)
Definition renamedToProto : list (string * Event) :=
  [ (monday, TypeOpponentScore 100);
    (monday, AddRound 1730150000000);
    (monday, Rename 0 "__proto__") ].

(** * Properties *)

(** ** Objects *)

Section obj_facts.
Context {V : Type}.
Implicit Types (k : string) (v : V) (o : obj V).

Lemma get_replace_eq k v o :
  is_Some (Obj.get k o) → Obj.get k (Obj.replace k v o) = Some v.
Proof.
  induction o as [|[k' v'] o IH]; simpl; [by intros [? ?]|].
  destruct (decide (k = k')) as [->|Hne]; simpl.
  - by rewrite decide_True.
  - by rewrite decide_False.
Qed.

Lemma get_replace_ne k k' v o :
  k ≠ k' → Obj.get k (Obj.replace k' v o) = Obj.get k o.
Proof.
  intros Hne. induction o as [|[k'' v''] o IH]; simpl; [done|].
  destruct (decide (k' = k'')) as [->|Hne']; simpl.
  - by rewrite !decide_False.
  - by rewrite IH.
Qed.

Lemma keys_replace k v o : Obj.keys (Obj.replace k v o) = Obj.keys o.
Proof.
  unfold Obj.keys. induction o as [|[k' v'] o IH]; simpl; [done|].
  destruct (decide (k = k')) as [->|Hne]; simpl; [done|]. by f_equal.
Qed.

Lemma get_add_eq k v o :
  Obj.get k o = None → Obj.get k (Obj.add k v o) = Some v.
Proof.
  induction o as [|[k' v'] o IH]; simpl.
  - by rewrite decide_True.
  - destruct (decide (k = k')) as [->|Hne]; [done|]. intros Hget.
    destruct (Obj.precedes k k'); simpl.
    + by rewrite decide_True.
    + rewrite decide_False by done. by apply IH.
Qed.

Lemma get_add_ne k k' v o :
  k ≠ k' → Obj.get k (Obj.add k' v o) = Obj.get k o.
Proof.
  intros Hne. induction o as [|[k'' v''] o IH]; simpl.
  - by rewrite decide_False.
  - destruct (Obj.precedes k' k''); simpl.
    + by rewrite (decide_False (P := k = k')).
    + by rewrite IH.
Qed.

Lemma add_perm k v o : Obj.add k v o ≡ₚ (k, v) :: o.
Proof.
  induction o as [|[k' v'] o IH]; simpl; [done|].
  destruct (Obj.precedes k k'); [done|]. rewrite IH. apply perm_swap.
Qed.

Lemma get_set_eq k v o : Obj.get k (Obj.set k v o) = Some v.
Proof.
  unfold Obj.set. destruct (Obj.get k o) as [w|] eqn:Hget.
  - apply get_replace_eq. by rewrite Hget.
  - by apply get_add_eq.
Qed.

Lemma get_set_ne k k' v o : k ≠ k' → Obj.get k (Obj.set k' v o) = Obj.get k o.
Proof.
  intros Hne. unfold Obj.set. destruct (Obj.get k' o).
  - by apply get_replace_ne.
  - by apply get_add_ne.
Qed.

Lemma get_set k k' v o :
  Obj.get k (Obj.set k' v o) = if decide (k = k') then Some v else Obj.get k o.
Proof.
  destruct (decide (k = k')) as [->|Hne];
    [apply get_set_eq | by apply get_set_ne].
Qed.

Lemma elem_of_keys k o : k ∈ Obj.keys o ↔ is_Some (Obj.get k o).
Proof.
  unfold Obj.keys. induction o as [|[k' v'] o IH]; simpl.
  - rewrite elem_of_nil. split; [done | by intros [? ?]].
  - rewrite elem_of_cons. destruct (decide (k = k')) as [->|Hne].
    + split; eauto.
    + rewrite IH. split; [by intros [?|?] | by right].
Qed.

Lemma not_elem_of_keys k o : k ∉ Obj.keys o ↔ Obj.get k o = None.
Proof. by rewrite elem_of_keys, eq_None_not_Some. Qed.

Lemma keys_set_present k v o :
  k ∈ Obj.keys o → Obj.keys (Obj.set k v o) = Obj.keys o.
Proof.
  intros [w Hget]%elem_of_keys. unfold Obj.set. rewrite Hget.
  apply keys_replace.
Qed.

Lemma keys_set_absent k v o :
  k ∉ Obj.keys o → Obj.keys (Obj.set k v o) ≡ₚ Obj.keys o ++ [k].
Proof.
  intros Hget%not_elem_of_keys. unfold Obj.set. rewrite Hget.
  unfold Obj.keys. rewrite add_perm. simpl.
  by rewrite Permutation_app_comm.
Qed.

Lemma values_set (P : V → Prop) k v o :
  P v → Forall P (Obj.values o) → Forall P (Obj.values (Obj.set k v o)).
Proof.
  intros Hv Ho. unfold Obj.set. destruct (Obj.get k o).
  - unfold Obj.values in *. induction o as [|[k' v'] o IH]; simpl; [done|].
    apply Forall_cons in Ho as [Hv' Ho].
    destruct (decide (k = k')); simpl; constructor; auto.
  - unfold Obj.values. rewrite add_perm. by constructor.
Qed.

(** Filling an object with one value under a list of keys. *)
Lemma get_fill v (l : list string) : ∀ o k,
  Obj.get k (foldl (fun s p => Obj.set p v s) o l)
  = if decide (k ∈ l) then Some v else Obj.get k o.
Proof.
  induction l as [|p l IH]; intros o k; cbn [foldl].
  - case_decide as Hin; [by apply elem_of_nil in Hin | done].
  - rewrite IH, get_set. rewrite (decide_ext _ _ _ _ (elem_of_cons l k p)).
    repeat case_decide; try done; exfalso; tauto.
Qed.

Lemma keys_fill_present v (l : list string) : ∀ o,
  l ⊆ Obj.keys o →
  Obj.keys (foldl (fun s p => Obj.set p v s) o l) = Obj.keys o.
Proof.
  induction l as [|p l IH]; intros o Hsub; simpl; [done|].
  assert (p ∈ Obj.keys o) as Hp by (apply Hsub; by left).
  rewrite IH; rewrite keys_set_present; try done.
  intros x Hx. apply Hsub. by right.
Qed.

Lemma fromEntries_const v (l : list string) :
  Obj.fromEntries ((fun p => (p, v)) <$> l)
  = foldl (fun s p => Obj.set p v s) [] l.
Proof.
  unfold Obj.fromEntries. generalize (@nil (string * V)).
  induction l as [|p l IH]; intros o; simpl; [done | apply IH].
Qed.

Lemma keys_fill_new v (l : list string) : ∀ o,
  NoDup (Obj.keys o ++ l) →
  Obj.keys (foldl (fun s p => Obj.set p v s) o l) ≡ₚ Obj.keys o ++ l.
Proof.
  induction l as [|p l IH]; intros o Hnd; simpl.
  - by rewrite app_nil_r.
  - assert (p ∉ Obj.keys o) as Hp.
    { apply NoDup_app in Hnd as (_ & Hdisj & _).
      intros Hin. apply (Hdisj p Hin). by left. }
    pose proof (keys_set_absent p v o Hp) as Hperm.
    rewrite IH; rewrite Hperm, <- app_assoc; done.
Qed.

Lemma keys_fromEntries_const v (l : list string) :
  NoDup l → Obj.keys (Obj.fromEntries ((fun p => (p, v)) <$> l)) ≡ₚ l.
Proof. intros Hnd. rewrite fromEntries_const. by rewrite keys_fill_new. Qed.

Lemma get_fromEntries_const v (l : list string) k :
  Obj.get k (Obj.fromEntries ((fun p => (p, v)) <$> l))
  = if decide (k ∈ l) then Some v else None.
Proof. rewrite fromEntries_const. apply get_fill. Qed.
End obj_facts.

(** ** The scoring function *)

(** C2: the host team wins exactly when [opponentScore < bid]; a tie goes
    to the opponents; the label is [Host] for a 1v5 host win, [Host Team]
    for a host-team win in any other mode ([Normal]), and [Opponents]
    otherwise. *)
Theorem calculateScores_winner mode players hostIdx friendIdxs bid opponentScore :
  let r := calculateScores mode players hostIdx friendIdxs bid opponentScore in
  (winner r = "Host" ∨ winner r = "Host Team" ↔ opponentScore < bid)
  ∧ (opponentScore = bid → winner r = "Opponents")
  ∧ winner r =
      (if decide (opponentScore < bid)
       then if decide (mode = "1v5") then "Host" else "Host Team"
       else "Opponents")
  ∧ (mode = "Normal" → opponentScore < bid → winner r = "Host Team").
Proof.
  simpl. unfold calculateScores.
  destruct (decide (mode = "1v5")) as [Hm|Hm];
    destruct (decide (opponentScore < bid)) as [Hw|Hw];
    rewrite ?(bool_decide_eq_true_2 _ Hw), ?(bool_decide_eq_false_2 _ Hw);
    cbn [winner]; split_and!; try done; try lia; try congruence;
    (split; [intros [?|?]; done || lia | intros; lia || auto]).
Qed.

Lemma calculateScores_winner_witness :
  winner (calculateScores "Normal" defaultPlayers 0 [] 150 150) = "Opponents".
Proof.
  refine (proj1 (proj2 (calculateScores_winner "Normal" defaultPlayers 0 [] 150 150)) _).
  reflexivity.
Defined.

(** C10: the scoring function of [src/src/App.jsx] and the one of
    [src/unnamed/part_001] return the same scores, winner label and
    distribution string on every input. *)
Theorem calculateScores_copies_agree mode players hostIdx friendIdxs bid opponentScore :
  App.calculateScores mode players hostIdx friendIdxs bid opponentScore
  = Part001.calculateScores mode players hostIdx friendIdxs bid opponentScore
  ∧ scores (App.calculateScores mode players hostIdx friendIdxs bid opponentScore)
    = scores (Part001.calculateScores mode players hostIdx friendIdxs bid opponentScore)
  ∧ winner (App.calculateScores mode players hostIdx friendIdxs bid opponentScore)
    = winner (Part001.calculateScores mode players hostIdx friendIdxs bid opponentScore)
  ∧ distribution (App.calculateScores mode players hostIdx friendIdxs bid opponentScore)
    = distribution (Part001.calculateScores mode players hostIdx friendIdxs bid opponentScore).
Proof. split_and!; reflexivity. Qed.

Lemma calculateScores_normal_win players hostIdx friendIdxs bid opponentScore :
  opponentScore < bid →
  scores (calculateScores "Normal" players hostIdx friendIdxs bid opponentScore)
  = let scores := Obj.fromEntries ((fun p => (p, 0%Q)) <$> players) in
    let hostName := players !! hostIdx in
    let distributable := 400 - opponentScore in
    match (fun i => players !! i) <$> friendIdxs with
    | [] => Obj.set (propKey hostName) (inject_Z distributable) scores
    | [f0] =>
        let scores :=
          Obj.set (propKey hostName)
            (inject_Z (Math_round (inject_Z distributable * 0.75))) scores in
        Obj.set (propKey f0)
          (inject_Z distributable
           - default 0%Q (Obj.get (propKey hostName) scores))%Q scores
    | f0 :: f1 :: _ =>
        let hostShare := Math_round (inject_Z distributable * 0.5) in
        let friendShare :=
          Math_round (inject_Z (distributable - hostShare) / 2) in
        let scores := Obj.set (propKey hostName) (inject_Z hostShare) scores in
        let scores := Obj.set (propKey f0) (inject_Z friendShare) scores in
        Obj.set (propKey f1)
          (inject_Z (distributable - hostShare - friendShare)) scores
    end.
Proof.
  intros Hw. unfold calculateScores.
  destruct (decide ("Normal" = "1v5")) as [?|_]; [done|].
  by rewrite (bool_decide_eq_true_2 _ Hw).
Qed.

(** The worked rounds of the specification. *)

Example round_A :
  calculateScores "Normal" defaultPlayers 0 [] 150 100
  = mkResult [("Player 1", 300%Q); ("Player 2", 0%Q); ("Player 3", 0%Q);
              ("Player 4", 0%Q); ("Player 5", 0%Q); ("Player 6", 0%Q)]
             "Host Team" "Host team split of 300".
Proof. vm_compute. reflexivity. Qed.

Example round_B :
  calculateScores "Normal" defaultPlayers 0 [1%nat] 150 130
  = mkResult [("Player 1", 203%Q); ("Player 2", 67%Q); ("Player 3", 0%Q);
              ("Player 4", 0%Q); ("Player 5", 0%Q); ("Player 6", 0%Q)]
             "Host Team" "Host team split of 270".
Proof. vm_compute. reflexivity. Qed.

Example round_C :
  winner (calculateScores "1v5" defaultPlayers 0 [] 200 210) = "Opponents"
  ∧ distribution (calculateScores "1v5" defaultPlayers 0 [] 200 210)
    = "1v5 opponents: each +63"
  ∧ Forall2 (fun e e' => e.1 = e'.1 ∧ (e.2 == e'.2)%Q)
      (scores (calculateScores "1v5" defaultPlayers 0 [] 200 210))
      [("Player 1", 0%Q); ("Player 2", 63%Q); ("Player 3", 63%Q);
       ("Player 4", 63%Q); ("Player 5", 63%Q); ("Player 6", 63%Q)].
Proof.
  split; [vm_compute; reflexivity|]. split; [vm_compute; reflexivity|].
  vm_compute. repeat constructor.
Qed.

Example round_D :
  addRound monday 1730150000000
    (setForm "Normal" 0 [1; 2; 3]%nat 150 100 (initialState monday))
  = setForm "Normal" 0 [1; 2; 3]%nat 150 100 (initialState monday).
Proof. vm_compute. reflexivity. Qed.

Example round_E :
  addRound monday 1730150000000
    (setForm "Normal" 0 [] 70 100 (initialState monday))
  = setForm "Normal" 0 [] 70 100 (initialState monday).
Proof. vm_compute. reflexivity. Qed.

(** Keys that are array indices come first, in ascending order. *)
Example index_keys_first :
  Obj.keys (Obj.fromEntries ((fun p => (p, 0%Q)) <$> ["Bo"; "10"; "Al"; "9"; "07"]))
  = ["9"; "10"; "Bo"; "Al"; "07"].
Proof. vm_compute. reflexivity. Qed.

(** C1: in Normal mode, when the host team wins, the host's share and the
    friends' shares add up to [400 - opponentScore] exactly, for 0, 1 and 2
    friends, with the shares computed as the claim says. *)
Theorem normal_win_shares_sum players hostIdx friendIdxs bid opponentScore
    hostName friendNames :
  0 <= opponentScore <= 400 →
  opponentScore < bid →
  players !! hostIdx = Some hostName →
  (fun i => players !! i) <$> friendIdxs = Some <$> friendNames →
  (length friendNames <= 2)%nat →
  NoDup (hostName :: friendNames) →
  let distributable := 400 - opponentScore in
  let r := calculateScores "Normal" players hostIdx friendIdxs bid opponentScore in
  ∃ (hostShare : Q) (friendShares : list Q),
    Obj.get hostName (scores r) = Some hostShare
    ∧ Forall2 (fun f share => Obj.get f (scores r) = Some share)
              friendNames friendShares
    ∧ (hostShare + sumQ friendShares == inject_Z distributable)%Q
    ∧ match friendShares with
      | [] => hostShare = inject_Z distributable
      | [friendShare] =>
          hostShare = inject_Z (Math_round (inject_Z distributable * 0.75))
          ∧ friendShare = (inject_Z distributable - hostShare)%Q
      | [friendShare1; friendShare2] =>
          let h := Math_round (inject_Z distributable * 0.5) in
          let f := Math_round (inject_Z (distributable - h) / 2) in
          hostShare = inject_Z h
          ∧ friendShare1 = inject_Z f
          ∧ friendShare2 = inject_Z (distributable - h - f)
      | _ => False
      end.
Proof.
  intros _ Hw Hhost Hfriends Hlen Hnd distributable r. subst r.
  rewrite (calculateScores_normal_win _ _ _ _ _ Hw), Hhost, Hfriends.
  cbn [propKey]. cbv zeta.
  destruct friendNames as [|f0 [|f1 [|f2 ?]]]; cbn [fmap list_fmap propKey].
  - exists (inject_Z distributable), []. rewrite get_set_eq.
    split_and!; [done | constructor | | done]. unfold sumQ, id; cbn [foldr]. clear. subst distributable. ring.
  - apply NoDup_cons in Hnd as [Hne _]. rewrite list_elem_of_singleton in Hne.
    rewrite get_set_eq. cbn [default from_option id].
    eexists _, [_]. split; [|split; [|split]].
    + rewrite get_set_ne by done. apply get_set_eq.
    + constructor; [apply get_set_eq | constructor].
    + unfold sumQ, id; cbn [foldr]. clear. subst distributable. ring.
    + done.
  - apply NoDup_cons in Hnd as [Hne Hnd].
    apply NoDup_cons in Hnd as [Hne' _].
    rewrite list_elem_of_singleton in Hne'.
    rewrite !elem_of_cons in Hne.
    eexists _, [_; _]. split; [|split; [|split]].
    + rewrite !get_set_ne by naive_solver. apply get_set_eq.
    + constructor; [|constructor; [|constructor]].
      * rewrite get_set_ne by done. apply get_set_eq.
      * apply get_set_eq.
    + unfold sumQ; cbn [foldr]. rewrite Qplus_0_r, <- !inject_Z_plus.
      apply inject_Z_injective. lia.
    + done.
  - simpl in Hlen. lia.
Qed.

Lemma normal_win_shares_sum_witness :
  0 <= 131 <= 400 ∧ 131 < 150
  ∧ ∃ (hostShare : Q) (friendShares : list Q),
      Obj.get "Player 1"
        (scores (calculateScores "Normal" defaultPlayers 0 [1%nat; 2%nat] 150 131))
      = Some hostShare
      ∧ Forall2 (fun f share =>
                   Obj.get f
                     (scores (calculateScores "Normal" defaultPlayers 0
                                [1%nat; 2%nat] 150 131)) = Some share)
                ["Player 2"; "Player 3"] friendShares
      ∧ (hostShare + sumQ friendShares == inject_Z (400 - 131))%Q
      ∧ match friendShares with
        | [] => hostShare = inject_Z (400 - 131)
        | [friendShare] =>
            hostShare = inject_Z (Math_round (inject_Z (400 - 131) * 0.75))
            ∧ friendShare = (inject_Z (400 - 131) - hostShare)%Q
        | [friendShare1; friendShare2] =>
            let h := Math_round (inject_Z (400 - 131) * 0.5) in
            let f := Math_round (inject_Z (400 - 131 - h) / 2) in
            hostShare = inject_Z h
            ∧ friendShare1 = inject_Z f
            ∧ friendShare2 = inject_Z (400 - 131 - h - f)
        | _ => False
        end.
Proof.
  split; [lia|]. split; [lia|].
  apply (normal_win_shares_sum defaultPlayers 0 [1%nat; 2%nat] 150 131
           "Player 1" ["Player 2"; "Player 3"]).
  - lia.
  - lia.
  - reflexivity.
  - reflexivity.
  - simpl. lia.
  - apply (bool_decide_unpack _). vm_compute. exact I.
Defined.

Lemma length_filter_ne (l : list string) (h : string) :
  NoDup l → h ∈ l → S (length (filter (fun p => p ≠ h) l)) = length l.
Proof.
  induction 1 as [|x l Hx Hnd IH]; intros Hin.
  - by apply elem_of_nil in Hin.
  - rewrite filter_cons. destruct (decide (x ≠ h)) as [Hne|Heq]; simpl.
    + f_equal. apply IH. apply elem_of_cons in Hin as [?|?]; [congruence|done].
    + apply dec_stable in Heq. subst x. f_equal.
      clear IH Hnd Hin. induction l as [|y l IH]; [done|].
      apply not_elem_of_cons in Hx as [Hne Hx].
      rewrite filter_cons, decide_True by done. simpl. f_equal. by apply IH.
Qed.

Lemma opponents_of_host (players : list string) (h : string) :
  filter (fun p => Some p ∉ [Some h]) players = filter (fun p => p ≠ h) players.
Proof.
  apply list_filter_iff. intros p. rewrite list_elem_of_singleton. naive_solver.
Qed.

(** C3: in 1v5 mode, on a roster of 6 distinct names with no friends
    selected, a winning host gets exactly 400 and every other player 0
    (winner [Host]); otherwise each of the 5 other players gets
    [opponentScore * 1.5 / 5] and the host 0 (winner [Opponents]). *)
Theorem one_vs_five_scores players hostIdx bid opponentScore hostName :
  NoDup players →
  length players = 6%nat →
  players !! hostIdx = Some hostName →
  let r := calculateScores "1v5" players hostIdx [] bid opponentScore in
  let others := filter (fun p => p ≠ hostName) players in
  Obj.keys (scores r) ≡ₚ players
  ∧ length others = 5%nat
  ∧ (opponentScore < bid →
     winner r = "Host"
     ∧ Obj.get hostName (scores r) = Some 400%Q
     ∧ ∀ p, p ∈ others → Obj.get p (scores r) = Some 0%Q)
  ∧ (¬ opponentScore < bid →
     winner r = "Opponents"
     ∧ Obj.get hostName (scores r) = Some 0%Q
     ∧ ∀ p, p ∈ others →
         Obj.get p (scores r) = Some ((inject_Z opponentScore * 1.5) / 5)%Q).
Proof.
  intros Hnd Hlen Hhost r others.
  assert (hostName ∈ players) as Hin by (by eapply list_elem_of_lookup_2).
  assert (Obj.keys (Obj.fromEntries ((fun p => (p, 0%Q)) <$> players)) ≡ₚ players)
    as Hkeys by (by apply keys_fromEntries_const).
  assert (length others = 5%nat) as Hothers.
  { pose proof (length_filter_ne players hostName Hnd Hin) as Hl.
    fold others in Hl. lia. }
  subst r. unfold calculateScores.
  destruct (decide ("1v5" = "1v5")) as [_|?]; [|done].
  rewrite Hhost. cbn [fmap list_fmap propKey]. rewrite opponents_of_host.
  fold others.
  destruct (decide (opponentScore < bid)) as [Hw|Hw].
  - rewrite (bool_decide_eq_true_2 _ Hw). cbn [scores winner].
    split; [|split; [done|split; [|done]]].
    + rewrite keys_set_present; [done | by rewrite Hkeys].
    + intros _. split; [done|]. split; [apply get_set_eq|].
      intros p [Hne Hp]%list_elem_of_filter.
      rewrite get_set_ne by done. rewrite get_fromEntries_const.
      by rewrite decide_True.
  - rewrite (bool_decide_eq_false_2 _ Hw). cbn [scores winner stored].
    split; [|split; [done|split; [done|]]].
    + rewrite keys_fill_present; [done|].
      intros p [_ Hp]%list_elem_of_filter. by rewrite Hkeys.
    + intros _. split; [done|]. split.
      * rewrite get_fill, decide_False.
        -- rewrite get_fromEntries_const. by rewrite decide_True.
        -- intros [Hne _]%list_elem_of_filter. done.
      * intros p Hp. rewrite get_fill. by rewrite decide_True.
Qed.

Lemma one_vs_five_scores_witness :
  winner (calculateScores "1v5" defaultPlayers 0 [] 200 210) = "Opponents"
  ∧ Obj.get "Player 1" (scores (calculateScores "1v5" defaultPlayers 0 [] 200 210))
    = Some 0%Q
  ∧ Obj.get "Player 2" (scores (calculateScores "1v5" defaultPlayers 0 [] 200 210))
    = Some ((inject_Z 210 * 1.5) / 5)%Q.
Proof.
  destruct (one_vs_five_scores defaultPlayers 0 200 210 "Player 1")
    as (_ & _ & _ & Hlose).
  - apply (bool_decide_unpack _). vm_compute. exact I.
  - reflexivity.
  - reflexivity.
  - destruct Hlose as (Hw & Hhost & Hothers); [lia|].
    split; [exact Hw|]. split; [exact Hhost|].
    apply Hothers. apply (bool_decide_unpack _). vm_compute. exact I.
Defined.

(** ** The session store *)

Lemma session_eq st :
  session st = default newSession (Obj.get (selectedDate st) (gameData st)).
Proof. unfold session, getCurrent. by destruct (Obj.get _ _). Qed.

Lemma session_updateCurrent updater st :
  session (updateCurrent updater st) = updater (session st).
Proof.
  rewrite !session_eq. unfold updateCurrent, setGameData. cbn [selectedDate gameData].
  by rewrite get_set_eq.
Qed.

Lemma session_resetNewGameForm st : session (resetNewGameForm st) = session st.
Proof. by rewrite !session_eq. Qed.

Lemma session_setForm m h f b o st : session (setForm m h f b o st) = session st.
Proof. by rewrite !session_eq. Qed.

Lemma addRound_rejected today now st :
  selectedDate st ≠ today
  ∨ rejected (mode st) (host st) (friends st) (bid st) (opponentScore st) →
  addRound today now st = st.
Proof.
  unfold addRound, rejected, NO_BIDS_VALUE. intros H.
  destruct (decide (selectedDate st ≠ today)); [done|].
  destruct (decide (mode st = "Normal" ∧ _)); [done|].
  destruct (decide (bid st < 80 ∧ _)); [done|].
  destruct (decide (opponentScore st < 0 ∨ _)); [done|].
  by destruct H as [?|[?|[?|?]]].
Qed.

Lemma addRound_accepted today now st :
  selectedDate st = today →
  ¬ rejected (mode st) (host st) (friends st) (bid st) (opponentScore st) →
  selectedDate (addRound today now st) = selectedDate st
  ∧ ∃ r, session (addRound today now st)
         = Session.mk (Session.players (session st))
                      (Session.rounds (session st) ++ [r])
                      (S (Session.currentRound (session st)))
         ∧ Round.round r = Session.currentRound (session st).
Proof.
  unfold addRound, rejected, NO_BIDS_VALUE. intros Hsel Hok.
  destruct (decide (selectedDate st ≠ today)) as [?|_]; [done|].
  destruct (decide (mode st = "Normal" ∧ _)) as [?|_];
    [exfalso; apply Hok; by left|].
  destruct (decide (bid st < 80 ∧ _)) as [?|_];
    [exfalso; apply Hok; right; by left|].
  destruct (decide (opponentScore st < 0 ∨ _)) as [?|_];
    [exfalso; apply Hok; right; by right|].
  split; [done|].
  rewrite session_resetNewGameForm, session_updateCurrent.
  rewrite Nat.add_1_r. eexists. split; reflexivity.
Qed.

(** C4: on today's session an append is refused exactly when the friend
    selection without the host has more than 2 entries in Normal mode, or
    the bid is below 80 and is not 160, or the opponent score is outside
    [0,400]; a refused append leaves the whole state as it was, an
    accepted one adds one round and advances the counter. *)
Theorem addRound_validation today now st :
  selectedDate st = today →
  let friendIdxs := filter (fun i => i ≠ host st) (friends st) in
  let invalid :=
    (mode st = "Normal" ∧ (2 < length friendIdxs)%nat)
    ∨ (bid st < 80 ∧ bid st ≠ 160)
    ∨ (opponentScore st < 0 ∨ 400 < opponentScore st) in
  let st' := addRound today now st in
  (invalid → st' = st)
  ∧ (¬ invalid →
     ∃ r, Session.rounds (session st') = Session.rounds (session st) ++ [r]
          ∧ Round.round r = Session.currentRound (session st)
          ∧ Session.currentRound (session st')
            = S (Session.currentRound (session st)))
  ∧ (Session.rounds (session st') = Session.rounds (session st)
     ∧ Session.currentRound (session st') = Session.currentRound (session st)
     ↔ invalid).
Proof.
  intros Hsel friendIdxs invalid st'.
  assert (invalid → st' = st) as Hrej.
  { intros Hinv. apply addRound_rejected. by right. }
  assert (¬ invalid →
     ∃ r, Session.rounds (session st') = Session.rounds (session st) ++ [r]
          ∧ Round.round r = Session.currentRound (session st)
          ∧ Session.currentRound (session st')
            = S (Session.currentRound (session st))) as Hacc.
  { intros Hok.
    destruct (addRound_accepted today now st Hsel Hok) as (_ & r & Hs & Hr).
    exists r. fold st' in Hs. by rewrite Hs. }
  split; [done|]. split; [done|]. split.
  - intros [_ Hcr]. destruct (decide invalid) as [|Hok]; [done|].
    destruct (Hacc Hok) as (r & _ & _ & Hcr'). lia.
  - intros Hinv. by rewrite (Hrej Hinv).
Qed.

Lemma addRound_validation_witness :
  selectedDate (setForm "Normal" 0 [1; 2; 3]%nat 150 100 (initialState monday))
  = monday
  ∧ addRound monday 1730150000000
      (setForm "Normal" 0 [1; 2; 3]%nat 150 100 (initialState monday))
    = setForm "Normal" 0 [1; 2; 3]%nat 150 100 (initialState monday).
Proof.
  split; [reflexivity|].
  refine (proj1 (addRound_validation monday 1730150000000
                   (setForm "Normal" 0 [1; 2; 3]%nat 150 100
                      (initialState monday)) _) _).
  - reflexivity.
  - left. split; [reflexivity | simpl; lia].
Defined.

Lemma attempt_passes a st :
  passes (selectedDate st) a →
  selectedDate (attempt a st) = selectedDate st
  ∧ ∃ r, session (attempt a st)
         = Session.mk (Session.players (session st))
                      (Session.rounds (session st) ++ [r])
                      (S (Session.currentRound (session st)))
         ∧ Round.round r = Session.currentRound (session st).
Proof.
  intros [Hday Hok]. unfold attempt.
  destruct (addRound_accepted (a_today a) (a_now a)
              (setForm (a_mode a) (a_host a) (a_friends a) (a_bid a)
                       (a_opponentScore a) st)) as (Hsel & r & Hs & Hr);
    [done | done |].
  rewrite session_setForm in Hs, Hr. split; [done|]. by exists r.
Qed.

Lemma attempt_fails a st :
  ¬ passes (selectedDate st) a →
  attempt a st
  = setForm (a_mode a) (a_host a) (a_friends a) (a_bid a) (a_opponentScore a) st.
Proof.
  intros Hno. unfold attempt. apply addRound_rejected. cbn.
  destruct (decide (selectedDate st = a_today a)) as [Heq|Hne]; [|by left].
  right. apply dec_stable. intros Hok. apply Hno. by split.
Qed.

Lemma attempts_numbering (attempts : list Attempt) : ∀ st,
  let st' := foldl (fun st a => attempt a st) st attempts in
  let N := length (filter (passes (selectedDate st)) attempts) in
  selectedDate st' = selectedDate st
  ∧ Round.round <$> Session.rounds (session st')
    = (Round.round <$> Session.rounds (session st))
      ++ seq (Session.currentRound (session st)) N
  ∧ Session.currentRound (session st') = (Session.currentRound (session st) + N)%nat.
Proof.
  induction attempts as [|a attempts IH]; intros st; cbn [foldl].
  - cbn. by rewrite app_nil_r, Nat.add_0_r.
  - specialize (IH (attempt a st)). cbn zeta in IH.
    destruct IH as (Hsel & Hrounds & Hcr).
    rewrite filter_cons.
    destruct (decide (passes (selectedDate st) a)) as [Hp|Hp].
    + destruct (attempt_passes a st Hp) as (Hsel' & r & Hs & Hr).
      rewrite Hsel' in Hsel, Hrounds, Hcr. rewrite Hs in Hrounds, Hcr.
      cbn [Session.rounds Session.currentRound] in Hrounds, Hcr.
      split; [done|]. split.
      * rewrite Hrounds, fmap_app. cbn [fmap list_fmap length seq].
        by rewrite Hr, <- app_assoc.
      * rewrite Hcr. cbn [length]. lia.
    + rewrite (attempt_fails a st Hp) in Hsel, Hrounds, Hcr |- *.
      rewrite session_setForm in Hrounds, Hcr.
      exact (conj Hsel (conj Hrounds Hcr)).
Qed.

(** C5: whatever attempts are made on a fresh session, the stored rounds
    are numbered 1, 2, ..., N in order, where N is the number of attempts
    that passed; the counter then stands at N + 1, and an attempt that
    does not pass leaves the session map, hence the counter, as it was. *)
Theorem round_numbers_without_gaps (attempts : list Attempt) (st0 : State) :
  Session.rounds (session st0) = [] →
  Session.currentRound (session st0) = 1%nat →
  let st := foldl (fun st a => attempt a st) st0 attempts in
  let N := length (filter (passes (selectedDate st0)) attempts) in
  Round.round <$> Session.rounds (session st) = seq 1 N
  ∧ length (Session.rounds (session st)) = N
  ∧ Session.currentRound (session st) = S N
  ∧ ∀ a st1, ¬ passes (selectedDate st1) a →
      gameData (attempt a st1) = gameData st1
      ∧ Session.currentRound (session (attempt a st1))
        = Session.currentRound (session st1).
Proof.
  intros Hfresh Hone st N.
  destruct (attempts_numbering attempts st0) as (_ & Hrounds & Hcr).
  fold st N in Hrounds, Hcr. rewrite Hfresh, Hone in Hrounds.
  rewrite Hone in Hcr. cbn in Hrounds, Hcr.
  split; [done|]. split.
  { rewrite <- (length_fmap Round.round), Hrounds. apply length_seq. }
  split; [done|].
  intros a st1 Hno. rewrite (attempt_fails a st1 Hno).
  by rewrite session_setForm.
Qed.

Lemma round_numbers_without_gaps_witness :
  Round.round <$>
    Session.rounds
      (session
         (foldl (fun st a => attempt a st) (initialState "Mon Oct 28 2024")
            [mkAttempt "Mon Oct 28 2024" 1000 "Normal" 0 [1%nat] 150 100;
             mkAttempt "Mon Oct 28 2024" 2000 "Normal" 0 [] 70 100;
             mkAttempt "Mon Oct 28 2024" 3000 "1v5" 2 [] 200 210]))
  = [1; 2]%nat.
Proof.
  refine (proj1 (round_numbers_without_gaps
            [mkAttempt "Mon Oct 28 2024" 1000 "Normal" 0 [1%nat] 150 100;
             mkAttempt "Mon Oct 28 2024" 2000 "Normal" 0 [] 70 100;
             mkAttempt "Mon Oct 28 2024" 3000 "1v5" 2 [] 200 210]
            (initialState "Mon Oct 28 2024") _ _)); reflexivity.
Defined.

Lemma array_set_lookup players idx name players' :
  array_set players idx name = Some players' →
  players' !! idx = Some name
  ∧ ∀ j, j ≠ idx → players' !! j = players !! j.
Proof.
  unfold array_set. intros H. repeat case_decide; simplify_eq.
  - split; [by apply list_lookup_insert_eq|].
    intros j Hj. by apply list_lookup_insert_ne.
  - split.
    + rewrite lookup_app_r by done. by rewrite Nat.sub_diag.
    + intros j Hj. destruct (decide (j < length players)%nat) as [Hlt|Hge].
      * by rewrite lookup_app_l.
      * rewrite !lookup_ge_None_2; [done | lia |].
        rewrite length_app. simpl. lia.
Qed.

Lemma allRounds_set (d : string) (s' : Session.t) (gd : obj Session.t) :
  Session.rounds s' = Session.rounds (default newSession (Obj.get d gd)) →
  flat_map Session.rounds (Obj.values (Obj.set d s' gd))
  = flat_map Session.rounds (Obj.values gd).
Proof.
  unfold Obj.set, Obj.values.
  destruct (Obj.get d gd) as [s|] eqn:Hget; simpl.
  - induction gd as [|[d' s0] gd IH]; intros Hr; simpl in *; [done|].
    destruct (decide (d = d')) as [->|Hne]; simpl.
    + injection Hget as ->. by rewrite Hr.
    + f_equal. by apply IH.
  - intros Hr. clear Hget.
    induction gd as [|[d' s0] gd IH]; simpl.
    + by rewrite Hr.
    + destruct (Obj.precedes d d'); simpl.
      * by rewrite Hr.
      * f_equal. apply IH.
Qed.

(** C9: a rename writes the roster slot at its index and nothing else:
    the rounds of the session (with the players, host, friends and score
    keys recorded in them), their number, the counter, every other session
    and the list of all recorded rounds are what they were. *)
Theorem onRename_frame (st : State) (idx : nat) (name : string) :
  ((idx < length (Session.players (session st)))%nat →
   is_Some (onRename idx name st))
  ∧ ∀ st', onRename idx name st = Some st' →
      Session.players (session st') !! idx = Some name
      ∧ (∀ j, j ≠ idx →
           Session.players (session st') !! j = Session.players (session st) !! j)
      ∧ Session.rounds (session st') = Session.rounds (session st)
      ∧ length (Session.rounds (session st')) = length (Session.rounds (session st))
      ∧ Session.currentRound (session st') = Session.currentRound (session st)
      ∧ (∀ d, d ≠ selectedDate st →
           Obj.get d (gameData st') = Obj.get d (gameData st))
      ∧ flat_map Session.rounds (Obj.values (gameData st'))
        = flat_map Session.rounds (Obj.values (gameData st))
      ∧ selectedDate st' = selectedDate st.
Proof.
  unfold onRename. rewrite <- session_eq. split.
  - intros Hlt. unfold array_set. by rewrite decide_True.
  - intros st' Hst'.
    destruct (array_set (Session.players (session st)) idx name)
      as [players'|] eqn:Hset; simplify_eq/=.
    destruct (array_set_lookup _ _ _ _ Hset) as [Hidx Hother].
    rewrite session_updateCurrent. cbn [Session.players Session.rounds
      Session.currentRound].
    split_and!; try done.
    + intros d Hd. unfold updateCurrent, setGameData. cbn [gameData selectedDate].
      by rewrite get_set_ne.
    + unfold updateCurrent, setGameData. cbn [gameData selectedDate].
      by apply allRounds_set.
Qed.

Lemma onRename_frame_witness :
  ∃ st',
    onRename 0 "Alice"
      (addRound "Mon Oct 28 2024" 1000 (initialState "Mon Oct 28 2024"))
    = Some st'
    ∧ Session.players (session st') !! 0%nat = Some "Alice"
    ∧ Session.rounds (session st')
      = Session.rounds
          (session (addRound "Mon Oct 28 2024" 1000
                      (initialState "Mon Oct 28 2024"))).
Proof.
  destruct (onRename_frame
              (addRound "Mon Oct 28 2024" 1000 (initialState "Mon Oct 28 2024"))
              0 "Alice") as [Hsome Hframe].
  destruct Hsome as [st' Hst']; [simpl; lia|].
  exists st'. destruct (Hframe st' Hst') as (Hname & _ & Hrounds & _).
  split; [exact Hst'|]. split; [exact Hname | exact Hrounds].
Defined.

(** ** Sorting *)

Section sort_facts.
Context {A : Type} (key : A -> Z) (cmp : A -> A -> Z).
Hypothesis cmp_key : ∀ a b, cmp a b = key b - key a.

Lemma sort_insert_perm x l : sort_insert cmp x l ≡ₚ x :: l.
Proof.
  induction l as [|y l IH]; simpl; [done|].
  case_decide; [|done]. rewrite IH. apply perm_swap.
Qed.

Lemma sort_perm l : sort cmp l ≡ₚ l.
Proof.
  induction l as [|x l IH]; simpl; [done|].
  by rewrite sort_insert_perm, IH.
Qed.

Lemma elem_of_sort x l : x ∈ sort cmp l ↔ x ∈ l.
Proof. by rewrite sort_perm. Qed.

Lemma sort_insert_descending x l :
  descending key l → descending key (sort_insert cmp x l).
Proof.
  unfold descending. induction 1 as [|y l Hl IH Hy]; simpl.
  - repeat constructor.
  - case_decide as Hc; rewrite cmp_key in Hc.
    + constructor; [done|].
      rewrite sort_insert_perm. constructor; [lia | done].
    + constructor; [by constructor|].
      constructor; [lia|].
      eapply Forall_impl; [exact Hy|]. simpl. intros; lia.
Qed.

Lemma sort_descending l : descending key (sort cmp l).
Proof.
  induction l as [|x l IH]; simpl; [constructor|].
  by apply sort_insert_descending.
Qed.

End sort_facts.

(** ** Statistics *)

Lemma playerRankings_perm gameData players :
  EnhancedStats.playerRankings (ownStats gameData players)
  ≡ₚ rankingsByTotal (flat_map Session.rounds (Obj.values gameData)) players.
Proof.
  unfold ownStats, summarise. cbn [EnhancedStats.playerRankings].
  apply sort_perm.
Qed.

(** What line 173 establishes: the array is in descending order of total
    score at that point. *)
Lemma rankingsByTotal_descending allRounds players :
  descending Ranking.totalScore (rankingsByTotal allRounds players).
Proof. by apply sort_descending. Qed.

(** The quotient and the product of a rate are those of doubles:
    [(23 / 40) * 100] is 57.49999999999999, and a third of the games won
    is 33 per cent, two thirds 67. *)
Lemma rate_in_doubles :
  rate 23 40 = 57 ∧ rate 1 3 = 33 ∧ rate 2 3 = 67 ∧ rate 3 3 = 100
  ∧ rate 0 3 = 0 ∧ rate 0 0 = 0.
Proof. vm_compute. repeat split. Qed.



(** ** Counters in tables *)

Section table_facts.
Context {V : Type}.
Implicit Types (k : string) (f : V → V) (g : V → nat) (o : obj V).

Lemma get_whenPresent k k' f o :
  Obj.get k (whenPresent k' f o)
  = if decide (k = k') then f <$> Obj.get k o else Obj.get k o.
Proof.
  unfold whenPresent. destruct (Obj.get k' o) as [v|] eqn:Hget.
  - rewrite get_set. case_decide; [subst; by rewrite Hget | done].
  - case_decide; [subst; by rewrite Hget | done].
Qed.

Lemma keys_whenPresent k f o : Obj.keys (whenPresent k f o) = Obj.keys o.
Proof.
  unfold whenPresent. destruct (Obj.get k o) as [v|] eqn:Hget; [|done].
  apply keys_set_present, elem_of_keys. by rewrite Hget.
Qed.

Lemma total_set g k v v' o :
  Obj.get k o = Some v →
  (total g (Obj.set k v' o) + g v = total g o + g v')%nat.
Proof.
  unfold Obj.set. intros Hget. rewrite Hget. revert Hget.
  unfold total, Obj.values. induction o as [|[k' w] o IH]; simpl; [done|].
  destruct (decide (k = k')) as [->|Hne]; simpl.
  - intros [= ->]. lia.
  - intros Hget. specialize (IH Hget). unfold fmap in IH. lia.
Qed.

Lemma total_whenPresent g k f o (d : nat) :
  (∀ v, g (f v) = (g v + d)%nat) →
  total g (whenPresent k f o)
  = (total g o + if decide (k ∈ Obj.keys o) then d else 0)%nat.
Proof.
  intros Hg. unfold whenPresent.
  destruct (Obj.get k o) as [v|] eqn:Hget.
  - rewrite decide_True by (apply elem_of_keys; by rewrite Hget).
    pose proof (total_set g k v (f v) o Hget) as H. rewrite Hg in H. lia.
  - rewrite decide_False by (by apply not_elem_of_keys). lia.
Qed.

Lemma counter_whenPresent g k k' f o (d : nat) :
  (∀ v, g (f v) = (g v + d)%nat) →
  counter g k (whenPresent k' f o)
  = (counter g k o + if decide (k = k' ∧ k ∈ Obj.keys o) then d else 0)%nat.
Proof.
  intros Hg. unfold counter. rewrite get_whenPresent.
  destruct (decide (k = k')) as [->|Hne].
  - destruct (Obj.get k' o) as [v|] eqn:Hget; simpl.
    + rewrite decide_True; [apply Hg|].
      split; [done|]. apply elem_of_keys. by rewrite Hget.
    + rewrite decide_False; [done|].
      intros [_ Hin]. by apply not_elem_of_keys in Hget.
  - rewrite decide_False by (by intros [? _]). lia.
Qed.

(** A loop of guarded updates that do not touch a counter. *)
Lemma foldl_whenPresent_same {X : Type} g (key : X → string) (upd : X → V → V)
    (l : list X) :
  (∀ x v, g (upd x v) = g v) →
  ∀ o, let o' := foldl (fun o x => whenPresent (key x) (upd x) o) o l in
       Obj.keys o' = Obj.keys o
       ∧ total g o' = total g o
       ∧ ∀ k, counter g k o' = counter g k o.
Proof.
  intros Hg. induction l as [|x l IH]; intros o; cbn [foldl]; [done|].
  destruct (IH (whenPresent (key x) (upd x) o)) as (Hk & Ht & Hc).
  cbn zeta. rewrite Hk, Ht, keys_whenPresent.
  rewrite (total_whenPresent g _ _ _ 0) by (intros; rewrite Hg; lia).
  split; [done|]. split; [case_decide; lia|].
  intros k. rewrite Hc.
  rewrite (counter_whenPresent g _ _ _ _ 0) by (intros; rewrite Hg; lia).
  case_decide; lia.
Qed.

Lemma bump_Some k f o o' :
  bump k f o = Some o'
  ↔ (k ∈ Obj.keys o ∨ k ∈ inherited) ∧ o' = whenPresent k f o.
Proof.
  unfold bump, whenPresent. rewrite elem_of_keys.
  destruct (Obj.get k o) as [v|]; simpl.
  - split; [intros [= <-]; eauto | by intros [_ ->]].
  - case_decide.
    + split; [intros [= <-]; eauto | by intros [_ ->]].
    + split; [done|]. by intros [[[? ?]|?] _].
Qed.

Lemma total_fill_zero g (z : V) (l : list string) :
  g z = 0%nat →
  total g (foldl (fun acc p => Obj.set p z acc) [] l) = 0%nat.
Proof.
  intros Hz.
  assert (∀ o, Forall (fun v => g v = 0%nat) (Obj.values o) →
               Forall (fun v => g v = 0%nat)
                 (Obj.values (foldl (fun acc p => Obj.set p z acc) o l)))
    as Hall.
  { induction l as [|p l IH]; intros o Ho; cbn [foldl]; [done|].
    apply IH. by apply values_set. }
  unfold total. specialize (Hall [] (Forall_nil_2 _)).
  rewrite (sum_list_fmap_same 0) by done. lia.
Qed.
End table_facts.

Lemma forEachM_invariant {A S : Type} (P : S → Prop) (Q : A → Prop)
    (body : S → A → option S) (l : list A) :
  (∀ s x s', P s → body s x = Some s' → P s') →
  (∀ s x, P s → Q x → is_Some (body s x)) →
  ∀ s, P s →
    (∀ s', forEachM body l s = Some s' → P s')
    ∧ (Forall Q l → is_Some (forEachM body l s)).
Proof.
  intros Hstep Hsome. induction l as [|x l IH]; intros s Hs; cbn [forEachM].
  - split; [by intros s' [= <-] | by eauto].
  - destruct (body s x) as [s1|] eqn:Hb; simpl.
    + destruct (IH s1 (Hstep _ _ _ Hs Hb)) as [IH1 IH2].
      split; [done|]. intros [_ Hl]%Forall_cons. by apply IH2.
    + split; [done|]. intros [Hx _]%Forall_cons.
      destruct (Hsome s x Hs Hx) as [s' Hs']. congruence.
Qed.

Section counter_steps.
Context {V : Type} (g : V → nat).

Lemma sameCounter_refl (o : obj V) : sameCounter g o o.
Proof. by unfold sameCounter. Qed.

Lemma sameCounter_trans (o1 o2 o3 : obj V) :
  sameCounter g o1 o2 → sameCounter g o2 o3 → sameCounter g o1 o3.
Proof.
  intros (Hk & Ht & Hc) (Hk' & Ht' & Hc'). unfold sameCounter.
  rewrite Hk', Hk, Ht', Ht. split_and!; try done.
  intros k. by rewrite Hc', Hc.
Qed.

Lemma whenPresent_same k (f : V → V) (o : obj V) :
  (∀ v, g (f v) = g v) → sameCounter g o (whenPresent k f o).
Proof.
  intros Hg. unfold sameCounter. rewrite keys_whenPresent.
  rewrite (total_whenPresent g _ _ _ 0) by (intros; rewrite Hg; lia).
  split; [done|]. split; [case_decide; lia|].
  intros k'. rewrite (counter_whenPresent g _ _ _ _ 0)
    by (intros; rewrite Hg; lia).
  case_decide; lia.
Qed.

Lemma bump_same k (f : V → V) (o o' : obj V) :
  (∀ v, g (f v) = g v) → bump k f o = Some o' → sameCounter g o o'.
Proof. intros Hg [_ ->]%bump_Some. by apply whenPresent_same. Qed.

Lemma bump_inc k (f : V → V) (o o' : obj V) :
  (∀ v, g (f v) = S (g v)) →
  bump k f o = Some o' →
  Obj.keys o' = Obj.keys o
  ∧ total g o' = (total g o + if decide (k ∈ Obj.keys o) then 1 else 0)%nat
  ∧ ∀ k', counter g k' o'
          = (counter g k' o
             + if decide (k' = k ∧ k' ∈ Obj.keys o) then 1 else 0)%nat.
Proof.
  intros Hg [_ ->]%bump_Some. rewrite keys_whenPresent.
  rewrite (total_whenPresent g _ _ _ 1) by (intros; rewrite Hg; lia).
  split; [done|]. split; [done|].
  intros k'. by rewrite (counter_whenPresent g _ _ _ _ 1)
    by (intros; rewrite Hg; lia).
Qed.

Lemma bump_is_Some k (f : V → V) (o : obj V) :
  k ∈ Obj.keys o ∨ k ∈ inherited → is_Some (bump k f o).
Proof. intros Hin. exists (whenPresent k f o). by apply bump_Some. Qed.

Lemma bump_readable k (f : V → V) (o o' : obj V) :
  bump k f o = Some o' → k ∈ Obj.keys o ∨ k ∈ inherited.
Proof. by intros [? _]%bump_Some. Qed.
End counter_steps.

(** One round of [ownStats]: the hosted counter of the host goes up
    by one when the host is in the table, and nothing else changes in the
    hosted counters. *)
Lemma ownRound_hosted (ps : obj Stats.t) (r : Round.t) :
  Obj.keys (ownRound ps r) = Obj.keys ps
  ∧ total Stats.hosted (ownRound ps r)
    = (total Stats.hosted ps
       + if decide (propKey (Round.host r) ∈ Obj.keys ps) then 1 else 0)%nat
  ∧ ∀ k, counter Stats.hosted k (ownRound ps r)
         = (counter Stats.hosted k ps
            + if decide (k = propKey (Round.host r) ∧ k ∈ Obj.keys ps)
              then 1 else 0)%nat.
Proof.
  unfold ownRound.
  set (ps1 := foldl _ ps (Round.players r)).
  set (ps2 := foldl _ ps1 (Obj.entries (Round.scores r))).
  set (ps3 := whenPresent _ _ ps2).
  destruct (foldl_whenPresent_same Stats.hosted (fun p : string => p)
              (fun _ => Stats.played) (Round.players r) (fun _ _ => eq_refl) ps)
    as (Hk1 & Ht1 & Hc1). fold ps1 in Hk1, Ht1, Hc1.
  destruct (foldl_whenPresent_same Stats.hosted (fun e : string * Q => e.1)
              (fun e => Stats.scored e.2) (Obj.entries (Round.scores r))
              (fun _ _ => eq_refl) ps1)
    as (Hk2 & Ht2 & Hc2). fold ps2 in Hk2, Ht2, Hc2.
  destruct (foldl_whenPresent_same Stats.hosted propKey
              (fun _ => Stats.asFriend (hostTeamWon r)) (Round.friends r)
              (fun _ _ => eq_refl) ps3)
    as (Hk3 & Ht3 & Hc3).
  cbn zeta in Hk3, Ht3, Hc3. rewrite Hk3, Ht3.
  assert (∀ v, Stats.hosted (Stats.asHost (hostTeamWon r) v)
               = (Stats.hosted v + 1)%nat) as Hinc by done.
  unfold ps3. rewrite keys_whenPresent, (total_whenPresent _ _ _ _ 1 Hinc).
  rewrite Hk2, Hk1, Ht2, Ht1. split; [done|]. split; [done|].
  intros k. rewrite Hc3. fold ps3. unfold ps3.
  rewrite (counter_whenPresent _ _ _ _ _ 1 Hinc).
  by rewrite Hk2, Hk1, Hc2, Hc1.
Qed.

Lemma foldl_ownRound_hosted (rounds : list Round.t) : ∀ ps,
  Obj.keys (foldl ownRound ps rounds) = Obj.keys ps
  ∧ total Stats.hosted (foldl ownRound ps rounds)
    = (total Stats.hosted ps
       + length (filter (hostKnown (Obj.keys ps)) rounds))%nat.
Proof.
  induction rounds as [|r rounds IH]; intros ps; cbn [foldl].
  - split; [done|]. rewrite filter_nil. simpl. lia.
  - destruct (IH (ownRound ps r)) as [Hk Ht].
    destruct (ownRound_hosted ps r) as (Hk' & Ht' & _).
    rewrite Hk, Ht, Hk', Ht'. split; [done|].
    rewrite filter_cons. unfold hostKnown at 2.
    case_decide; simpl; lia.
Qed.

Lemma elem_of_keys_fill {V : Type} (z : V) (players : list string) k :
  k ∈ Obj.keys (foldl (fun acc p => Obj.set p z acc) [] players) ↔ k ∈ players.
Proof.
  rewrite elem_of_keys, get_fill. case_decide; simpl.
  - split; eauto.
  - split; [by intros [? ?] | done].
Qed.

Lemma ownTable_hosted rounds players :
  total Stats.hosted (ownTable rounds players)
  = length (filter (hostKnown players) rounds).
Proof.
  unfold ownTable.
  destruct (foldl_ownRound_hosted rounds
              (foldl (fun acc p => Obj.set p Stats.zero acc) [] players))
    as [_ Ht].
  rewrite Ht, total_fill_zero by done. simpl. f_equal.
  apply list_filter_iff. intros r. unfold hostKnown. apply elem_of_keys_fill.
Qed.

Lemma playerRankings_hosted gameData players :
  sum_list (Ranking.hosted <$>
              EnhancedStats.playerRankings (ownStats gameData players))
  = length (filter (hostKnown players)
                   (flat_map Session.rounds (Obj.values gameData))).
Proof.
  rewrite playerRankings_perm. unfold rankingsByTotal.
  rewrite sort_perm. rewrite <- list_fmap_compose.
  rewrite <- ownTable_hosted. unfold total, Obj.values, Obj.entries.
  rewrite <- list_fmap_compose. done.
Qed.

Lemma forEachM_Some_Forall {A S : Type} (P : S → Prop) (Q : A → Prop)
    (body : S → A → option S) (l : list A) :
  (∀ s x s', P s → body s x = Some s' → P s' ∧ Q x) →
  ∀ s s', P s → forEachM body l s = Some s' → P s' ∧ Forall Q l.
Proof.
  intros Hstep. induction l as [|x l IH]; intros s s' Hs; cbn [forEachM].
  - intros [= <-]. by split.
  - destruct (body s x) as [s1|] eqn:Hb; simpl; [|done].
    destruct (Hstep _ _ _ Hs Hb) as [Hs1 Hx]. intros Hl.
    destruct (IH _ _ Hs1 Hl) as [Hs' Hall]. split; [done | by constructor].
Qed.

Lemma played_loop (rs : obj Role.t) (l : list string) :
  (∀ rs', forEachM (fun rs p => bump p Role.incPlayed rs) l rs = Some rs' →
          sameCounter Role.hosted rs rs'
          ∧ Forall (fun p => p ∈ Obj.keys rs ∨ p ∈ inherited) l)
  ∧ (Forall (fun p => p ∈ Obj.keys rs ∨ p ∈ inherited) l →
     is_Some (forEachM (fun rs p => bump p Role.incPlayed rs) l rs)).
Proof.
  split.
  - intros rs'. apply (forEachM_Some_Forall (sameCounter Role.hosted rs));
      [|apply sameCounter_refl].
    intros s p s' Hs Hb. split.
    + eapply sameCounter_trans; [exact Hs|]. by eapply bump_same; [|exact Hb].
    + destruct Hs as (Hk & _). rewrite <- Hk. by eapply bump_readable.
  - apply (forEachM_invariant (sameCounter Role.hosted rs)
             (fun p => p ∈ Obj.keys rs ∨ p ∈ inherited)).
    + intros s p s' Hs Hb. eapply sameCounter_trans; [exact Hs|].
      by eapply bump_same; [|exact Hb].
    + intros s p (Hk & _) Hp. apply bump_is_Some. by rewrite Hk.
    + apply sameCounter_refl.
Qed.

Lemma friends_loop (won : bool) (rs : obj Role.t) (l : list (option string)) :
  let body := fun (rs : obj Role.t) (f : option string) =>
    rs ← bump (propKey f) Role.incFriendGames rs;
    if won then bump (propKey f) Role.incFriendWins rs else Some rs in
  (∀ rs', forEachM body l rs = Some rs' →
          sameCounter Role.hosted rs rs'
          ∧ Forall (fun f => propKey f ∈ Obj.keys rs ∨ propKey f ∈ inherited) l)
  ∧ (Forall (fun f => propKey f ∈ Obj.keys rs ∨ propKey f ∈ inherited) l →
     is_Some (forEachM body l rs)).
Proof.
  intros body.
  assert (∀ s f s', sameCounter Role.hosted rs s → body s f = Some s' →
            sameCounter Role.hosted rs s'
            ∧ (propKey f ∈ Obj.keys rs ∨ propKey f ∈ inherited)) as Hstep.
  { intros s f s' Hs Hb. unfold body in Hb.
    destruct (bump (propKey f) Role.incFriendGames s) as [s1|] eqn:H1;
      simpl in Hb; [|done].
    pose proof (bump_readable _ _ _ _ H1) as Hr.
    apply (bump_same Role.hosted) in H1; [|done].
    split; [|destruct Hs as (Hk & _); by rewrite <- Hk].
    eapply sameCounter_trans; [exact Hs|].
    eapply sameCounter_trans; [exact H1|].
    destruct won; [by eapply bump_same; [|exact Hb]|].
    injection Hb as <-. apply sameCounter_refl. }
  split.
  - intros rs'. apply (forEachM_Some_Forall (sameCounter Role.hosted rs));
      [exact Hstep | apply sameCounter_refl].
  - apply (forEachM_invariant (sameCounter Role.hosted rs)
             (fun f => propKey f ∈ Obj.keys rs ∨ propKey f ∈ inherited)).
    + intros s f s' Hs Hb. by eapply Hstep.
    + intros s f (Hk & _) Hf. unfold body.
      destruct (bump_is_Some (propKey f) Role.incFriendGames s) as [s1 H1];
        [by rewrite Hk|].
      rewrite H1. simpl. destruct won; [|by eauto].
      apply bump_is_Some.
      apply (bump_same Role.hosted) in H1 as (Hk1 & _); [|done].
      by rewrite Hk1, Hk.
    + apply sameCounter_refl.
Qed.

(** One round of [roleStats], when it completes: every name it read is a
    key of the table or an inherited name, and the hosted counter of the
    host goes up by one when the host is a key of the table; no other
    hosted counter changes. *)
Lemma roleRound_hosted (rs rs' : obj Role.t) (r : Round.t) :
  roleRound rs r = Some rs' →
  Obj.keys rs' = Obj.keys rs
  ∧ total Role.hosted rs'
    = (total Role.hosted rs
       + if decide (propKey (Round.host r) ∈ Obj.keys rs) then 1 else 0)%nat
  ∧ (∀ k, counter Role.hosted k rs'
          = (counter Role.hosted k rs
             + if decide (k = propKey (Round.host r) ∧ k ∈ Obj.keys rs)
               then 1 else 0)%nat)
  ∧ namesReadable (Obj.keys rs) r.
Proof.
  unfold roleRound. intros H.
  destruct (forEachM _ (Round.players r) rs) as [rs1|] eqn:H1;
    simpl in H; [|done].
  apply (proj1 (played_loop rs (Round.players r))) in H1
    as ((Hk1 & Ht1 & Hc1) & Hr1).
  destruct (bump (propKey (Round.host r)) Role.incHosted rs1) as [rs2|] eqn:H2;
    simpl in H; [|done].
  pose proof (bump_readable _ _ _ _ H2) as Hr2.
  apply (bump_inc Role.hosted) in H2 as (Hk2 & Ht2 & Hc2);
    [|intros; simpl; lia].
  assert (∃ rs3, sameCounter Role.hosted rs2 rs3
                 ∧ forEachM
                     (fun (rs : obj Role.t) (f : option string) =>
                        rs ← bump (propKey f) Role.incFriendGames rs;
                        if hostTeamWon r
                        then bump (propKey f) Role.incFriendWins rs
                        else Some rs) (Round.friends r) rs3 = Some rs')
    as (rs3 & (Hk3 & Ht3 & Hc3) & H4).
  { destruct (hostTeamWon r).
    - destruct (bump (propKey (Round.host r)) Role.incHostWins rs2)
        as [rs3|] eqn:H3; simpl in H; [|done].
      exists rs3. split; [|done]. by eapply bump_same; [|exact H3].
    - exists rs2. split; [apply sameCounter_refl | done]. }
  apply (proj1 (friends_loop (hostTeamWon r) rs3 (Round.friends r)))
    in H4 as ((Hk4 & Ht4 & Hc4) & Hr4).
  rewrite Hk1 in Ht2, Hc2, Hr2. rewrite Hk3, Hk2, Hk1 in Hr4.
  rewrite Hk4, Hk3, Hk2, Hk1, Ht4, Ht3, Ht2, Ht1.
  split; [done|]. split; [done|]. split; [|done].
  intros k. by rewrite Hc4, Hc3, Hc2, Hc1.
Qed.

Lemma roleRound_is_Some (rs : obj Role.t) (r : Round.t) :
  namesReadable (Obj.keys rs) r → is_Some (roleRound rs r).
Proof.
  intros (Hplayers & Hhost & Hfriends). unfold roleRound.
  destruct (proj2 (played_loop rs (Round.players r)) Hplayers) as [rs1 H1].
  rewrite H1. simpl.
  apply (proj1 (played_loop rs (Round.players r))) in H1 as [(Hk1 & _) _].
  destruct (bump_is_Some (propKey (Round.host r)) Role.incHosted rs1)
    as [rs2 H2]; [by rewrite Hk1|].
  rewrite H2. simpl.
  apply (bump_inc Role.hosted) in H2 as (Hk2 & _); [|intros; simpl; lia].
  assert (∃ rs3, (if hostTeamWon r
                  then bump (propKey (Round.host r)) Role.incHostWins rs2
                  else Some rs2) = Some rs3
                 ∧ Obj.keys rs3 = Obj.keys rs) as (rs3 & H3 & Hk3).
  { destruct (hostTeamWon r).
    - destruct (bump_is_Some (propKey (Round.host r)) Role.incHostWins rs2)
        as [rs3 H3]; [by rewrite Hk2, Hk1|].
      exists rs3. split; [done|].
      apply (bump_same Role.hosted) in H3 as (Hk3 & _); [|done].
      by rewrite Hk3, Hk2, Hk1.
    - exists rs2. split; [done|]. by rewrite Hk2, Hk1. }
  rewrite H3. simpl.
  apply (proj2 (friends_loop (hostTeamWon r) rs3 (Round.friends r))).
  by rewrite Hk3.
Qed.

Lemma roleRounds_hosted (rounds : list Round.t) : ∀ rs,
  (∀ rs', forEachM roleRound rounds rs = Some rs' →
          Obj.keys rs' = Obj.keys rs
          ∧ total Role.hosted rs'
            = (total Role.hosted rs
               + length (filter (hostKnown (Obj.keys rs)) rounds))%nat
          ∧ Forall (namesReadable (Obj.keys rs)) rounds)
  ∧ (Forall (namesReadable (Obj.keys rs)) rounds →
     is_Some (forEachM roleRound rounds rs)).
Proof.
  induction rounds as [|r rounds IH]; intros rs; cbn [forEachM].
  - split; [|by eauto]. intros rs' [= <-]. rewrite filter_nil. simpl.
    split; [done|]. split; [lia | constructor].
  - destruct (roleRound rs r) as [rs1|] eqn:H1; simpl.
    + destruct (roleRound_hosted _ _ _ H1) as (Hk1 & Ht1 & _ & Hr1).
      destruct (IH rs1) as [IH1 IH2]. rewrite Hk1 in IH1, IH2. split.
      * intros rs' H'. destruct (IH1 rs' H') as (Hk & Ht & Hr).
        split; [done|]. split; [|by constructor].
        rewrite Ht, Ht1, filter_cons. unfold hostKnown at 2.
        case_decide; simpl; lia.
      * intros [_ Hl]%Forall_cons. by apply IH2.
    + split; [done|]. intros [Hr _]%Forall_cons.
      destruct (roleRound_is_Some rs r Hr) as [? ?]. congruence.
Qed.

(** ** The table and its own entries *)

Lemma own_fill {V : Type} (z : V) (players : list string) : ∀ t : Table V,
  own (foldl (fun acc p => assign p z acc) t players)
  = foldl (fun acc p => Obj.set p z acc) (own t)
          (filter (fun p => p ≠ "__proto__") players).
Proof.
  induction players as [|p players IH]; intros t; cbn [foldl]; [done|].
  rewrite IH, filter_cons. unfold assign.
  destruct (decide (p = "__proto__")) as [->|Hp].
  - by rewrite decide_False by (by intros ?).
  - by rewrite decide_True.
Qed.

Lemma proto_fill {V : Type} (z : V) (players : list string) : ∀ t : Table V,
  "__proto__" ∉ players →
  proto (foldl (fun acc p => assign p z acc) t players) = proto t.
Proof.
  induction players as [|p players IH]; intros t Hnot; cbn [foldl]; [done|].
  apply not_elem_of_cons in Hnot as [Hp Hnot].
  rewrite IH by done. unfold assign. by rewrite decide_False.
Qed.

Lemma filter_ordinary (players : list string) :
  "__proto__" ∉ players → filter (fun p => p ≠ "__proto__") players = players.
Proof.
  induction players as [|p players IH]; [done|].
  intros [Hp Hnot]%not_elem_of_cons.
  rewrite filter_cons, decide_True by done. by rewrite IH.
Qed.

Lemma guarded_own k f (t t' : Table Stats.t) :
  guarded k f t = Some t' → own t' = whenPresent k f (own t).
Proof.
  unfold guarded, whenPresent.
  destruct (Obj.get k (own t)) as [v|]; [by intros [= <-]|].
  destruct (proto t) as [s|]; [|by intros [= <-]].
  case_decide; [by intros [= <-]|].
  destruct (Stats.field k s) as [x|]; [|by intros [= <-]].
  destruct (truthy x); [done | by intros [= <-]].
Qed.

Lemma guarded_plain k f (t : Table Stats.t) :
  proto t = None →
  guarded k f t = Some (mkTable (whenPresent k f (own t)) None).
Proof.
  unfold guarded, whenPresent. intros Hp. rewrite Hp.
  destruct (Obj.get k (own t)); [done|]. destruct t. by simplify_eq/=.
Qed.

Lemma forEachM_guarded_own {X : Type} (key : X → string)
    (upd : X → Stats.t → Stats.t) (l : list X) : ∀ t t' : Table Stats.t,
  forEachM (fun ps x => guarded (key x) (upd x) ps) l t = Some t' →
  own t' = foldl (fun o x => whenPresent (key x) (upd x) o) (own t) l.
Proof.
  induction l as [|x l IH]; intros t t'; cbn [forEachM foldl].
  - by intros [= <-].
  - destruct (guarded (key x) (upd x) t) as [t1|] eqn:H1; simpl; [|done].
    intros Hl. rewrite (IH _ _ Hl). by rewrite (guarded_own _ _ _ _ H1).
Qed.

Lemma forEachM_guarded_plain {X : Type} (key : X → string)
    (upd : X → Stats.t → Stats.t) (l : list X) : ∀ o : obj Stats.t,
  forEachM (fun ps x => guarded (key x) (upd x) ps) l (mkTable o None)
  = Some (mkTable (foldl (fun o x => whenPresent (key x) (upd x) o) o l) None).
Proof.
  induction l as [|x l IH]; intros o; cbn [forEachM foldl]; [done|].
  rewrite guarded_plain by done. simpl. apply IH.
Qed.

Lemma countRound_own (t t' : Table Stats.t) (r : Round.t) :
  countRound t r = Some t' → own t' = ownRound (own t) r.
Proof.
  unfold countRound, ownRound. intros H.
  destruct (forEachM _ (Round.players r) t) as [t1|] eqn:H1;
    simpl in H; [|done].
  destruct (forEachM _ (Obj.entries (Round.scores r)) t1) as [t2|] eqn:H2;
    simpl in H; [|done].
  destruct (guarded (propKey (Round.host r)) _ t2) as [t3|] eqn:H3;
    simpl in H; [|done].
  apply (forEachM_guarded_own propKey
           (fun _ => Stats.asFriend (hostTeamWon r))) in H.
  apply guarded_own in H3.
  apply (forEachM_guarded_own (fun e : string * Q => e.1)
           (fun e => Stats.scored e.2)) in H2.
  apply (forEachM_guarded_own (fun p : string => p)
           (fun _ => Stats.played)) in H1.
  by rewrite H, H3, H2, H1.
Qed.

Lemma countRound_plain (o : obj Stats.t) (r : Round.t) :
  countRound (mkTable o None) r = Some (mkTable (ownRound o r) None).
Proof.
  unfold countRound, ownRound.
  rewrite (forEachM_guarded_plain (fun p : string => p)
             (fun _ => Stats.played)). simpl.
  rewrite (forEachM_guarded_plain (fun e : string * Q => e.1)
             (fun e => Stats.scored e.2)). simpl.
  rewrite guarded_plain by done. simpl.
  by rewrite (forEachM_guarded_plain propKey
                (fun _ => Stats.asFriend (hostTeamWon r))).
Qed.

Lemma forEachM_countRound_own (rounds : list Round.t) :
  ∀ t t' : Table Stats.t,
  forEachM countRound rounds t = Some t' →
  own t' = foldl ownRound (own t) rounds.
Proof.
  induction rounds as [|r rounds IH]; intros t t'; cbn [forEachM foldl].
  - by intros [= <-].
  - destruct (countRound t r) as [t1|] eqn:H1; simpl; [|done].
    intros Hl. rewrite (IH _ _ Hl). by rewrite (countRound_own _ _ _ H1).
Qed.

Lemma forEachM_countRound_plain (rounds : list Round.t) : ∀ o : obj Stats.t,
  forEachM countRound rounds (mkTable o None)
  = Some (mkTable (foldl ownRound o rounds) None).
Proof.
  induction rounds as [|r rounds IH]; intros o; cbn [forEachM foldl]; [done|].
  rewrite countRound_plain. simpl. apply IH.
Qed.

(** When [playerStats] returns, its own entries are those of the roster
    without the name [__proto__]; it returns for every roster without that
    name. *)
Lemma playerStats_own rounds players table :
  playerStats rounds players = Some table →
  own table = ownTable rounds (filter (fun p => p ≠ "__proto__") players).
Proof.
  unfold playerStats, ownTable. intros H.
  apply forEachM_countRound_own in H. by rewrite H, own_fill.
Qed.

Lemma playerStats_plain rounds players :
  "__proto__" ∉ players →
  playerStats rounds players = Some (mkTable (ownTable rounds players) None).
Proof.
  intros Hnot. unfold playerStats, ownTable.
  pose proof (own_fill Stats.zero players (mkTable [] None)) as Hown.
  pose proof (proto_fill Stats.zero players (mkTable [] None) Hnot) as Hproto.
  destruct (foldl (fun acc p => assign p Stats.zero acc) (mkTable [] None) players)
    as [o pr]. cbn [own proto] in Hown, Hproto. subst pr.
  rewrite forEachM_countRound_plain, Hown. by rewrite filter_ordinary.
Qed.

Lemma enhancedStats_own gameData players stats :
  enhancedStats gameData players = Some stats →
  stats = ownStats gameData (filter (fun p => p ≠ "__proto__") players).
Proof.
  unfold enhancedStats, ownStats.
  destruct (playerStats _ players) as [table|] eqn:H; simpl; [|done].
  intros [= <-]. by rewrite (playerStats_own _ _ _ H).
Qed.

Lemma enhancedStats_plain gameData players :
  "__proto__" ∉ players →
  enhancedStats gameData players = Some (ownStats gameData players).
Proof.
  intros Hnot. unfold enhancedStats, ownStats.
  by rewrite playerStats_plain.
Qed.

Lemma roleStats_keys (players : list string) k :
  k ∈ Obj.keys (own (foldl (fun acc p => assign p Role.zero acc)
                           (mkTable [] None) players))
  ↔ k ∈ players ∧ k ≠ "__proto__".
Proof.
  rewrite own_fill. cbn [own]. rewrite elem_of_keys_fill, list_elem_of_filter.
  tauto.
Qed.

(** ** What the interface maintains *)

Lemma session_roster st :
  rostersOk st → length (Session.players (session st)) = 6%nat.
Proof.
  intros Hok. rewrite session_eq.
  destruct (Obj.get (selectedDate st) (gameData st)) as [s|] eqn:Hget; simpl.
  - by eapply Hok.
  - reflexivity.
Qed.

Lemma rostersOk_set d s st :
  length (Session.players s) = 6%nat →
  rostersOk st →
  rostersOk (setGameData (fun prev => Obj.set d s prev) st).
Proof.
  intros Hs Hok d' s'. unfold setGameData. cbn [gameData].
  rewrite get_set. case_decide; [by intros [= <-] | apply Hok].
Qed.

Lemma rostersOk_updateCurrent updater st :
  (∀ s, length (Session.players s) = 6%nat →
        length (Session.players (updater s)) = 6%nat) →
  rostersOk st → rostersOk (updateCurrent updater st).
Proof.
  intros Hupd Hok. unfold updateCurrent. apply rostersOk_set; [|done].
  apply Hupd. rewrite <- session_eq. by apply session_roster.
Qed.

Lemma getCurrent_ok st :
  formOk st → rostersOk st →
  formOk (getCurrent st).2 ∧ rostersOk (getCurrent st).2.
Proof.
  intros Hform Hok. unfold getCurrent.
  destruct (Obj.get (selectedDate st) (gameData st)); simpl; [done|].
  split; [done|]. by apply rostersOk_set.
Qed.

Lemma addRound_cases today now st :
  addRound today now st = st
  ∨ ∃ updater,
      (∀ s, Session.players (updater s) = Session.players s)
      ∧ addRound today now st = resetNewGameForm (updateCurrent updater st).
Proof.
  unfold addRound.
  destruct (decide (selectedDate st ≠ today)); [by left|].
  destruct (decide (mode st = "Normal" ∧ _)); [by left|].
  destruct (decide (bid st < 80 ∧ _)); [by left|].
  destruct (decide (opponentScore st < 0 ∨ _)); [by left|].
  right. eexists. split; [|reflexivity]. done.
Qed.

Lemma toggleFriend_ok i st :
  i ≠ host st → friendsAllowed st ≠ 0%nat →
  formOk st → formOk (toggleFriend i st).
Proof.
  intros Hi Hallowed (Hmode & H1v5 & Hlen & Hhost & Hrow).
  assert (mode st = "Normal" ∧ friendsAllowed st = 2%nat) as [Hnormal Htwo].
  { unfold friendsAllowed in *. by case_decide. }
  unfold toggleFriend.
  destruct (decide (i = host st)); [done|].
  destruct (decide (friendsAllowed st = 0%nat)); [done|].
  rewrite Htwo. unfold formOk. cbn [mode friends host].
  set (next := if decide (i ∈ friends st) then _ else _).
  assert (host st ∉ next) as Hnext.
  { unfold next. case_decide.
    - intros [_ ?]%list_elem_of_filter. done.
    - intros [?|?%list_elem_of_singleton]%elem_of_app; done. }
  split; [done|]. split; [congruence|].
  case_decide.
  - split; [rewrite length_take; lia|]. split; [|done].
    intros Hin. apply Hnext. by eapply subseteq_take.
  - split; [lia|]. done.
Qed.

Ltac solve_formOk :=
  unfold formOk; cbn; split_and!;
  first [done | lia | apply not_elem_of_nil | by left | by right | tauto].

Lemma handle_ok today e st st' :
  formOk st → rostersOk st → handle today e st = Some st' →
  formOk st' ∧ rostersOk st'.
Proof.
  intros Hform0 Hok0. unfold handle.
  destruct (getCurrent_ok st Hform0 Hok0) as [Hform Hok].
  pose proof (session_roster st Hok0) as Hsix. unfold session in Hsix.
  destruct (getCurrent st) as [sess st1]. cbn [fst snd] in *.
  destruct Hform as (Hmode & H1v5 & Hlen & Hhost & Hrow).
  destruct e; intros Hst'; repeat case_decide; simplify_eq.
  - (* Rename *)
    unfold onRename, array_set in Hst'.
    rewrite <- session_eq in Hst'.
    pose proof (session_roster st1 Hok) as Hsix1.
    rewrite decide_True in Hst' by lia. simplify_eq/=.
    split; [done|]. apply rostersOk_updateCurrent; [|done].
    intros s _. cbn. by rewrite length_insert.
  - (* SelectMode 1v5 *) split; [solve_formOk | done].
  - (* SelectMode Normal *) split; [solve_formOk | done].
  - (* SelectHost *)
    split; [|done]. unfold formOk. cbn. split_and!; try done.
    + intros Hm. by rewrite (H1v5 Hm).
    + etrans; [apply length_filter | done].
    + intros [? _]%list_elem_of_filter. done.
    + lia.
  - (* ToggleFriend *)
    split; [|by unfold toggleFriend; repeat case_decide].
    match goal with H : _ ∧ _ ∧ _ |- _ => destruct H as (_ & Hi & Hall) end.
    by apply toggleFriend_ok.
  - (* BidMinus *) done.
  - (* BidPlus *) done.
  - (* BidNoBids *) done.
  - (* BidReset *) done.
  - (* TypeOpponentScore *) done.
  - (* AddRound *)
    destruct (addRound_cases (selectedDate st1) now st1)
      as [->|(updater & Hupd & ->)]; [done|].
    split; [solve_formOk|].
    + unfold resetNewGameForm, rostersOk. cbn [gameData].
      apply (rostersOk_updateCurrent updater st1); [|done].
      intros s. by rewrite Hupd.
  - (* ResetForm *) split; [solve_formOk | done].
  - (* SelectDate *) done.
  - (* JumpToToday *) done.
Qed.

Lemma run_ok (es : list (string * Event)) : ∀ st st',
  formOk st → rostersOk st → run es st = Some st' →
  formOk st' ∧ rostersOk st'.
Proof.
  induction es as [|[today e] es IH]; intros st st' Hform Hok; cbn [run].
  - by intros [= <-].
  - destruct (handle today e st) as [st1|] eqn:Hh; simpl; [|done].
    destruct (handle_ok _ _ _ _ Hform Hok Hh). by apply IH.
Qed.

Lemma initialState_ok today :
  formOk (initialState today) ∧ rostersOk (initialState today).
Proof.
  split; [solve_formOk|].
  - intros d s. unfold initialState. cbn [gameData].
    rewrite get_set. case_decide; [by intros [= <-] | done].
Qed.

(** In every state the interface can reach, the form holds one of the two
    modes, no friend in 1v5 mode, at most two friends, none of them the
    host, and every roster has six names. *)
Lemma reachable_ok today es st :
  run es (initialState today) = Some st → formOk st ∧ rostersOk st.
Proof.
  destruct (initialState_ok today) as [Hform Hok]. by apply run_ok.
Qed.

(** * Further properties of the code *)

(** ** Rounding *)

Lemma Math_round_three_quarters (d : Z) :
  Math_round (inject_Z d * 0.75) = (3 * d + 2) / 4.
Proof.
  unfold Math_round.
  rewrite (Qfloor_comp _ ((3 * d + 2) # 4)).
  - reflexivity.
  - unfold Qeq. simpl. lia.
Qed.

Lemma Math_round_half (d : Z) : Math_round (inject_Z d * 0.5) = (d + 1) / 2.
Proof.
  unfold Math_round.
  rewrite (Qfloor_comp _ ((d + 1) # 2)).
  - reflexivity.
  - unfold Qeq. simpl. lia.
Qed.

Lemma Math_round_halved (x : Z) : Math_round (inject_Z x / 2) = (x + 1) / 2.
Proof.
  unfold Math_round.
  rewrite (Qfloor_comp _ ((x + 1) # 2)).
  - reflexivity.
  - unfold Qeq. simpl. lia.
Qed.

(** ** Every entry of [scores] *)

Lemma values_fill {V : Type} (P : V → Prop) (v : V) (l : list string) :
  P v → ∀ o : obj V, Forall P (Obj.values o) →
  Forall P (Obj.values (foldl (fun s p => Obj.set p v s) o l)).
Proof.
  intros Hv. induction l as [|p l IH]; intros o Ho; cbn [foldl]; [done|].
  apply IH. by apply values_set.
Qed.

Lemma values_fromEntries_const {V : Type} (P : V → Prop) (v : V)
    (l : list string) :
  P v → Forall P (Obj.values (Obj.fromEntries ((fun p => (p, v)) <$> l))).
Proof.
  intros Hv. rewrite fromEntries_const. apply values_fill; [done|].
  constructor.
Qed.

Lemma inject_Z_nonneg (z : Z) : 0 <= z → (0 <= inject_Z z)%Q.
Proof. intros Hz. change 0%Q with (inject_Z 0). by rewrite <- Zle_Qle. Qed.

(** X1: with an opponent score between 0 and 400 no entry of [scores] is
    negative, whatever the mode, the roster, the indices and the bid. *)
Theorem scores_nonnegative mode players hostIdx friendIdxs bid opponentScore :
  0 <= opponentScore <= 400 →
  Forall (fun q => (0 <= q)%Q)
    (Obj.values
       (scores (calculateScores mode players hostIdx friendIdxs bid opponentScore))).
Proof.
  intros Hos. unfold calculateScores.
  set (base := Obj.fromEntries _).
  assert (Forall (fun q => (0 <= q)%Q) (Obj.values base)) as Hbase
    by (by apply values_fromEntries_const).
  assert (0 <= inject_Z opponentScore * 1.5)%Q as Hpool.
  { apply Qmult_le_0_compat; [by apply inject_Z_nonneg; lia | done]. }
  destruct (decide (mode = "1v5")); destruct (bool_decide (opponentScore < bid));
    cbn [scores].
  - by apply values_set.
  - apply values_fill; [|done]. cbn [stored].
    apply Qle_shift_div_l; [done|]. by rewrite Qmult_0_l.
  - set (d := 400 - opponentScore).
    rewrite Math_round_three_quarters, Math_round_half, Math_round_halved.
    destruct ((fun i => players !! i) <$> friendIdxs) as [|f0 [|f1 fs]].
    + apply values_set; [|done]. apply inject_Z_nonneg. lia.
    + rewrite get_set_eq. cbn [default from_option id]. unfold id.
      apply values_set.
      * apply (proj1 (Qle_minus_iff _ _)). rewrite <- Zle_Qle.
        unfold d. Z.to_euclidean_division_equations. lia.
      * apply values_set; [|done]. apply inject_Z_nonneg.
        unfold d. Z.to_euclidean_division_equations. lia.
    + assert (0 <= d) as Hd by lia. clearbody d.
      repeat apply values_set; try done; apply inject_Z_nonneg.
      * Z.to_euclidean_division_equations. lia.
      * Z.to_euclidean_division_equations. lia.
      * Z.to_euclidean_division_equations. lia.
  - apply values_fill; [|done].
    destruct (length (filter _ players)) as [|k]; cbn [div stored].
    + repeat (case_match; try done).
    + apply Qle_shift_div_l; [|by rewrite Qmult_0_l].
      change 0%Q with (inject_Z 0). rewrite <- Zlt_Qlt. lia.
Qed.

Lemma scores_nonnegative_witness :
  Forall (fun q => (0 <= q)%Q)
    (Obj.values (scores (calculateScores "Normal" defaultPlayers 0 [1; 2]%nat 150 131))).
Proof. apply scores_nonnegative. lia. Defined.

(** ** The players of a round *)

Lemma opponents_of_team (players : list string) hostName friendNames :
  filter (fun p => Some p ∉ Some hostName :: (Some <$> friendNames)) players
  = filter (fun p => p ∉ hostName :: friendNames) players.
Proof.
  apply list_filter_iff. intros p.
  change (Some hostName :: (Some <$> friendNames))
    with (Some <$> hostName :: friendNames).
  by rewrite (list_elem_of_fmap_inj Some).
Qed.

Lemma team_in_roster players hostIdx friendIdxs hostName friendNames :
  team players hostIdx friendIdxs hostName friendNames →
  ∀ p, p ∈ hostName :: friendNames → p ∈ players.
Proof.
  intros (Hhost & Hfriends & _) p [->|Hp]%elem_of_cons.
  - by eapply list_elem_of_lookup_2.
  - assert (Some p ∈ (fun i => players !! i) <$> friendIdxs) as Hin.
    { rewrite Hfriends. by apply list_elem_of_fmap_2. }
    apply list_elem_of_fmap in Hin as (i & Hi & _).
    by eapply list_elem_of_lookup_2.
Qed.

Lemma length_outside (players members : list string) :
  NoDup players → NoDup members → (∀ p, p ∈ members → p ∈ players) →
  (length (filter (fun p => p ∉ members) players) + length members
   = length players)%nat.
Proof.
  intros Hp Hm Hsub.
  rewrite <- (filter_app_complement (fun p => p ∈ members) players) at 2.
  rewrite length_app.
  assert (filter (fun p => p ∈ members) players ≡ₚ members) as ->; [|lia].
  apply NoDup_Permutation; [by apply NoDup_filter | done |].
  intros p. rewrite list_elem_of_filter. split; [by intros [? _] | auto].
Qed.

Lemma get_base players p :
  p ∈ players →
  Obj.get p (Obj.fromEntries ((fun p => (p, 0%Q)) <$> players)) = Some 0%Q.
Proof. intros Hp. by rewrite get_fromEntries_const, decide_True. Qed.

(** X2: in a mode other than 1v5, when the host team does not win, each
    player outside the team gets [opponentScore * 1.5] divided by the
    number of such players, the host and the friends get 0, and the team
    and its opponents together are the whole roster. *)
Theorem normal_loss_scores mode players hostIdx friendIdxs bid opponentScore
    hostName friendNames :
  mode ≠ "1v5" →
  ¬ opponentScore < bid →
  NoDup players →
  team players hostIdx friendIdxs hostName friendNames →
  let r := calculateScores mode players hostIdx friendIdxs bid opponentScore in
  let opponents := filter (fun p => p ∉ hostName :: friendNames) players in
  winner r = "Opponents"
  ∧ (length opponents + S (length friendNames) = length players)%nat
  ∧ (∀ p, p ∈ opponents →
       Obj.get p (scores r)
       = Some ((inject_Z opponentScore * 1.5)
               / inject_Z (Z.of_nat (length opponents)))%Q)
  ∧ (∀ p, p ∈ hostName :: friendNames → Obj.get p (scores r) = Some 0%Q).
Proof.
  intros Hmode Hw Hnd Hteam r opponents.
  pose proof (team_in_roster _ _ _ _ _ Hteam) as Hin.
  destruct Hteam as (Hhost & Hfriends & Hndt).
  subst r. unfold calculateScores.
  destruct (decide (mode = "1v5")) as [?|_]; [done|].
  rewrite (bool_decide_eq_false_2 _ Hw), Hhost, Hfriends, opponents_of_team.
  fold opponents. cbn [winner scores].
  split; [done|]. split.
  { pose proof (length_outside players (hostName :: friendNames) Hnd Hndt Hin)
      as Hl. fold opponents in Hl. simpl in Hl. lia. }
  split.
  - intros p Hp. rewrite get_fill, decide_True by done. f_equal.
    destruct (length opponents) as [|n] eqn:Hn; [|done].
    apply length_zero_iff_nil in Hn. rewrite Hn in Hp.
    by apply elem_of_nil in Hp.
  - intros p Hp. rewrite get_fill, decide_False.
    + apply get_base. by apply Hin.
    + intros [Hout _]%list_elem_of_filter. done.
Qed.

Lemma normal_loss_scores_witness :
  winner (calculateScores "Normal" defaultPlayers 0 [1%nat] 150 151) = "Opponents"
  ∧ Obj.get "Player 3" (scores (calculateScores "Normal" defaultPlayers 0 [1%nat] 150 151))
    = Some ((inject_Z 151 * 1.5) / inject_Z (Z.of_nat 4))%Q
  ∧ Obj.get "Player 2" (scores (calculateScores "Normal" defaultPlayers 0 [1%nat] 150 151))
    = Some 0%Q.
Proof.
  destruct (normal_loss_scores "Normal" defaultPlayers 0 [1%nat] 150 151
              "Player 1" ["Player 2"]) as (Hw & Hlen & Hopp & Hteam).
  - done.
  - lia.
  - apply (bool_decide_unpack _). vm_compute. exact I.
  - split; [reflexivity|]. split; [reflexivity|].
    apply (bool_decide_unpack _). vm_compute. exact I.
  - split; [exact Hw|]. split.
    + apply (Hopp "Player 3"). apply (bool_decide_unpack _). vm_compute. exact I.
    + apply (Hteam "Player 2"). apply (bool_decide_unpack _). vm_compute. exact I.
Defined.

(** ** The points of a round *)

Lemma sumQ_cons (q : Q) (l : list Q) : sumQ (q :: l) = (q + sumQ l)%Q.
Proof. reflexivity. Qed.

Lemma sumQ_set (k : string) (v v' : Q) (o : obj Q) :
  Obj.get k o = Some v →
  (sumQ (Obj.values (Obj.set k v' o)) + v == sumQ (Obj.values o) + v')%Q.
Proof.
  unfold Obj.set. intros Hget. rewrite Hget. revert Hget.
  unfold Obj.values. induction o as [|[k' w] o IH]; [done|].
  cbn [Obj.get Obj.replace]. destruct (decide (k = k')) as [->|Hne].
  - intros [= ->]. rewrite !fmap_cons, !sumQ_cons. cbn [snd].
    generalize (sumQ (o.*2)). clear. intros s. ring.
  - intros Hget. specialize (IH Hget).
    rewrite !fmap_cons, !sumQ_cons. cbn [snd].
    rewrite <- Qplus_assoc, IH. generalize (sumQ (o.*2)). clear. intros s. ring.
Qed.

Lemma sumQ_fill (v : Q) (l : list string) :
  NoDup l → ∀ o : obj Q,
  (∀ p, p ∈ l → Obj.get p o = Some 0%Q) →
  (sumQ (Obj.values (foldl (fun s p => Obj.set p v s) o l))
   == sumQ (Obj.values o) + inject_Z (Z.of_nat (length l)) * v)%Q.
Proof.
  induction 1 as [|p l Hp Hnd IH]; intros o Ho; cbn [foldl length].
  - generalize (sumQ (Obj.values o)). clear. intros s. simpl. ring.
  - rewrite IH.
    + pose proof (sumQ_set p 0 v o (Ho p (list_elem_of_here _ _))) as Hs.
      rewrite Qplus_0_r in Hs. rewrite Hs.
      rewrite Nat2Z.inj_succ, <- Z.add_1_r, inject_Z_plus.
      generalize (sumQ (Obj.values o)) (inject_Z (Z.of_nat (length l))).
      clear. intros s n. ring.
    + intros q Hq. rewrite get_set_ne by (intros ->; done).
      apply Ho. by right.
Qed.

Lemma sumQ_base players :
  (sumQ (Obj.values (Obj.fromEntries ((fun p => (p, 0%Q)) <$> players))) == 0)%Q.
Proof.
  pose proof (values_fromEntries_const (fun q => q = 0%Q) 0%Q players eq_refl)
    as Hall.
  induction Hall as [|q qs -> _ IH]; [done|].
  rewrite sumQ_cons, IH. done.
Qed.

(** X3: on a roster of six distinct names, with a team of distinct rows, at
    most two friends and none in 1v5, the points a round hands out add up
    to 400 when the host wins alone, to [400 - opponentScore] when the host
    team wins, and to [opponentScore * 1.5] when the opponents win. *)
Theorem points_awarded mode players hostIdx friendIdxs bid opponentScore
    hostName friendNames :
  NoDup players →
  length players = 6%nat →
  team players hostIdx friendIdxs hostName friendNames →
  (length friendNames <= 2)%nat →
  (mode = "1v5" → friendNames = []) →
  (awarded (calculateScores mode players hostIdx friendIdxs bid opponentScore)
   == if decide (opponentScore < bid)%Z
      then if decide (mode = "1v5") then 400
           else inject_Z (400 - opponentScore)%Z
      else inject_Z opponentScore * 1.5)%Q.
Proof.
  intros Hnd Hsix Hteam Hlen H1v5.
  pose proof (team_in_roster _ _ _ _ _ Hteam) as Hin.
  destruct Hteam as (Hhost & Hfriends & Hndt).
  pose proof (length_outside players (hostName :: friendNames) Hnd Hndt Hin)
    as Hcount. cbn [length] in Hcount.
  unfold awarded, calculateScores.
  rewrite Hhost, Hfriends, opponents_of_team. cbn [propKey].
  set (base := Obj.fromEntries _).
  set (opponents := filter _ players) in *.
  assert (∀ p, p ∈ opponents → Obj.get p base = Some 0%Q) as Hopp.
  { intros p [_ Hp]%list_elem_of_filter. by apply get_base. }
  assert (NoDup opponents) as Hndo by (by apply NoDup_filter).
  assert (Obj.get hostName base = Some 0%Q) as Hh
    by (apply get_base, Hin; by left).
  pose proof (sumQ_base players) as Hbase. fold base in Hbase.
  destruct (decide (mode = "1v5")) as [Hm|Hm];
    destruct (decide (opponentScore < bid)) as [Hw|Hw];
    rewrite ?(bool_decide_eq_true_2 _ Hw), ?(bool_decide_eq_false_2 _ Hw);
    cbn [scores].
  - pose proof (sumQ_set hostName 0 400 base Hh) as Hs.
    rewrite Qplus_0_r, Hbase in Hs. rewrite Hs. clear. ring.
  - rewrite (sumQ_fill _ opponents Hndo base Hopp), Hbase. cbn [stored].
    rewrite (H1v5 Hm) in Hcount. cbn [length] in Hcount.
    replace (length opponents) with 5%nat by lia. clear. field.
  - destruct friendNames as [|f0 [|f1 [|f2 ?]]]; cbn [fmap list_fmap propKey].
    + pose proof (sumQ_set hostName 0 (inject_Z (400 - opponentScore)) base Hh)
        as Hs.
      rewrite Qplus_0_r, Hbase in Hs. rewrite Hs. clear. ring.
    + apply NoDup_cons in Hndt as [Hne' _].
      assert (hostName ≠ f0) as Hne by (intros ->; apply Hne'; by left).
      rewrite get_set_eq. cbn [default from_option id]. unfold id.
      set (h := inject_Z (Math_round _)).
      pose proof (sumQ_set hostName 0 h base Hh) as Hs1.
      assert (Obj.get f0 (Obj.set hostName h base) = Some 0%Q) as Hf0.
      { rewrite get_set_ne by done. apply get_base, Hin. right. by left. }
      pose proof (sumQ_set f0 0 (inject_Z (400 - opponentScore) - h)%Q _ Hf0)
        as Hs2.
      rewrite Qplus_0_r in Hs1, Hs2. rewrite Hs2, Hs1, Hbase. clear. ring.
    + apply NoDup_cons in Hndt as [Hne Hndt].
      apply NoDup_cons in Hndt as [Hne' _].
      assert (hostName ≠ f0) as Hhf0 by (intros ->; apply Hne; by left).
      assert (hostName ≠ f1) as Hhf1
        by (intros ->; apply Hne; right; by left).
      assert (f0 ≠ f1) as Hf01 by (intros ->; apply Hne'; by left).
      set (d := 400 - opponentScore).
      set (h := Math_round (inject_Z d * 0.5)).
      set (f := Math_round (inject_Z (d - h) / 2)).
      pose proof (sumQ_set hostName 0 (inject_Z h) base Hh) as Hs1.
      assert (Obj.get f0 (Obj.set hostName (inject_Z h) base) = Some 0%Q)
        as Hf0.
      { rewrite get_set_ne by done. apply get_base, Hin. right. by left. }
      pose proof (sumQ_set f0 0 (inject_Z f) _ Hf0) as Hs2.
      assert (Obj.get f1 (Obj.set f0 (inject_Z f)
                            (Obj.set hostName (inject_Z h) base)) = Some 0%Q)
        as Hf1.
      { rewrite !get_set_ne by done. apply get_base, Hin. right. right. by left. }
      pose proof (sumQ_set f1 0 (inject_Z (d - h - f)) _ Hf1) as Hs3.
      rewrite Qplus_0_r in Hs1, Hs2, Hs3. rewrite Hs3, Hs2, Hs1, Hbase.
      rewrite Qplus_0_l, <- !inject_Z_plus.
      apply inject_Z_injective. lia.
    + simpl in Hlen. lia.
  - rewrite (sumQ_fill _ opponents Hndo base Hopp), Hbase.
    destruct (length opponents) as [|n] eqn:Hn; [lia|].
    cbn [div stored]. clear. field.
    change 0%Q with (inject_Z 0). rewrite inject_Z_injective. lia.
Qed.

Lemma points_awarded_witness :
  (awarded (calculateScores "Normal" defaultPlayers 0 [1%nat] 150 151)
   == inject_Z 151 * 1.5)%Q.
Proof.
  apply (points_awarded "Normal" defaultPlayers 0 [1%nat] 150 151
           "Player 1" ["Player 2"]).
  - apply (bool_decide_unpack _). vm_compute. exact I.
  - reflexivity.
  - split; [reflexivity|]. split; [reflexivity|].
    apply (bool_decide_unpack _). vm_compute. exact I.
  - simpl. lia.
  - discriminate.
Defined.

(** X4: when the host team wins in a mode other than 1v5, with an opponent
    score between 0 and 400, the shares of the host and of the one or two
    friends are whole numbers, no friend gets more than the host, no share
    is negative, and the shares of two friends differ by at most one
    point. *)
Theorem winning_team_shares mode players hostIdx friendIdxs bid opponentScore
    hostName friendNames :
  mode ≠ "1v5" →
  0 <= opponentScore <= 400 →
  opponentScore < bid →
  team players hostIdx friendIdxs hostName friendNames →
  (length friendNames <= 2)%nat →
  let r := calculateScores mode players hostIdx friendIdxs bid opponentScore in
  ∃ (h : Z) (fs : list Z),
    Obj.get hostName (scores r) = Some (inject_Z h)
    ∧ Forall2 (fun f s => ∃ q, Obj.get f (scores r) = Some q ∧ (q == inject_Z s)%Q)
              friendNames fs
    ∧ Forall (fun s => 0 <= s <= h) fs
    ∧ (∀ s s', s ∈ fs → s' ∈ fs → s - s' <= 1).
Proof.
  intros Hmode Hos Hw (Hhost & Hfriends & Hndt) Hlen r. subst r.
  unfold calculateScores.
  destruct (decide (mode = "1v5")) as [?|_]; [done|].
  rewrite (bool_decide_eq_true_2 _ Hw), Hhost, Hfriends. cbn [scores propKey].
  rewrite Math_round_three_quarters, Math_round_half, Math_round_halved.
  set (d := 400 - opponentScore). assert (0 <= d) as Hd by lia. clearbody d.
  destruct friendNames as [|f0 [|f1 [|f2 ?]]]; cbn [fmap list_fmap propKey].
  - exists d, []. rewrite get_set_eq.
    split; [done|]. split; [constructor|]. split; [constructor|].
    intros s s' Hs. by apply elem_of_nil in Hs.
  - apply NoDup_cons in Hndt as [Hne' _].
    assert (hostName ≠ f0) as Hne by (intros ->; apply Hne'; by left).
    rewrite get_set_eq. cbn [default from_option id]. unfold id.
    exists ((3 * d + 2) / 4), [d - (3 * d + 2) / 4].
    split; [rewrite get_set_ne by done; apply get_set_eq|]. split.
    { constructor; [|constructor]. eexists. split; [apply get_set_eq|].
      unfold Z.sub. rewrite inject_Z_plus, inject_Z_opp. reflexivity. }
    split.
    { constructor; [|constructor]. Z.to_euclidean_division_equations. lia. }
    intros s s' Hs%list_elem_of_singleton Hs'%list_elem_of_singleton.
    subst s s'. lia.
  - apply NoDup_cons in Hndt as [Hne Hndt].
    apply NoDup_cons in Hndt as [Hne' _].
    assert (hostName ≠ f0) as Hhf0 by (intros ->; apply Hne; by left).
    assert (hostName ≠ f1) as Hhf1 by (intros ->; apply Hne; right; by left).
    assert (f0 ≠ f1) as Hf01 by (intros ->; apply Hne'; by left).
    set (h := (d + 1) / 2). set (f := (d - h + 1) / 2).
    exists h, [f; d - h - f].
    split; [rewrite !get_set_ne by done; apply get_set_eq|]. split.
    { constructor; [|constructor; [|constructor]].
      - eexists. split; [|reflexivity].
        rewrite get_set_ne by done. apply get_set_eq.
      - eexists. split; [|reflexivity]. apply get_set_eq. }
    assert (0 <= f <= h ∧ 0 <= d - h - f <= h ∧ f - (d - h - f) <= 1
            ∧ (d - h - f) - f <= 1) as (Hf & Hg & Hfg & Hgf).
    { unfold f, h. Z.to_euclidean_division_equations. lia. }
    split; [constructor; [done|constructor; [done|constructor]]|].
    intros s s' Hs Hs'.
    apply elem_of_cons in Hs as [Hs|Hs%list_elem_of_singleton];
      apply elem_of_cons in Hs' as [Hs'|Hs'%list_elem_of_singleton];
      subst s s'; lia.
  - simpl in Hlen. lia.
Qed.

Lemma winning_team_shares_witness :
  ∃ (h : Z) (fs : list Z),
    Obj.get "Player 1"
      (scores (calculateScores "Normal" defaultPlayers 0 [1; 2]%nat 150 131))
    = Some (inject_Z h)
    ∧ Forall (fun s => 0 <= s <= h) fs
    ∧ length fs = 2%nat.
Proof.
  destruct (winning_team_shares "Normal" defaultPlayers 0 [1; 2]%nat 150 131
              "Player 1" ["Player 2"; "Player 3"])
    as (h & fs & Hh & Hfs & Hle & _).
  - done.
  - lia.
  - lia.
  - split; [reflexivity|]. split; [reflexivity|].
    apply (bool_decide_unpack _). vm_compute. exact I.
  - simpl. lia.
  - exists h, fs. split; [exact Hh|]. split; [exact Hle|].
    symmetry. exact (Forall2_length _ _ _ Hfs).
Defined.

(** X5: when the host and friend indices are rows of a roster of distinct
    names, [scores] has exactly one entry per roster name, in every mode
    and for every outcome. *)
Theorem scores_one_entry_per_player mode players hostIdx friendIdxs bid
    opponentScore :
  NoDup players →
  (hostIdx < length players)%nat →
  Forall (fun i => (i < length players)%nat) friendIdxs →
  Obj.keys (scores (calculateScores mode players hostIdx friendIdxs bid
                      opponentScore))
  ≡ₚ players.
Proof.
  intros Hnd Hhost Hfriends.
  destruct (lookup_lt_is_Some_2 players hostIdx Hhost) as [hostName Hh].
  assert (∀ x, x ∈ (fun i => players !! i) <$> friendIdxs →
               propKey x ∈ players) as Hf.
  { intros x (i & -> & Hi)%list_elem_of_fmap.
    rewrite Forall_forall in Hfriends.
    destruct (lookup_lt_is_Some_2 players i (Hfriends i Hi)) as [p Hp].
    rewrite Hp. simpl. by eapply list_elem_of_lookup_2. }
  assert (hostName ∈ players) as Hin by (by eapply list_elem_of_lookup_2).
  pose proof (keys_fromEntries_const 0%Q players Hnd) as Hkeys.
  unfold calculateScores. rewrite Hh. cbn [propKey].
  set (base := Obj.fromEntries _) in *.
  assert (∀ (o : obj Q) k v, Obj.keys o ≡ₚ players → k ∈ players →
                   Obj.keys (Obj.set k v o) ≡ₚ players) as Hset.
  { intros o k v Ho Hk. rewrite keys_set_present; [done|]. by rewrite Ho. }
  assert (∀ v, Obj.keys
                 (foldl (fun s p => Obj.set p v s) base
                    (filter (fun p => Some p ∉ Some hostName
                                        :: ((fun i => players !! i) <$> friendIdxs))
                            players)) ≡ₚ players) as Hfill.
  { intros v. rewrite keys_fill_present; [done|].
    intros p [_ Hp]%list_elem_of_filter. by rewrite Hkeys. }
  destruct (decide (mode = "1v5"));
    destruct (bool_decide (opponentScore < bid)); cbn [scores]; try apply Hfill.
  - by apply Hset.
  - destruct ((fun i => players !! i) <$> friendIdxs) as [|f0 [|f1 fs]].
    + by apply Hset.
    + apply Hset; [by apply Hset|]. apply Hf. by left.
    + apply Hset; [apply Hset; [by apply Hset|]|].
      * apply Hf. by left.
      * apply Hf. right. by left.
Qed.

Lemma scores_one_entry_per_player_witness :
  Obj.keys (scores (calculateScores "Normal" defaultPlayers 0 [1; 2]%nat 150 131))
  ≡ₚ defaultPlayers.
Proof.
  apply scores_one_entry_per_player.
  - apply (bool_decide_unpack _). vm_compute. exact I.
  - simpl. lia.
  - repeat constructor; simpl; lia.
Defined.

(** ** Reading and writing the session of the selected date *)

Lemma replace_replace {V : Type} (k : string) (v1 v2 : V) (o : obj V) :
  Obj.replace k v2 (Obj.replace k v1 o) = Obj.replace k v2 o.
Proof.
  induction o as [|[k' w] o IH]; [done|]. cbn [Obj.replace].
  destruct (decide (k = k')) as [->|Hne]; cbn [Obj.replace].
  - by rewrite decide_True.
  - rewrite decide_False by done. by rewrite IH.
Qed.

Lemma replace_add {V : Type} (k : string) (v1 v2 : V) (o : obj V) :
  Obj.get k o = None → Obj.replace k v2 (Obj.add k v1 o) = Obj.add k v2 o.
Proof.
  induction o as [|[k' w] o IH]; cbn [Obj.get Obj.add Obj.replace].
  - intros _. by rewrite decide_True.
  - destruct (decide (k = k')) as [->|Hne]; [done|]. intros Hget.
    destruct (Obj.precedes k k'); cbn [Obj.replace].
    + by rewrite decide_True.
    + rewrite decide_False by done. by rewrite IH.
Qed.

Lemma set_set {V : Type} (k : string) (v1 v2 : V) (o : obj V) :
  Obj.set k v2 (Obj.set k v1 o) = Obj.set k v2 o.
Proof.
  unfold Obj.set at 1. rewrite get_set_eq. unfold Obj.set.
  destruct (Obj.get k o) eqn:Hget.
  - apply replace_replace.
  - by apply replace_add.
Qed.

Lemma replace_same {V : Type} (k : string) (v : V) (o : obj V) :
  Obj.get k o = Some v → Obj.replace k v o = o.
Proof.
  induction o as [|[k' w] o IH]; [done|]. cbn [Obj.get Obj.replace].
  destruct (decide (k = k')) as [->|Hne].
  - by intros [= ->].
  - intros Hget. by rewrite IH.
Qed.

Lemma set_same {V : Type} (k : string) (v : V) (o : obj V) :
  Obj.get k o = Some v → Obj.set k v o = o.
Proof. intros Hget. unfold Obj.set. rewrite Hget. by apply replace_same. Qed.

(** X6: [getCurrent] returns the session stored under the selected date
    and leaves the state alone when there is one; when there is none it
    returns the default session (default roster, no round, counter 1) and
    stores it under that date, touching no other date.  After it the
    session is stored, and a second call changes nothing. *)
Theorem getCurrent_lazy (st : State) :
  let st' := (getCurrent st).2 in
  Obj.get (selectedDate st) (gameData st') = Some (session st)
  ∧ (∀ s, Obj.get (selectedDate st) (gameData st) = Some s →
          getCurrent st = (s, st))
  ∧ (Obj.get (selectedDate st) (gameData st) = None → session st = newSession)
  ∧ (∀ d, d ≠ selectedDate st →
          Obj.get d (gameData st') = Obj.get d (gameData st))
  ∧ getCurrent st' = (session st, st').
Proof.
  unfold session, getCurrent.
  destruct (Obj.get (selectedDate st) (gameData st)) as [s|] eqn:Hget;
    cbn [fst snd setGameData gameData selectedDate].
  - rewrite Hget. split_and!; try done. by intros s' [= ->].
  - rewrite get_set_eq. split_and!; try done.
    intros d Hd. by rewrite get_set_ne.
Qed.

Lemma getCurrent_lazy_witness :
  Obj.get tuesday (gameData (getCurrent (setSelectedDate tuesday (initialState monday))).2)
  = Some newSession.
Proof.
  destruct (getCurrent_lazy (setSelectedDate tuesday (initialState monday)))
    as (Hstored & _ & Hnew & _).
  rewrite <- Hnew; [exact Hstored | reflexivity].
Defined.

(** X7: [updateCurrent] applies the updater to the session of the selected
    date (the default session when the date has none) and stores the
    result there: reading back gives the updated session, no other date,
    the selected date and the form are untouched, and two updates in a row
    are the update by the composed updater. *)
Theorem updateCurrent_compose (f g : Session.t → Session.t) (st : State) :
  session (updateCurrent f st) = f (session st)
  ∧ (∀ d, d ≠ selectedDate st →
          Obj.get d (gameData (updateCurrent f st)) = Obj.get d (gameData st))
  ∧ updateCurrent f st
    = mkState (selectedDate st) (gameData (updateCurrent f st)) (mode st)
              (host st) (friends st) (bid st) (opponentScore st)
  ∧ updateCurrent g (updateCurrent f st) = updateCurrent (fun s => g (f s)) st.
Proof.
  split; [apply session_updateCurrent|]. split.
  { intros d Hd. unfold updateCurrent, setGameData. cbn [gameData].
    by rewrite get_set_ne. }
  split; [done|].
  unfold updateCurrent, setGameData.
  cbn [selectedDate gameData mode host friends bid opponentScore].
  rewrite get_set_eq. cbn [default from_option id]. by rewrite set_set.
Qed.

Lemma updateCurrent_compose_witness :
  Obj.get tuesday
    (gameData (updateCurrent (fun s => s) (initialState monday)))
  = Obj.get tuesday (gameData (initialState monday)).
Proof.
  apply (updateCurrent_compose (fun s => s) (fun s => s) (initialState monday)).
  done.
Defined.

(** ** What every run of the interface maintains *)

Lemma sessionOk_newSession d : sessionOk d newSession.
Proof. by repeat split. Qed.

Lemma sessionsOk_set d s gd :
  sessionOk d s → sessionsOk gd → sessionsOk (Obj.set d s gd).
Proof.
  intros Hs Hgd d' s'. rewrite get_set.
  case_decide; [by intros [= <-]; subst | apply Hgd].
Qed.

Lemma sessionOk_existing d gd :
  sessionsOk gd → sessionOk d (default newSession (Obj.get d gd)).
Proof.
  intros Hgd. destruct (Obj.get d gd) as [s|] eqn:Hget; cbn.
  - by apply Hgd.
  - apply sessionOk_newSession.
Qed.

Lemma sessionsOk_updateCurrent updater st :
  (∀ s, sessionOk (selectedDate st) s → sessionOk (selectedDate st) (updater s)) →
  sessionsOk (gameData st) → sessionsOk (gameData (updateCurrent updater st)).
Proof.
  intros Hupd Hgd. unfold updateCurrent, setGameData. cbn [gameData].
  apply sessionsOk_set; [|done]. by apply Hupd, sessionOk_existing.
Qed.

Lemma getCurrent_inv st :
  bidOk st → friendsOk st → sessionsOk (gameData st) →
  bidOk (getCurrent st).2 ∧ friendsOk (getCurrent st).2
  ∧ sessionsOk (gameData (getCurrent st).2).
Proof.
  intros Hbid Hfr Hs. unfold getCurrent.
  destruct (Obj.get (selectedDate st) (gameData st)); cbn [snd]; [done|].
  split; [done|]. split; [done|].
  apply sessionsOk_set; [apply sessionOk_newSession | done].
Qed.

Lemma result_eta (r : Result) :
  mkResult (scores r) (winner r) (distribution r) = r.
Proof. by destruct r. Qed.

Lemma sessionOk_append d s r :
  sessionOk d s → Round.round r = Session.currentRound s → roundOk d r →
  sessionOk d (Session.mk (Session.players s) (Session.rounds s ++ [r])
                          (Session.currentRound s + 1)).
Proof.
  intros (Hnum & Hcr & Hall) Hr Hok. unfold sessionOk.
  cbn [Session.rounds Session.currentRound].
  rewrite fmap_app, length_app, Nat.add_1_r. cbn [length fmap list_fmap].
  rewrite Nat.add_1_r, seq_S, Hnum, Hr, Hcr. split; [done|].
  split; [done|]. apply Forall_app. split; [done|]. by constructor.
Qed.

Lemma Forall_filter_1 {A : Type} (P Q : A → Prop) `{∀ x, Decision (Q x)}
    (l : list A) :
  Forall P l → Forall P (filter Q l).
Proof.
  rewrite !Forall_forall. intros Hl x [_ Hx]%list_elem_of_filter. by apply Hl.
Qed.

Lemma addRound_inv today now st :
  formOk st → rostersOk st → bidOk st → friendsOk st →
  sessionsOk (gameData st) →
  bidOk (addRound today now st) ∧ friendsOk (addRound today now st)
  ∧ sessionsOk (gameData (addRound today now st)).
Proof.
  intros (Hmode & H1v5 & Hlen & Hhost & Hrow) Hok Hbid [Hnd Hlt] Hs.
  pose proof (session_roster st Hok) as Hsix.
  unfold addRound.
  destruct (decide (selectedDate st ≠ today)); [done|].
  destruct (decide (mode st = "Normal" ∧ _)); [done|].
  destruct (decide (bid st < 80 ∧ _)); [done|].
  destruct (decide (opponentScore st < 0 ∨ _)) as [|Hscore]; [done|].
  split.
  { unfold bidOk. cbn. unfold START_BID. rewrite decide_False by done.
    split; [lia | reflexivity]. }
  split; [split; cbn; constructor|].
  unfold resetNewGameForm. cbn [gameData].
  apply sessionsOk_updateCurrent; [|done].
  intros s Hsess. apply sessionOk_append; [done | done |].
  unfold roundOk. cbn [Round.date Round.players Round.opponentScore Round.mode
    Round.bid Round.host Round.friends Round.scores Round.winner
    Round.distribution].
  split; [done|]. split; [done|]. split; [lia|]. split.
  { unfold bidOk in Hbid. destruct (decide (mode st = "1v5")) as [H5|H5]; [done|].
    split; [by destruct Hmode | done]. }
  exists (host st), (filter (fun i => i ≠ host st) (friends st)).
  split; [done|]. split; [by apply Forall_filter_1|]. split.
  { constructor; [|by apply NoDup_filter].
    intros [_ ?]%list_elem_of_filter. done. }
  split; [etrans; [apply length_filter | done]|].
  split; [intros H5; by rewrite (H1v5 H5)|].
  split; [done|]. split; [done|]. apply result_eta.
Qed.

Lemma NoDup_take_1 {A : Type} (n : nat) (l : list A) : NoDup l → NoDup (take n l).
Proof.
  intros Hnd. eapply sublist_NoDup; [done | apply sublist_take].
Qed.

Lemma toggleFriend_inv i st :
  (i < 6)%nat → friendsOk st → friendsOk (toggleFriend i st).
Proof.
  intros Hi [Hnd Hlt]. unfold toggleFriend.
  destruct (decide (i = host st)); [done|].
  destruct (decide (friendsAllowed st = 0%nat)); [done|].
  unfold friendsOk. cbn [friends].
  set (next := if decide (i ∈ friends st) then _ else _).
  assert (NoDup next ∧ Forall (fun i => (i < 6)%nat) next) as [Hnd' Hlt'].
  { unfold next. case_decide.
    - split; [by apply NoDup_filter | by apply Forall_filter_1].
    - split.
      + apply NoDup_app. split; [done|]. split; [|apply NoDup_singleton].
        intros x Hx ->%list_elem_of_singleton. done.
      + apply Forall_app. split; [done|]. by constructor. }
  case_decide; [|done].
  split; [by apply NoDup_take_1 | by apply Forall_take].
Qed.

Lemma handle_inv today e st st' :
  formOk st → rostersOk st → bidOk st → friendsOk st →
  sessionsOk (gameData st) →
  handle today e st = Some st' →
  bidOk st' ∧ friendsOk st' ∧ sessionsOk (gameData st').
Proof.
  intros Hform0 Hok0 Hbid0 Hfr0 Hs0. unfold handle.
  destruct (getCurrent_ok st Hform0 Hok0) as [Hform Hok].
  destruct (getCurrent_inv st Hbid0 Hfr0 Hs0) as (Hbid & Hfr & Hs).
  pose proof (session_roster st Hok0) as Hsix. unfold session in Hsix.
  destruct (getCurrent st) as [sess st1]. cbn [fst snd] in *.
  destruct e; intros Hst'.
  - (* Rename *)
    case_decide; [|done]. unfold onRename in Hst'.
    destruct (array_set _ idx name) as [players'|]; [|done].
    injection Hst' as <-. split; [done|]. split; [done|].
    apply sessionsOk_updateCurrent; [|done]. by intros s (? & ? & ?).
  - (* SelectMode *)
    case_decide as Hv; [|done]. injection Hst' as <-.
    split; [|split; [split; cbn; constructor | done]].
    unfold bidOk, START_BID. cbn [mode bid setForm].
    destruct (decide (value = "1v5")); [done | split; [lia | reflexivity]].
  - (* SelectHost *)
    case_decide; [|done]. injection Hst' as <-.
    split; [done|]. split; [|done]. destruct Hfr as [Hnd Hlt].
    split; cbn; [by apply NoDup_filter | by apply Forall_filter_1].
  - (* ToggleFriend *)
    case_decide as Hi; [|done]. injection Hst' as <-.
    assert (bidOk (toggleFriend i st1) ∧ gameData (toggleFriend i st1) = gameData st1)
      as [? ->] by (unfold toggleFriend; by repeat case_decide).
    split; [done|]. split; [|done]. apply toggleFriend_inv; [lia | done].
  - (* BidMinus *)
    case_decide as Hg; [done|]. injection Hst' as <-.
    split; [|done]. unfold bidOk in *. cbn [mode bid setForm].
    destruct (decide (mode st1 = "1v5")); [tauto|].
    destruct Hbid as [? Hmod]. split; [lia|].
    revert Hmod. Z.to_euclidean_division_equations. lia.
  - (* BidPlus *)
    case_decide as Hg; [done|]. injection Hst' as <-.
    split; [|done]. unfold bidOk in *. cbn [mode bid setForm].
    destruct (decide (mode st1 = "1v5")); [tauto|].
    destruct Hbid as [? Hmod]. split; [lia|].
    revert Hmod. Z.to_euclidean_division_equations. lia.
  - (* BidNoBids *)
    case_decide as Hg; [done|]. injection Hst' as <-.
    split; [|done]. unfold bidOk, NO_BIDS_VALUE in *. cbn [mode bid setForm].
    rewrite decide_False by done. split; [lia | reflexivity].
  - (* BidReset *)
    case_decide as Hg; [done|]. injection Hst' as <-.
    split; [|done]. unfold bidOk, START_BID in *. cbn [mode bid setForm].
    rewrite decide_False by done. split; [lia | reflexivity].
  - (* TypeOpponentScore *) by injection Hst' as <-.
  - (* AddRound *)
    case_decide; [|done]. injection Hst' as <-. by apply addRound_inv.
  - (* ResetForm *)
    injection Hst' as <-. split; [|split; [split; cbn; constructor | done]].
    unfold bidOk. cbn. unfold START_BID. rewrite decide_False by done.
    split; [lia | reflexivity].
  - (* SelectDate *) case_decide; [|done]. by injection Hst' as <-.
  - (* JumpToToday *) by injection Hst' as <-.
Qed.

Lemma run_inv (es : list (string * Event)) : ∀ st st',
  formOk st → rostersOk st → bidOk st → friendsOk st →
  sessionsOk (gameData st) →
  run es st = Some st' →
  formOk st' ∧ rostersOk st' ∧ bidOk st' ∧ friendsOk st'
  ∧ sessionsOk (gameData st').
Proof.
  induction es as [|[today e] es IH]; intros st st' Hform Hok Hbid Hfr Hs;
    cbn [run].
  - by intros [= <-].
  - destruct (handle today e st) as [st1|] eqn:Hh; simpl; [|done].
    destruct (handle_ok _ _ _ _ Hform Hok Hh).
    destruct (handle_inv _ _ _ _ Hform Hok Hbid Hfr Hs Hh) as (? & ? & ?).
    by apply IH.
Qed.

Lemma reachable_inv today es st :
  run es (initialState today) = Some st →
  formOk st ∧ rostersOk st ∧ bidOk st ∧ friendsOk st ∧ sessionsOk (gameData st).
Proof.
  destruct (initialState_ok today) as [Hform Hok].
  apply run_inv; [done | done | | |].
  - unfold bidOk, initialState, START_BID. cbn [mode bid].
    rewrite decide_False by done. split; [lia | reflexivity].
  - split; cbn; constructor.
  - unfold initialState. cbn [gameData].
    apply sessionsOk_set; [apply sessionOk_newSession | done].
Qed.

Lemma not_rejected st :
  formOk st → bidOk st →
  ¬ (opponentScore st < 0 ∨ 400 < opponentScore st) →
  ¬ rejected (mode st) (host st) (friends st) (bid st) (opponentScore st).
Proof.
  intros (Hmode & H1v5 & Hlen & Hhost & Hrow) Hbid Hscore.
  unfold rejected. intros [[_ Hl]|[[Hb Hb']|Ho]]; [| |done].
  - pose proof (length_filter (fun i => i ≠ host st) (friends st)). lia.
  - unfold bidOk in Hbid. destruct (decide (mode st = "1v5")); lia.
Qed.

(** X8: in every state the interface can reach, the form holds one of the
    two modes; in 1v5 mode the bid is 200 and no friend is selected; in
    Normal mode the bid is a multiple of 5 from 80 to 160; the host and
    the at most two friends are distinct rows of the six. *)
Theorem interface_form (today0 : string) (es : list (string * Event))
    (st : State) :
  run es (initialState today0) = Some st →
  (mode st = "Normal" ∨ mode st = "1v5")
  ∧ (mode st = "1v5" → bid st = 200 ∧ friends st = [])
  ∧ (mode st = "Normal" → 80 <= bid st <= 160 ∧ bid st mod 5 = 0)
  ∧ NoDup (host st :: friends st)
  ∧ Forall (fun i => (i < 6)%nat) (host st :: friends st)
  ∧ (length (friends st) <= 2)%nat.
Proof.
  intros Hrun.
  destruct (reachable_inv _ _ _ Hrun)
    as ((Hmode & H1v5 & Hlen & Hhost & Hrow) & _ & Hbid & [Hnd Hlt] & _).
  unfold bidOk in Hbid.
  split; [done|]. split.
  { intros H5. rewrite decide_True in Hbid by done. split; [done | auto]. }
  split.
  { intros Hn. rewrite decide_False in Hbid; [done|]. by rewrite Hn. }
  split; [by constructor|]. split; [by constructor | done].
Qed.

Lemma interface_form_witness :
  ∃ st, run twoEvenings (initialState monday) = Some st
        ∧ NoDup (host st :: friends st).
Proof.
  destruct (run twoEvenings (initialState monday)) as [st|] eqn:Hrun.
  - exists st. split; [reflexivity|].
    exact (proj1 (proj2 (proj2 (proj2 (interface_form monday twoEvenings st Hrun))))).
  - exfalso. vm_compute in Hrun. discriminate Hrun.
Defined.

(** X9: in a state the interface can reach (the opponent scores typed
    being those [parseInt] reads as whole numbers, as the events have
    them), the first two validation rules of [addRound] cannot fire: an
    append on today's session is refused exactly when the opponent score
    is outside [0,400]. *)
Theorem interface_refusal (today0 : string) (es : list (string * Event))
    (st : State) (today : string) (now : Z) :
  run es (initialState today0) = Some st →
  selectedDate st = today →
  (addRound today now st = st
   ↔ opponentScore st < 0 ∨ 400 < opponentScore st).
Proof.
  intros Hrun Hsel.
  destruct (reachable_inv _ _ _ Hrun) as (Hform & _ & Hbid & _ & _).
  split.
  - intros Heq.
    destruct (decide (opponentScore st < 0 ∨ 400 < opponentScore st))
      as [|Hscore]; [done|]. exfalso.
    destruct (addRound_accepted today now st Hsel
                (not_rejected st Hform Hbid Hscore)) as (_ & r & Hsess & _).
    rewrite Heq in Hsess.
    apply (f_equal (fun s => length (Session.rounds s))) in Hsess.
    cbn [Session.rounds] in Hsess. rewrite length_app in Hsess.
    cbn [length] in Hsess. lia.
  - intros Hscore. apply addRound_rejected. right. right. by right.
Qed.

Lemma interface_refusal_witness :
  addRound monday 2000
    (default (initialState monday)
       (run [(monday, TypeOpponentScore 405)] (initialState monday)))
  = default (initialState monday)
      (run [(monday, TypeOpponentScore 405)] (initialState monday)).
Proof.
  apply (interface_refusal monday [(monday, TypeOpponentScore 405)]
           _ monday 2000).
  - reflexivity.
  - reflexivity.
  - right. simpl. lia.
Defined.

Lemma roundOk_namesKnown d r : roundOk d r → namesKnown (Round.players r) r.
Proof.
  intros (_ & Hsix & _ & _ & hostIdx & friendIdxs & Hh & Hf & _ & _ & _
          & Hhost & Hfriends & _).
  assert (∀ i, (i < 6)%nat → propKey (Round.players r !! i) ∈ Round.players r)
    as Hrow.
  { intros i Hi. destruct (lookup_lt_is_Some_2 (Round.players r) i) as [x Hx];
      [lia|]. rewrite Hx. by eapply list_elem_of_lookup_2. }
  split; [by apply Forall_forall|]. split.
  - rewrite Hhost. by apply Hrow.
  - rewrite Hfriends, Forall_fmap. eapply Forall_impl; [exact Hf|].
    intros i Hi. by apply Hrow.
Qed.

(** X10: in every state the interface can reach (the opponent scores
    typed being whole numbers, as the events have them), every stored
    session has six names, its rounds are numbered 1, 2, ... in order and
    its counter is one more than their number, whatever the order in which
    dates were selected, names edited and rounds added; and every stored
    round is the record of a valid form ([roundOk]), whose host and
    friends are among the names it lists. *)
Theorem interface_sessions (today0 : string) (es : list (string * Event))
    (st : State) (d : string) (s : Session.t) :
  run es (initialState today0) = Some st →
  Obj.get d (gameData st) = Some s →
  length (Session.players s) = 6%nat
  ∧ Round.round <$> Session.rounds s = seq 1 (length (Session.rounds s))
  ∧ Session.currentRound s = S (length (Session.rounds s))
  ∧ Forall (fun r => roundOk d r ∧ namesKnown (Round.players r) r)
           (Session.rounds s).
Proof.
  intros Hrun Hget.
  destruct (reachable_inv _ _ _ Hrun) as (_ & Hok & _ & _ & Hs).
  destruct (Hs d s Hget) as (Hnum & Hcr & Hall).
  split; [by eapply Hok|]. split; [done|]. split; [done|].
  eapply Forall_impl; [exact Hall|]. intros r Hr.
  split; [done | by eapply roundOk_namesKnown].
Qed.

Lemma interface_sessions_witness :
  ∃ st s, run twoEvenings (initialState monday) = Some st
          ∧ Obj.get tuesday (gameData st) = Some s
          ∧ Session.currentRound s = S (length (Session.rounds s)).
Proof.
  destruct (run twoEvenings (initialState monday)) as [st|] eqn:Hrun.
  - destruct (Obj.get tuesday (gameData st)) as [s|] eqn:Hget.
    + exists st, s. split; [reflexivity|]. split; [exact Hget|].
      exact (proj1 (proj2 (proj2
               (interface_sessions monday twoEvenings st tuesday s Hrun Hget)))).
    + exfalso. vm_compute in Hrun. injection Hrun as <-.
      vm_compute in Hget. discriminate Hget.
  - exfalso. vm_compute in Hrun. discriminate Hrun.
Defined.

(** ** The history only grows *)

Lemma extends_refl gd : extends gd gd.
Proof. intros d s Hget. by exists s. Qed.

Lemma extends_trans gd1 gd2 gd3 :
  extends gd1 gd2 → extends gd2 gd3 → extends gd1 gd3.
Proof.
  intros H12 H23 d s Hget.
  destruct (H12 d s Hget) as (s2 & Hget2 & Hp2).
  destruct (H23 d s2 Hget2) as (s3 & Hget3 & Hp3).
  exists s3. split; [done|]. by etrans.
Qed.

Lemma extends_getCurrent st : extends (gameData st) (gameData (getCurrent st).2).
Proof.
  unfold getCurrent.
  destruct (Obj.get (selectedDate st) (gameData st)) as [s0|] eqn:Hsel;
    cbn [snd setGameData gameData]; [apply extends_refl|].
  intros d s Hget. exists s. split; [|done].
  rewrite get_set_ne; [done|]. intros ->. congruence.
Qed.

Lemma extends_updateCurrent updater st :
  (∀ s, Session.rounds s `prefix_of` Session.rounds (updater s)) →
  extends (gameData st) (gameData (updateCurrent updater st)).
Proof.
  intros Hupd d s Hget. unfold updateCurrent, setGameData. cbn [gameData].
  rewrite get_set. case_decide as Hd.
  - subst d. rewrite Hget. cbn. eexists. split; [done | apply Hupd].
  - by exists s.
Qed.

Lemma handle_extends today e st st' :
  handle today e st = Some st' → extends (gameData st) (gameData st').
Proof.
  unfold handle. pose proof (extends_getCurrent st) as H0.
  destruct (getCurrent st) as [sess st1]. cbn [snd] in H0.
  intros Hst'. eapply extends_trans; [exact H0|]. clear H0.
  destruct e; repeat case_decide; simplify_eq; try apply extends_refl.
  - (* Rename *)
    unfold onRename in Hst'.
    destruct (array_set _ idx name) as [players'|]; [|done].
    injection Hst' as <-. by apply extends_updateCurrent.
  - (* ToggleFriend *)
    unfold toggleFriend. repeat case_decide; apply extends_refl.
  - (* AddRound *)
    destruct (addRound_cases (selectedDate st1) now st1)
      as [->|(updater & Hupd & Heq)]; [apply extends_refl|].
    unfold addRound in *. repeat case_decide; try apply extends_refl.
    unfold resetNewGameForm. cbn [gameData].
    apply extends_updateCurrent. intros s. cbn. by apply prefix_app_r.
Qed.

(** X11: no event of the interface deletes a session or alters a stored
    round: after any run, every session that existed is still stored
    under its date, and the rounds it had are the first rounds it has. *)
Theorem history_extends (es : list (string * Event)) (st st' : State)
    (d : string) (s : Session.t) :
  run es st = Some st' →
  Obj.get d (gameData st) = Some s →
  ∃ s', Obj.get d (gameData st') = Some s'
        ∧ Session.rounds s `prefix_of` Session.rounds s'.
Proof.
  intros Hrun. revert d s. change (extends (gameData st) (gameData st')).
  revert st Hrun. induction es as [|[today e] es IH]; intros st; cbn [run].
  - intros [= <-]. apply extends_refl.
  - destruct (handle today e st) as [st1|] eqn:Hh; simpl; [|done].
    intros Hrun. eapply extends_trans; [by eapply handle_extends|]. by apply IH.
Qed.

Lemma history_extends_witness :
  ∃ s', Obj.get monday
          (gameData (default (initialState monday)
                       (run twoEvenings (initialState monday)))) = Some s'
        ∧ [] `prefix_of` Session.rounds s'.
Proof.
  apply (history_extends twoEvenings (initialState monday) _ monday newSession).
  - vm_compute. reflexivity.
  - reflexivity.
Defined.

(** ** When [roleStats] returns *)

Lemma roster_readable (players : list string) (n : string) :
  n ∈ players →
  n ∈ Obj.keys (own (foldl (fun acc p => assign p Role.zero acc)
                           (mkTable [] None) players))
  ∨ n ∈ inherited.
Proof.
  intros Hn. destruct (decide (n = "__proto__")) as [->|Hne].
  - right. apply (bool_decide_unpack _). vm_compute. exact I.
  - left. by apply roleStats_keys.
Qed.

Lemma roleStats_is_Some (rounds : list Round.t) (players : list string) :
  Forall (namesKnown players) rounds → is_Some (roleStats rounds players).
Proof.
  intros Hall. unfold roleStats.
  apply (proj2 (roleRounds_hosted rounds _)).
  eapply Forall_impl; [exact Hall|].
  intros r (Hp & Hh & Hf). split; [|split].
  - eapply Forall_impl; [exact Hp|]. intros p. apply roster_readable.
  - by apply roster_readable.
  - eapply Forall_impl; [exact Hf|]. intros f. apply roster_readable.
Qed.

Lemma session_getCurrent st : session (getCurrent st).2 = session st.
Proof.
  rewrite !session_eq. unfold getCurrent.
  destruct (Obj.get (selectedDate st) (gameData st)) as [s|] eqn:Hget;
    cbn [snd setGameData gameData selectedDate].
  - by rewrite Hget.
  - by rewrite get_set_eq.
Qed.

Lemma namesKept_set d s gd :
  Forall (fun r => Round.players r = Session.players s) (Session.rounds s) →
  namesKept gd → namesKept (Obj.set d s gd).
Proof.
  intros Hs Hgd d' s'. rewrite get_set.
  case_decide; [by intros [= <-] | apply Hgd].
Qed.

Lemma namesKept_session st :
  namesKept (gameData st) →
  Forall (fun r => Round.players r = Session.players (session st))
         (Session.rounds (session st)).
Proof.
  intros Hgd. rewrite session_eq.
  destruct (Obj.get (selectedDate st) (gameData st)) as [s|] eqn:Hget; cbn.
  - by eapply Hgd.
  - constructor.
Qed.

Lemma namesKept_updateCurrent updater st :
  Forall (fun r => Round.players r = Session.players (updater (session st)))
         (Session.rounds (updater (session st))) →
  namesKept (gameData st) → namesKept (gameData (updateCurrent updater st)).
Proof.
  intros Hupd Hgd. unfold updateCurrent, setGameData. cbn [gameData].
  apply namesKept_set; [|done]. by rewrite <- session_eq.
Qed.

Lemma handle_namesKept today e st st' :
  namesKept (gameData st) →
  match e with
  | Rename _ _ => Session.rounds (session st) = []
  | _ => True
  end →
  handle today e st = Some st' → namesKept (gameData st').
Proof.
  intros Hgd0 He. unfold handle.
  assert (namesKept (gameData (getCurrent st).2)) as Hgd.
  { unfold getCurrent. destruct (Obj.get _ _); cbn [snd]; [done|].
    apply namesKept_set; [constructor | done]. }
  pose proof (session_getCurrent st) as Hsess.
  destruct (getCurrent st) as [sess st1]. cbn [snd] in *. clear Hgd0.
  intros Hst'.
  destruct e; repeat case_decide; simplify_eq; try done.
  - (* Rename *)
    unfold onRename in Hst'.
    destruct (array_set _ idx name) as [players'|]; [|done].
    injection Hst' as <-. apply namesKept_updateCurrent; [|done].
    cbn [Session.rounds]. rewrite Hsess, He. constructor.
  - (* ToggleFriend *)
    unfold toggleFriend. by repeat case_decide.
  - (* AddRound *)
    unfold addRound. repeat case_decide; try done.
    unfold resetNewGameForm. cbn [gameData].
    apply namesKept_updateCurrent; [|done].
    cbn [Session.rounds Session.players]. apply Forall_app. split.
    + by apply namesKept_session.
    + by constructor.
Qed.

Lemma run_namesKept (es : list (string * Event)) : ∀ st st',
  namesKept (gameData st) → renamesFirst es st → run es st = Some st' →
  namesKept (gameData st').
Proof.
  induction es as [|[today e] es IH]; intros st st' Hgd; cbn [run renamesFirst].
  - by intros _ [= <-].
  - intros [He Hes].
    destruct (handle today e st) as [st1|] eqn:Hh; simpl; [|done].
    apply IH; [|done]. by eapply handle_namesKept.
Qed.

(** X12: as long as the names of a session are edited only while it has
    no round, every stored round lists the names its session has now,
    and [roleStats], whose loop reads the table at every recorded name
    without a guard, returns a table for the session on the page. *)
Theorem roleStats_defined (today0 : string) (es : list (string * Event))
    (st : State) :
  run es (initialState today0) = Some st →
  renamesFirst es (initialState today0) →
  Forall (fun r => Round.players r = Session.players (session st))
         (Session.rounds (session st))
  ∧ is_Some (roleStats (Session.rounds (session st))
                       (Session.players (session st))).
Proof.
  intros Hrun Hfirst.
  destruct (reachable_inv _ _ _ Hrun) as (_ & _ & _ & _ & Hs).
  assert (namesKept (gameData st)) as Hkept.
  { eapply run_namesKept; [|exact Hfirst|exact Hrun].
    unfold initialState. cbn [gameData].
    apply namesKept_set; [constructor|done]. }
  pose proof (namesKept_session st Hkept) as Hnames.
  split; [done|]. apply roleStats_is_Some.
  pose proof (sessionOk_existing (selectedDate st) _ Hs) as (_ & _ & Hall).
  rewrite <- session_eq in Hall.
  rewrite Forall_forall in Hnames, Hall. apply Forall_forall. intros r Hr.
  rewrite <- (Hnames r Hr). eapply roundOk_namesKnown. by apply Hall.
Qed.

Lemma roleStats_defined_witness :
  is_Some (roleStats
    (Session.rounds (session (default (initialState monday)
                                (run twoEvenings (initialState monday)))))
    (Session.players (session (default (initialState monday)
                                 (run twoEvenings (initialState monday)))))).
Proof.
  apply (roleStats_defined monday twoEvenings).
  - vm_compute. reflexivity.
  - vm_compute. tauto.
Defined.

(** ** Successive writes *)

Lemma updateCurrent_twice (f g : Session.t → Session.t) (st : State) :
  updateCurrent g (updateCurrent f st) = updateCurrent (fun s => g (f s)) st.
Proof.
  unfold updateCurrent, setGameData.
  cbn [selectedDate gameData mode host friends bid opponentScore].
  rewrite get_set_eq. cbn [default from_option id]. by rewrite set_set.
Qed.

Lemma onRename_eq idx name st :
  onRename idx name st
  = players ← array_set (Session.players (session st)) idx name;
    Some (updateCurrent (fun s =>
            Session.mk players (Session.rounds s) (Session.currentRound s)) st).
Proof. unfold onRename. by rewrite <- session_eq. Qed.

Lemma array_set_twice players idx a b players1 :
  array_set players idx a = Some players1 →
  array_set players1 idx b = array_set players idx b.
Proof.
  unfold array_set. intros H.
  destruct (decide (idx < length players)%nat) as [Hlt|Hge].
  - injection H as <-. rewrite length_insert, decide_True by done.
    by rewrite list_insert_insert_eq.
  - destruct (decide (idx = length players)) as [->|]; [|done].
    injection H as <-. rewrite length_app. cbn [length].
    rewrite decide_True by lia. f_equal.
    rewrite insert_app_r_alt by lia. by rewrite Nat.sub_diag.
Qed.

(** X13: a name typed over another one replaces it: two renames of the
    same row in a row leave the state the second one alone gives. *)
Theorem onRename_last_wins (idx : nat) (a b : string) (st st1 : State) :
  onRename idx a st = Some st1 →
  onRename idx b st1 = onRename idx b st.
Proof.
  rewrite !onRename_eq. intros H1.
  destruct (array_set (Session.players (session st)) idx a)
    as [players1|] eqn:Hset; [|done].
  injection H1 as <-. rewrite session_updateCurrent. cbn [Session.players].
  rewrite (array_set_twice _ _ _ _ _ Hset).
  destruct (array_set (Session.players (session st)) idx b) as [players2|];
    [|done].
  cbn. by rewrite updateCurrent_twice.
Qed.

Lemma onRename_last_wins_witness :
  onRename 0 "Alice"
    (default (initialState monday) (onRename 0 "Al" (initialState monday)))
  = onRename 0 "Alice" (initialState monday).
Proof.
  apply (onRename_last_wins 0 "Al" "Alice" (initialState monday)).
  reflexivity.
Defined.

(** X14: renames of two different rows of the roster can be made in
    either order. *)
Theorem onRename_commute (i j : nat) (a b : string) (st : State) :
  i ≠ j →
  (i < length (Session.players (session st)))%nat →
  (j < length (Session.players (session st)))%nat →
  onRename i a st ≫= onRename j b = onRename j b st ≫= onRename i a.
Proof.
  intros Hij Hi Hj. rewrite !onRename_eq. unfold array_set.
  rewrite !decide_True by done. cbn.
  rewrite !onRename_eq, !session_updateCurrent. cbn [Session.players].
  unfold array_set. rewrite !decide_True by (by rewrite length_insert).
  cbn. rewrite !updateCurrent_twice. cbn [Session.rounds Session.currentRound].
  by rewrite (list_insert_insert_ne _ j i).
Qed.

Lemma onRename_commute_witness :
  onRename 0 "Alice" (initialState monday) ≫= onRename 1 "Bob"
  = onRename 1 "Bob" (initialState monday) ≫= onRename 0 "Alice".
Proof.
  apply (onRename_commute 0 1 "Alice" "Bob" (initialState monday)).
  - lia.
  - simpl. lia.
  - simpl. lia.
Defined.

(** ** Selecting friends *)

Lemma filter_ne_app {A : Type} `{EqDecision A} (i : A) (l : list A) :
  i ∉ l → filter (fun x => x ≠ i) (l ++ [i]) = l.
Proof.
  intros Hi. rewrite filter_app, filter_cons, decide_False by (by intros ?).
  rewrite filter_nil, app_nil_r.
  induction l as [|x l IH]; [done|].
  apply not_elem_of_cons in Hi as [Hx Hl].
  rewrite filter_cons, decide_True by done. by rewrite IH.
Qed.

(** X15: in Normal mode, selecting a row that is neither the host nor
    selected yet adds it after the friends selected when there are fewer
    than two, and a second click removes it again, the form being as
    before; with two friends selected the click changes nothing. *)
Theorem toggleFriend_select (i : nat) (st : State) :
  mode st = "Normal" → i ≠ host st → i ∉ friends st →
  ((length (friends st) < 2)%nat →
   friends (toggleFriend i st) = friends st ++ [i]
   ∧ toggleFriend i (toggleFriend i st) = st)
  ∧ (length (friends st) = 2%nat → toggleFriend i st = st).
Proof.
  intros Hmode Hi Hnot.
  assert (friendsAllowed st = 2%nat) as Htwo
    by (unfold friendsAllowed; by rewrite decide_True).
  assert (∀ st', mode st' = mode st → friendsAllowed st' = 2%nat) as Htwo'
    by (intros st' Hm; unfold friendsAllowed; by rewrite Hm, decide_True).
  split.
  - intros Hlen.
    assert (toggleFriend i st
            = mkState (selectedDate st) (gameData st) (mode st) (host st)
                      (friends st ++ [i]) (bid st) (opponentScore st)) as Heq.
    { unfold toggleFriend. rewrite Htwo.
      rewrite (decide_False (P := i = host st)) by done.
      rewrite (decide_False (P := 2%nat = 0%nat)) by done.
      rewrite (decide_False (P := i ∈ friends st)) by done.
      rewrite decide_False; [done|]. rewrite length_app. cbn [length]. lia. }
    rewrite Heq. split; [done|].
    unfold toggleFriend. rewrite (Htwo' (mkState _ _ _ _ _ _ _) eq_refl).
    cbn [selectedDate gameData mode host friends bid opponentScore].
    rewrite (decide_False (P := i = host st)) by done.
    rewrite (decide_False (P := 2%nat = 0%nat)) by done.
    rewrite (decide_True (P := i ∈ friends st ++ [i]))
      by (apply elem_of_app; right; by left).
    rewrite filter_ne_app by done.
    rewrite decide_False by lia. by destruct st.
  - intros Hlen. unfold toggleFriend. rewrite Htwo.
    rewrite (decide_False (P := i = host st)) by done.
    rewrite (decide_False (P := 2%nat = 0%nat)) by done.
    rewrite (decide_False (P := i ∈ friends st)) by done.
    rewrite decide_True by (rewrite length_app; cbn [length]; lia).
    rewrite take_app_length' by done. by destruct st.
Qed.

Lemma toggleFriend_select_witness :
  toggleFriend 3 (setForm "Normal" 0 [1; 2]%nat 150 0 (initialState monday))
  = setForm "Normal" 0 [1; 2]%nat 150 0 (initialState monday).
Proof.
  apply (toggleFriend_select 3
           (setForm "Normal" 0 [1; 2]%nat 150 0 (initialState monday))).
  - reflexivity.
  - simpl. lia.
  - apply (bool_decide_unpack _). vm_compute. exact I.
  - reflexivity.
Defined.

(** ** The order of the rankings *)

Section sort_stable.
Context {A : Type} (key : A → Z) (cmp : A → A → Z) (prior : A → A → Prop).
Hypothesis cmp_key : ∀ a b, cmp a b = key b - key a.

Lemma sort_insert_stable x l :
  Forall (prior x) l → StronglySorted (byKeyThen key prior) l →
  StronglySorted (byKeyThen key prior) (sort_insert cmp x l).
Proof.
  intros Hx Hl. induction Hl as [|y l Hl IH Hy]; simpl; [repeat constructor|].
  apply Forall_cons in Hx as [Hxy Hxl].
  case_decide as Hc; rewrite cmp_key in Hc.
  - constructor; [by apply IH|]. rewrite sort_insert_perm.
    constructor; [left; lia | done].
  - constructor; [by constructor|]. constructor.
    + destruct (decide (key y = key x)); [by right | left; lia].
    + rewrite Forall_forall in Hy, Hxl. apply Forall_forall. intros z Hz.
      specialize (Hy z Hz). specialize (Hxl z Hz). unfold byKeyThen in *.
      destruct (decide (key z = key x)); [by right | left; lia].
Qed.

Lemma sort_stable l :
  StronglySorted prior l → StronglySorted (byKeyThen key prior) (sort cmp l).
Proof.
  induction 1 as [|x l Hl IH Hx]; simpl; [constructor|].
  apply sort_insert_stable; [|done]. by rewrite sort_perm.
Qed.
End sort_stable.

Lemma StronglySorted_weaken {A : Type} (R R' : A → A → Prop) (l : list A) :
  (∀ a b, R a b → R' a b) → StronglySorted R l → StronglySorted R' l.
Proof.
  intros HR. induction 1 as [|x l Hl IH Hx]; constructor; [done|].
  eapply Forall_impl; [exact Hx | auto].
Qed.

Lemma playerRankings_stable gameData players :
  StronglySorted
    (byKeyThen (fun p => Z.of_nat (Ranking.gamesPlayed p))
               (fun a b => Ranking.totalScore b <= Ranking.totalScore a))
    (EnhancedStats.playerRankings (ownStats gameData players)).
Proof.
  unfold ownStats, summarise. cbn [EnhancedStats.playerRankings].
  apply sort_stable; [done|]. apply rankingsByTotal_descending.
Qed.

Lemma ownStats_order (gameData : obj Session.t) (players : list string) :
  let stats := ownStats gameData players in
  let rankings := EnhancedStats.playerRankings stats in
  StronglySorted
    (fun a b => (Ranking.gamesPlayed b < Ranking.gamesPlayed a)%nat
                ∨ (Ranking.gamesPlayed b = Ranking.gamesPlayed a
                   ∧ Ranking.totalScore b <= Ranking.totalScore a))
    rankings
  ∧ EnhancedStats.mostGamesPlayed stats = head rankings
  ∧ match EnhancedStats.mostGamesPlayed stats with
    | Some best =>
        best ∈ rankings
        ∧ ∀ p, p ∈ rankings →
            (Ranking.gamesPlayed p < Ranking.gamesPlayed best)%nat
            ∨ (Ranking.gamesPlayed p = Ranking.gamesPlayed best
               ∧ Ranking.totalScore p <= Ranking.totalScore best)
    | None => rankings = []
    end.
Proof.
  intros stats rankings.
  assert (StronglySorted
    (fun a b => (Ranking.gamesPlayed b < Ranking.gamesPlayed a)%nat
                ∨ (Ranking.gamesPlayed b = Ranking.gamesPlayed a
                   ∧ Ranking.totalScore b <= Ranking.totalScore a))
    rankings) as Hsorted.
  { eapply StronglySorted_weaken; [|apply playerRankings_stable].
    intros a b [Hlt|[Heq Hle]]; [left; lia | right; split; [lia | done]]. }
  split; [done|]. split; [done|].
  change (EnhancedStats.mostGamesPlayed stats) with (head rankings).
  destruct rankings as [|best l]; cbn [head]; [done|].
  split; [by left|]. intros p [->|Hp]%elem_of_cons.
  - right. split; [done | lia].
  - apply StronglySorted_inv in Hsorted as [_ Hbest].
    rewrite Forall_forall in Hbest. by apply Hbest.
Qed.

(** ** The entries of the rankings *)

Lemma NoDup_keys_set {V : Type} k (v : V) (o : obj V) :
  NoDup (Obj.keys o) → NoDup (Obj.keys (Obj.set k v o)).
Proof.
  intros Hnd. destruct (decide (k ∈ Obj.keys o)) as [Hin|Hnot].
  - by rewrite keys_set_present.
  - rewrite keys_set_absent by done. apply NoDup_app.
    split; [done|]. split; [|apply NoDup_singleton].
    intros x Hx ->%list_elem_of_singleton. done.
Qed.

Lemma NoDup_keys_fill {V : Type} (v : V) (l : list string) : ∀ o : obj V,
  NoDup (Obj.keys o) → NoDup (Obj.keys (foldl (fun s p => Obj.set p v s) o l)).
Proof.
  induction l as [|p l IH]; intros o Hnd; cbn [foldl]; [done|].
  by apply IH, NoDup_keys_set.
Qed.

Lemma keys_ownTable rounds players :
  Obj.keys (ownTable rounds players)
  = Obj.keys (foldl (fun acc p => Obj.set p Stats.zero acc) [] players).
Proof. unfold ownTable. apply foldl_ownRound_hosted. Qed.

Lemma names_playerRankings gameData players :
  Ranking.name <$> EnhancedStats.playerRankings (ownStats gameData players)
  ≡ₚ Obj.keys (ownTable (flat_map Session.rounds (Obj.values gameData))
                          players).
Proof.
  rewrite playerRankings_perm. unfold rankingsByTotal. rewrite sort_perm.
  unfold Obj.keys, Obj.entries. rewrite <- list_fmap_compose. done.
Qed.

Lemma ownStats_names (gameData : obj Session.t) (players : list string) :
  let names :=
    Ranking.name <$>
      EnhancedStats.playerRankings (ownStats gameData players) in
  NoDup names
  ∧ (∀ n, n ∈ names ↔ n ∈ players)
  ∧ (length names <= length players)%nat
  ∧ (NoDup players → names ≡ₚ players).
Proof.
  intros names.
  assert (names ≡ₚ Obj.keys (foldl (fun acc p => Obj.set p Stats.zero acc)
                                   [] players)) as Hperm.
  { unfold names. by rewrite names_playerRankings, keys_ownTable. }
  assert (NoDup names) as Hnd.
  { rewrite Hperm. apply NoDup_keys_fill. constructor. }
  assert (∀ n, n ∈ names ↔ n ∈ players) as Hin.
  { intros n. rewrite Hperm. apply elem_of_keys_fill. }
  split; [done|]. split; [done|]. split.
  - apply submseteq_length, NoDup_submseteq; [done|]. intros n. apply Hin.
  - intros Hplayers. by apply NoDup_Permutation.
Qed.

(** ** Wins and games *)






(** ** Totals by player *)


Section sort_numbers.
Context {A : Type} (key : A → Q) (cmp : A → A → Z).
Hypothesis cmp_key : ∀ a b, cmp a b = sign (key b - key a).



End sort_numbers.




Lemma sumQ_app (l l' : list Q) : (sumQ (l ++ l') == sumQ l + sumQ l')%Q.
Proof.
  induction l as [|x l IH]; cbn [app].
  - unfold sumQ at 2. cbn. by rewrite Qplus_0_l.
  - rewrite !sumQ_cons, IH. apply Qplus_assoc.
Qed.


Lemma pointsIn_app k es es' :
  (pointsIn k (es ++ es') == pointsIn k es + pointsIn k es')%Q.
Proof. unfold pointsIn. by rewrite filter_app, fmap_app, sumQ_app. Qed.



Lemma foldl_sessions (sessions : list Session.t) : ∀ m,
  foldl (fun map s => foldl addScores map (Session.rounds s)) m sessions
  = foldl addScores m (flat_map Session.rounds sessions).
Proof.
  induction sessions as [|s sessions IH]; intros m; cbn [foldl flat_map];
    [done|].
  by rewrite foldl_app, IH.
Qed.

Lemma elem_of_get {V : Type} k (v : V) (o : obj V) :
  NoDup (Obj.keys o) → (k, v) ∈ o ↔ Obj.get k o = Some v.
Proof.
  unfold Obj.keys. induction o as [|[k' v'] o IH]; cbn [Obj.get].
  - intros _. rewrite elem_of_nil. done.
  - rewrite fmap_cons. cbn [fst]. intros [Hk' Hnd]%NoDup_cons.
    rewrite elem_of_cons, (IH Hnd).
    destruct (decide (k = k')) as [->|Hne].
    + split; [|intros [= ->]; by left].
      intros [[= ->]|Hget]; [done|]. exfalso. apply Hk'.
      change (k' ∈ Obj.keys o). apply elem_of_keys. by rewrite Hget.
    + split; [|by right]. intros [[= ? ?]|?]; done.
Qed.





(** X20: the all-time table is the table [totalsByPlayer] gives for the
    rounds of all the sessions, in the order of the sessions. *)
Theorem allTimeRows_totalsByPlayer (gameData : obj Session.t) :
  allTimeRows gameData
  = totalsByPlayer (flat_map Session.rounds (Obj.values gameData)).
Proof. unfold allTimeRows, totalsByPlayer. by rewrite foldl_sessions. Qed.

(** ** The total score of an entry *)

Lemma get_foldl_whenPresent_same {V B X : Type} (g : V → B) (key : X → string)
    (upd : X → V → V) (l : list X) :
  (∀ x v, g (upd x v) = g v) →
  ∀ (o : obj V) k,
    g <$> Obj.get k (foldl (fun o x => whenPresent (key x) (upd x) o) o l)
    = g <$> Obj.get k o.
Proof.
  intros Hg. induction l as [|x l IH]; intros o k; cbn [foldl]; [done|].
  rewrite IH, get_whenPresent. case_decide; [|done].
  destruct (Obj.get k o); cbn; [by rewrite Hg | done].
Qed.

Lemma keys_foldl_whenPresent {V X : Type} (key : X → string) (upd : X → V → V)
    (l : list X) : ∀ o : obj V,
  Obj.keys (foldl (fun o x => whenPresent (key x) (upd x) o) o l) = Obj.keys o.
Proof.
  induction l as [|x l IH]; intros o; cbn [foldl]; [done|].
  by rewrite IH, keys_whenPresent.
Qed.

Lemma scored_loop (es : list (string * Q)) : ∀ (ps : obj Stats.t) k,
  k ∈ Obj.keys ps →
  totalScoreOf k (foldl (fun ps e => whenPresent e.1 (Stats.scored e.2) ps)
                        ps es)
  = addPoints (totalScoreOf k ps) (snd <$> filter (fun e => e.1 = k) es).
Proof.
  induction es as [|e es IH]; intros ps k Hk; cbn [foldl]; [done|].
  rewrite IH by (by rewrite keys_whenPresent).
  unfold totalScoreOf. rewrite get_whenPresent, filter_cons.
  apply elem_of_keys in Hk as [v Hv]. rewrite Hv.
  destruct (decide (k = e.1)) as [->|Hne].
  - by rewrite decide_True.
  - by rewrite decide_False.
Qed.

Lemma ownRound_totalScore (ps : obj Stats.t) (r : Round.t) k :
  k ∈ Obj.keys ps →
  totalScoreOf k (ownRound ps r)
  = addPoints (totalScoreOf k ps)
      (snd <$> filter (fun e => e.1 = k) (Obj.entries (Round.scores r))).
Proof.
  intros Hk. unfold ownRound, totalScoreOf.
  rewrite (get_foldl_whenPresent_same Stats.totalScore propKey
             (fun _ => Stats.asFriend (hostTeamWon r))) by done.
  rewrite get_whenPresent.
  set (ps1 := foldl _ ps (Round.players r)).
  set (ps2 := foldl _ ps1 (Obj.entries (Round.scores r))).
  assert (Stats.totalScore <$>
            (if decide (k = propKey (Round.host r))
             then Stats.asHost (hostTeamWon r) <$> Obj.get k ps2
             else Obj.get k ps2)
          = Stats.totalScore <$> Obj.get k ps2) as ->.
  { case_decide; [|done]. by destruct (Obj.get k ps2). }
  assert (k ∈ Obj.keys ps1) as Hk1.
  { unfold ps1.
    by rewrite (keys_foldl_whenPresent (fun p : string => p)
                  (fun _ => Stats.played)). }
  pose proof (scored_loop (Obj.entries (Round.scores r)) ps1 k Hk1) as Hs.
  unfold totalScoreOf in Hs. fold ps2 in Hs. rewrite Hs. unfold ps1.
  by rewrite (get_foldl_whenPresent_same Stats.totalScore (fun p : string => p)
                (fun _ => Stats.played)).
Qed.

Lemma addPoints_app total l l' :
  addPoints total (l ++ l') = addPoints (addPoints total l) l'.
Proof. unfold addPoints. apply foldl_app. Qed.

Lemma foldl_ownRound_totalScore (rounds : list Round.t) :
  ∀ (ps : obj Stats.t) k,
  k ∈ Obj.keys ps →
  totalScoreOf k (foldl ownRound ps rounds)
  = addPoints (totalScoreOf k ps) (entriesOf k rounds).
Proof.
  induction rounds as [|r rounds IH]; intros ps k Hk; cbn [foldl]; [done|].
  rewrite IH by (by rewrite (proj1 (ownRound_hosted ps r))).
  rewrite ownRound_totalScore by done.
  unfold entriesOf. cbn [flat_map].
  by rewrite filter_app, fmap_app, addPoints_app.
Qed.

Lemma ownTable_totalScore rounds players k :
  k ∈ players →
  totalScoreOf k (ownTable rounds players)
  = addPoints (ofZ 0) (entriesOf k rounds).
Proof.
  intros Hk. unfold ownTable.
  rewrite foldl_ownRound_totalScore by (by apply elem_of_keys_fill).
  unfold totalScoreOf at 1. by rewrite get_fill, decide_True.
Qed.


(** ** The older copy of the component *)

(** X22: in the older copy, a rename with a name that is not empty is
    the rename of src/src/App.jsx; the name it leaves in the row is never
    empty, and clearing the name of one of the six rows puts the default
    name of that row back. *)
Theorem onRename_fallback (idx : nat) (name : string) (st : State) :
  (name ≠ "" → Part001.onRename idx name st = onRename idx name st)
  ∧ (∀ st', Part001.onRename idx name st = Some st' →
       ∃ n, Session.players (session st') !! idx = Some n ∧ n ≠ "")
  ∧ ((idx < 6)%nat →
     ∀ st', Part001.onRename idx "" st = Some st' →
       Session.players (session st') !! idx = defaultPlayers !! idx).
Proof.
  assert (∀ x st', Part001.onRename idx x st = Some st' →
            Session.players (session st') !! idx
            = Some (if decide (x = "") then "Player " +:+ pretty (idx + 1)%nat
                    else x)) as Hslot.
  { intros x st'. unfold Part001.onRename. rewrite <- session_eq.
    destruct (array_set _ idx _) as [players'|] eqn:Hset; [|done].
    intros [= <-]. rewrite session_updateCurrent. cbn [Session.players].
    by apply (array_set_lookup _ _ _ _ Hset). }
  split; [|split].
  - intros Hname. unfold Part001.onRename, onRename.
    by rewrite decide_False.
  - intros st' Hst'. eexists. split; [by apply Hslot|].
    case_decide; done.
  - intros Hidx st' Hst'. rewrite (Hslot _ _ Hst'), decide_True by done.
    do 6 (destruct idx as [|idx]; [reflexivity|]). lia.
Qed.

Lemma onRename_fallback_witness :
  Part001.onRename 0 "Alice" (initialState monday)
  = onRename 0 "Alice" (initialState monday).
Proof.
  apply (onRename_fallback 0 "Alice" (initialState monday)). done.
Defined.

(** X23: in the older copy, whatever buttons are pressed, the bid is 150,
    155 or 160: it never goes below the starting bid, so the rule of
    [addRound] on bids below 80 cannot fire. *)
Theorem bid_buttons (presses : list Part001.BidButton) :
  let bid :=
    foldl (fun b button => Part001.press button b) Part001.START_BID presses in
  (bid = 150 ∨ bid = 155 ∨ bid = 160)
  ∧ ¬ (bid < 80 ∧ bid ≠ Part001.NO_BIDS_VALUE).
Proof.
  cbn zeta.
  assert (∀ b, b = 150 ∨ b = 155 ∨ b = 160 →
            let bid := foldl (fun b button => Part001.press button b) b presses in
            bid = 150 ∨ bid = 155 ∨ bid = 160) as Hinv.
  { induction presses as [|button presses IH]; intros b Hb; cbn [foldl]; [done|].
    apply IH. unfold Part001.press, Part001.START_BID, Part001.NO_BIDS_VALUE.
    destruct button; repeat case_decide; lia. }
  specialize (Hinv Part001.START_BID (or_introl eq_refl)). cbn zeta in Hinv.
  split; [done|]. lia.
Qed.



(** ** Wins and games in [roleStats] *)




(** * The statistics *)

(** ** What the rounds say of a name *)

Lemma foldl_whenPresent_count {V X : Type} (g : V → nat) (key : X → string)
    (upd : X → V → V) (d : nat) (l : list X) :
  (∀ x v, g (upd x v) = (g v + d)%nat) →
  ∀ (o : obj V) k,
    counter g k (foldl (fun o x => whenPresent (key x) (upd x) o) o l)
    = (counter g k o
       + if decide (k ∈ Obj.keys o)
         then d * length (filter (fun x => key x = k) l) else 0)%nat.
Proof.
  intros Hg. induction l as [|x l IH]; intros o k; cbn [foldl].
  - rewrite filter_nil. cbn. case_decide; lia.
  - rewrite IH, keys_whenPresent.
    rewrite (counter_whenPresent g _ _ _ _ d) by apply Hg.
    rewrite filter_cons.
    destruct (decide (k ∈ Obj.keys o)) as [Hk|Hk].
    + destruct (decide (key x = k)) as [<-|Hne].
      * rewrite decide_True by done. cbn [length]. lia.
      * rewrite decide_False by (intros [? _]; congruence). lia.
    + rewrite decide_False by (by intros [_ ?]). lia.
Qed.

Lemma ownRound_counter (g : Stats.t → nat) (dHost dFriend : nat)
    (ps : obj Stats.t) (r : Round.t) k :
  (∀ v, g (Stats.played v) = g v) →
  (∀ q v, g (Stats.scored q v) = g v) →
  (∀ v, g (Stats.asHost (hostTeamWon r) v) = (g v + dHost)%nat) →
  (∀ v, g (Stats.asFriend (hostTeamWon r) v) = (g v + dFriend)%nat) →
  k ∈ Obj.keys ps →
  counter g k (ownRound ps r)
  = (counter g k ps
     + (if decide (propKey (Round.host r) = k) then dHost else 0)
     + dFriend * friendSeats k r)%nat.
Proof.
  intros Hp Hs Hh Hf Hk. unfold ownRound.
  set (ps1 := foldl _ ps (Round.players r)).
  set (ps2 := foldl _ ps1 (Obj.entries (Round.scores r))).
  set (ps3 := whenPresent _ _ ps2).
  destruct (foldl_whenPresent_same g (fun p : string => p)
              (fun _ => Stats.played) (Round.players r) (fun _ => Hp) ps)
    as (Hk1 & _ & Hc1). fold ps1 in Hk1, Hc1.
  destruct (foldl_whenPresent_same g (fun e : string * Q => e.1)
              (fun e => Stats.scored e.2) (Obj.entries (Round.scores r))
              (fun e => Hs e.2) ps1)
    as (Hk2 & _ & Hc2). fold ps2 in Hk2, Hc2.
  rewrite (foldl_whenPresent_count g propKey
             (fun _ => Stats.asFriend (hostTeamWon r)) dFriend)
    by (intros; apply Hf).
  unfold ps3. rewrite keys_whenPresent, (counter_whenPresent g _ _ _ _ dHost Hh).
  rewrite Hk2, Hk1, Hc2, Hc1. rewrite (decide_True (P := k ∈ Obj.keys ps)) by done.
  unfold friendSeats.
  destruct (decide (propKey (Round.host r) = k)) as [<-|Hne].
  - by rewrite decide_True.
  - rewrite decide_False by (intros [? _]; congruence). lia.
Qed.

Lemma keys_foldl_ownRound (rounds : list Round.t) (ps : obj Stats.t) :
  Obj.keys (foldl ownRound ps rounds) = Obj.keys ps.
Proof. apply foldl_ownRound_hosted. Qed.

Lemma hostedBy_cons k r rounds :
  hostedBy k (r :: rounds)
  = ((if decide (propKey (Round.host r) = k) then 1 else 0)
     + hostedBy k rounds)%nat.
Proof. unfold hostedBy. rewrite filter_cons. by case_decide. Qed.

Lemma hostWinsOf_cons k r rounds :
  hostWinsOf k (r :: rounds)
  = ((if decide (propKey (Round.host r) = k)
      then if hostTeamWon r then 1 else 0 else 0)
     + hostWinsOf k rounds)%nat.
Proof.
  unfold hostWinsOf. rewrite filter_cons.
  destruct (decide (propKey (Round.host r) = k)) as [Hk|Hk].
  - destruct (hostTeamWon r).
    + by rewrite decide_True.
    + by rewrite decide_False by (by intros [_ ?]).
  - by rewrite decide_False by (by intros [? _]).
Qed.

Lemma friendWinsOf_cons k r rounds :
  friendWinsOf k (r :: rounds)
  = ((if hostTeamWon r then 1 else 0) * friendSeats k r
     + friendWinsOf k rounds)%nat.
Proof.
  unfold friendWinsOf. rewrite filter_cons.
  destruct (hostTeamWon r).
  - rewrite decide_True by done. cbn. lia.
  - rewrite decide_False by done. cbn. lia.
Qed.

(** The counters of a key of the table after the loop over the rounds. *)
Lemma foldl_ownRound_counters (rounds : list Round.t) : ∀ (ps : obj Stats.t) k,
  k ∈ Obj.keys ps →
  counter Stats.hosted k (foldl ownRound ps rounds)
  = (counter Stats.hosted k ps + hostedBy k rounds)%nat
  ∧ counter Stats.hostWins k (foldl ownRound ps rounds)
    = (counter Stats.hostWins k ps + hostWinsOf k rounds)%nat
  ∧ counter Stats.friendGames k (foldl ownRound ps rounds)
    = (counter Stats.friendGames k ps + friendGamesOf k rounds)%nat
  ∧ counter Stats.friendWins k (foldl ownRound ps rounds)
    = (counter Stats.friendWins k ps + friendWinsOf k rounds)%nat.
Proof.
  induction rounds as [|r rounds IH]; intros ps k Hk; cbn [foldl].
  - unfold hostedBy, hostWinsOf, friendGamesOf, friendWinsOf.
    rewrite !filter_nil. cbn. split_and!; lia.
  - destruct (IH (ownRound ps r) k) as (H1 & H2 & H3 & H4).
    { by rewrite (proj1 (ownRound_hosted ps r)). }
    rewrite H1, H2, H3, H4.
    rewrite hostedBy_cons, hostWinsOf_cons, friendWinsOf_cons.
    rewrite (ownRound_counter Stats.hosted 1 0) by (done || (intros; cbn; lia)).
    rewrite (ownRound_counter Stats.hostWins
               (if hostTeamWon r then 1 else 0) 0)
      by (done || (intros; cbn; destruct (hostTeamWon r); lia)).
    rewrite (ownRound_counter Stats.friendGames 0 1)
      by (done || (intros; cbn; lia)).
    rewrite (ownRound_counter Stats.friendWins 0
               (if hostTeamWon r then 1 else 0))
      by (done || (intros; cbn; destruct (hostTeamWon r); lia)).
    unfold friendGamesOf. cbn [fmap list_fmap sum_list_with sum_list].
    unfold id. split_and!; repeat case_decide; lia.
Qed.

Lemma ownTable_counters rounds players k stats :
  Obj.get k (ownTable rounds players) = Some stats →
  k ∈ players
  ∧ Stats.hosted stats = hostedBy k rounds
  ∧ Stats.hostWins stats = hostWinsOf k rounds
  ∧ Stats.friendGames stats = friendGamesOf k rounds
  ∧ Stats.friendWins stats = friendWinsOf k rounds.
Proof.
  intros Hget.
  assert (k ∈ players) as Hk.
  { apply (elem_of_keys_fill Stats.zero). rewrite <- (keys_ownTable rounds).
    apply elem_of_keys. by rewrite Hget. }
  split; [done|].
  destruct (foldl_ownRound_counters rounds
              (foldl (fun acc p => Obj.set p Stats.zero acc) [] players) k)
    as (H1 & H2 & H3 & H4); [by apply elem_of_keys_fill|].
  fold (ownTable rounds players) in H1, H2, H3, H4.
  unfold counter in H1, H2, H3, H4.
  rewrite Hget, get_fill, decide_True in H1, H2, H3, H4 by done.
  cbn in H1, H2, H3, H4. done.
Qed.

Lemma NoDup_keys_ownTable rounds players :
  NoDup (Obj.keys (ownTable rounds players)).
Proof. rewrite keys_ownTable. apply NoDup_keys_fill. constructor. Qed.

(** An entry of the rankings is the entry of a roster name in the table. *)
Lemma ownStats_entry gameData players p :
  p ∈ EnhancedStats.playerRankings (ownStats gameData players) →
  ∃ stats,
    p = toRanking (Ranking.name p, stats)
    ∧ Obj.get (Ranking.name p)
        (ownTable (flat_map Session.rounds (Obj.values gameData)) players)
      = Some stats.
Proof.
  rewrite playerRankings_perm. unfold rankingsByTotal. rewrite elem_of_sort.
  intros ([k stats] & -> & Hin)%list_elem_of_fmap.
  exists stats. split; [done|]. cbn [toRanking Ranking.name fst].
  unfold Obj.entries in Hin.
  by apply (elem_of_get _ _ _ (NoDup_keys_ownTable _ _)).
Qed.

(** ** The claims on the statistics *)

(** C6 (the code departs from the claim): after the two evenings of
    [twoEvenings], the array [playerRankings] that [enhancedStats] returns
    lists the total scores 300, 0, 0, 0, 0, 400: it is in descending order
    of games played, as the in-place sort of line 178 left it, and not of
    total score. *)
Theorem playerRankings_not_by_total :
  ∃ st stats,
    run twoEvenings (initialState monday) = Some st
    ∧ enhancedStats (gameData st) (Session.players (session st)) = Some stats
    ∧ let rankings := EnhancedStats.playerRankings stats in
      (Ranking.name <$> rankings
       = ["Player 2"; "Player 3"; "Player 4"; "Player 5"; "Player 6"; "Player 1"])
      ∧ Ranking.totalScore <$> rankings = [300; 0; 0; 0; 0; 400]
      ∧ Ranking.gamesPlayed <$> rankings = [2; 2; 2; 2; 2; 1]%nat
      ∧ ¬ descending Ranking.totalScore rankings.
Proof.
  eexists _, _. split; [vm_compute; reflexivity|].
  split; [vm_compute; reflexivity|].
  cbv zeta.
  assert (∀ l : list Ranking.t,
            Ranking.totalScore <$> l = [300; 0; 0; 0; 0; 400] →
            ¬ descending Ranking.totalScore l) as Hno.
  { intros [|a [|b [|c [|d [|e [|f l]]]]]] Heq Hd; simplify_eq/=.
    apply StronglySorted_inv in Hd as [_ Hd].
    do 4 apply Forall_cons in Hd as [_ Hd].
    apply Forall_cons in Hd as [Hd _]. lia. }
  split; [vm_compute; reflexivity|].
  split; [vm_compute; reflexivity|].
  split; [vm_compute; reflexivity|].
  apply Hno. vm_compute; reflexivity.
Qed.

Lemma roleStats_hosted rounds players rs :
  roleStats rounds players = Some rs →
  total Role.hosted rs
  = length (filter (hostKnown (ownNames players)) rounds).
Proof.
  unfold roleStats. intros Hrs.
  apply (proj1 (roleRounds_hosted rounds _)) in Hrs as (_ & Ht & _).
  rewrite Ht, own_fill. cbn [own]. rewrite total_fill_zero by done.
  simpl. f_equal. apply list_filter_iff. intros r. unfold hostKnown.
  apply elem_of_keys_fill.
Qed.

Lemma filter_all {A : Type} (P : A → Prop) `{!∀ x, Decision (P x)}
    (l : list A) :
  Forall P l → filter P l = l.
Proof.
  induction 1 as [|x l Hx _ IH]; [done|].
  by rewrite filter_cons, decide_True, IH.
Qed.

(** C7 (as corrected): in [enhancedStats] a round adds one to the hosted
    counter of its host, and to no other, when the host is an own key of
    the table, and to none otherwise; the own keys are the names of the
    roster other than [__proto__].  So, whenever the loop returns (it does
    for every roster without the name [__proto__]), the hosted counters
    sum to the number of rounds whose host is such a name, which is the
    number of rounds when every host is.  In [roleStats] likewise: a round
    adds one to the hosted counter of its host when the host is a key of
    the table and to no counter otherwise, the sum of a returned table is
    the number of rounds whose host is a roster name other than
    [__proto__], and this is the number of rounds when every host is; a
    table is returned when every name recorded in the rounds is in the
    roster. *)
Theorem hosted_counters (rounds : list Round.t) (players : list string) :
  (∀ table,
     playerStats rounds players = Some table →
     total Stats.hosted (own table)
     = length (filter (hostKnown (ownNames players)) rounds)
     ∧ (Forall (hostKnown (ownNames players)) rounds →
        total Stats.hosted (own table) = length rounds))
  ∧ (∀ gameData stats,
       enhancedStats gameData players = Some stats →
       sum_list (Ranking.hosted <$> EnhancedStats.playerRankings stats)
       = length (filter (hostKnown (ownNames players))
                        (flat_map Session.rounds (Obj.values gameData))))
  ∧ ("__proto__" ∉ players →
     is_Some (playerStats rounds players)
     ∧ ∀ gameData, is_Some (enhancedStats gameData players))
  ∧ (∀ t r t' k,
       countRound t r = Some t' →
       counter Stats.hosted k (own t')
       = (counter Stats.hosted k (own t)
          + if decide (k = propKey (Round.host r) ∧ k ∈ Obj.keys (own t))
            then 1 else 0)%nat)
  ∧ (∀ rs,
       roleStats rounds players = Some rs →
       total Role.hosted rs
       = length (filter (hostKnown (ownNames players)) rounds)
       ∧ (Forall (hostKnown (ownNames players)) rounds →
          total Role.hosted rs = length rounds))
  ∧ (Forall (namesKnown players) rounds →
     is_Some (roleStats rounds players))
  ∧ (∀ rs r rs' k,
       roleRound rs r = Some rs' →
       counter Role.hosted k rs'
       = (counter Role.hosted k rs
          + if decide (k = propKey (Round.host r) ∧ k ∈ Obj.keys rs)
            then 1 else 0)%nat).
Proof.
  split.
  { intros table Htable. rewrite (playerStats_own _ _ _ Htable).
    rewrite ownTable_hosted. split; [done|].
    intros Hall. by rewrite filter_all. }
  split.
  { intros gameData stats Hstats.
    rewrite (enhancedStats_own _ _ _ Hstats). apply playerRankings_hosted. }
  split.
  { intros Hnot. split.
    - rewrite playerStats_plain by done. eauto.
    - intros gameData. rewrite enhancedStats_plain by done. eauto. }
  split.
  { intros t r t' k Hr. rewrite (countRound_own _ _ _ Hr).
    apply ownRound_hosted. }
  split.
  { intros rs Hrs. rewrite (roleStats_hosted _ _ _ Hrs). split; [done|].
    intros Hall. by rewrite filter_all. }
  split; [apply roleStats_is_Some|].
  intros rs r rs' k Hr. by apply roleRound_hosted.
Qed.

Lemma hosted_counters_witness :
  ∃ st rs,
    run evening (initialState monday) = Some st
    ∧ roleStats (Session.rounds (session st)) (Session.players (session st))
      = Some rs
    ∧ total Role.hosted rs = 3%nat
    ∧ is_Some (playerStats (Session.rounds (session st))
                           (Session.players (session st))).
Proof.
  destruct (run evening (initialState monday)) as [st|] eqn:Hrun;
    [|vm_compute in Hrun; discriminate].
  vm_compute in Hrun. injection Hrun as <-.
  match goal with
  | |- ∃ st' rs, Some ?s = Some st' ∧ _ =>
      pose proof (hosted_counters (Session.rounds (session s))
                                  (Session.players (session s)))
        as (_ & _ & Hplain & _ & Hsum & Hsome & _)
  end.
  destruct Hsome as [rs Hrs].
  { apply (bool_decide_unpack _). vm_compute. exact I. }
  destruct (Hsum rs Hrs) as [_ Hall].
  eexists _, rs. split; [reflexivity|]. split; [exact Hrs|].
  split.
  - rewrite Hall; [reflexivity|].
    apply (bool_decide_unpack _). vm_compute. exact I.
  - apply Hplain. apply (bool_decide_unpack _). vm_compute. exact I.
Defined.

(** C7 (the claim as stated fails): once the host of the only recorded
    round has been renamed, the session holds one round, [roleStats] on
    its rounds and roster stops with a [TypeError], and the hosted
    counters of [enhancedStats] add up to 0. *)
Lemma hosted_sum_counterexample :
  ∃ st table stats,
    run renamedHost (initialState monday) = Some st
    ∧ length (Session.rounds (session st)) = 1%nat
    ∧ flat_map Session.rounds (Obj.values (gameData st))
      = Session.rounds (session st)
    ∧ roleStats (Session.rounds (session st)) (Session.players (session st))
      = None
    ∧ playerStats (Session.rounds (session st)) (Session.players (session st))
      = Some table
    ∧ total Stats.hosted (own table) ≠ length (Session.rounds (session st))
    ∧ enhancedStats (gameData st) (Session.players (session st)) = Some stats
    ∧ sum_list (Ranking.hosted <$> EnhancedStats.playerRankings stats) = 0%nat.
Proof.
  eexists _, _, _. split; [vm_compute; reflexivity|].
  split; [vm_compute; reflexivity|].
  split; [vm_compute; reflexivity|].
  split; [vm_compute; reflexivity|].
  split; [vm_compute; reflexivity|].
  split; [vm_compute; discriminate|].
  split; [vm_compute; reflexivity|].
  vm_compute; reflexivity.
Qed.



(** ** The array of rankings *)

(** X16: whenever [enhancedStats] returns, and it does for every roster
    without the name [__proto__], the array [playerRankings] is in
    descending order of gamesPlayed, entries with equal gamesPlayed being
    in descending order of totalScore; [mostGamesPlayed] is its first
    entry, and is undefined only when the array is empty. *)
Theorem playerRankings_order (gameData : obj Session.t)
    (players : list string) :
  ("__proto__" ∉ players → is_Some (enhancedStats gameData players))
  ∧ ∀ stats,
      enhancedStats gameData players = Some stats →
      let rankings := EnhancedStats.playerRankings stats in
      StronglySorted
        (fun a b => (Ranking.gamesPlayed b < Ranking.gamesPlayed a)%nat
                    ∨ (Ranking.gamesPlayed b = Ranking.gamesPlayed a
                       ∧ Ranking.totalScore b <= Ranking.totalScore a))
        rankings
      ∧ EnhancedStats.mostGamesPlayed stats = head rankings
      ∧ match EnhancedStats.mostGamesPlayed stats with
        | Some best =>
            best ∈ rankings
            ∧ ∀ p, p ∈ rankings →
                (Ranking.gamesPlayed p < Ranking.gamesPlayed best)%nat
                ∨ (Ranking.gamesPlayed p = Ranking.gamesPlayed best
                   ∧ Ranking.totalScore p <= Ranking.totalScore best)
        | None => rankings = []
        end.
Proof.
  split.
  { intros Hnot. rewrite enhancedStats_plain by done. eauto. }
  intros stats Hstats. apply enhancedStats_own in Hstats as ->.
  apply ownStats_order.
Qed.

Lemma playerRankings_order_witness :
  ∃ st stats best,
    run twoEvenings (initialState monday) = Some st
    ∧ enhancedStats (gameData st) (Session.players (session st)) = Some stats
    ∧ Ranking.gamesPlayed <$> EnhancedStats.playerRankings stats
      = [2; 2; 2; 2; 2; 1]%nat
    ∧ Ranking.totalScore <$> EnhancedStats.playerRankings stats
      = [300; 0; 0; 0; 0; 400]
    ∧ EnhancedStats.mostGamesPlayed stats = Some best
    ∧ Ranking.name best = "Player 2"
    ∧ ∀ p, p ∈ EnhancedStats.playerRankings stats →
        (Ranking.gamesPlayed p < Ranking.gamesPlayed best)%nat
        ∨ (Ranking.gamesPlayed p = Ranking.gamesPlayed best
           ∧ Ranking.totalScore p <= Ranking.totalScore best).
Proof.
  destruct (run twoEvenings (initialState monday)) as [st|] eqn:Hrun;
    [|vm_compute in Hrun; discriminate].
  vm_compute in Hrun. injection Hrun as <-.
  match goal with
  | |- ∃ st' stats best, Some ?s = Some st' ∧ _ =>
      pose proof (playerRankings_order (gameData s)
                                       (Session.players (session s)))
        as [Hsome Hall];
      set (st := s) in *
  end.
  destruct Hsome as [stats Hstats].
  { apply (bool_decide_unpack _). vm_compute. exact I. }
  destruct (Hall stats Hstats) as (_ & _ & Hmost).
  pose proof Hstats as Hc. vm_compute in Hc. injection Hc as Hc.
  assert (∃ best, EnhancedStats.mostGamesPlayed stats = Some best
                  ∧ Ranking.name best = "Player 2")
    as (best & Hbest & Hname).
  { rewrite <- Hc. eexists. split; [vm_compute; reflexivity | reflexivity]. }
  rewrite Hbest in Hmost. destruct Hmost as [_ Hmost].
  exists st, stats, best.
  split; [reflexivity|]. split; [exact Hstats|].
  split; [rewrite <- Hc; reflexivity|].
  split; [rewrite <- Hc; reflexivity|].
  split; [exact Hbest|]. split; [exact Hname | exact Hmost].
Defined.

(** X17: whenever [enhancedStats] returns, and it does for every roster
    without the name [__proto__], [playerRankings] has exactly one entry
    for each distinct name of the roster other than [__proto__], also for
    names that never played: the names of the entries are pairwise
    distinct, a name has an entry exactly when it is in the roster and is
    not [__proto__], there are at most as many entries as rows of the
    roster, and when the names of the roster are distinct the names of the
    entries are those of the roster other than [__proto__] up to order. *)
Theorem playerRankings_names (gameData : obj Session.t)
    (players : list string) :
  ("__proto__" ∉ players → is_Some (enhancedStats gameData players))
  ∧ ∀ stats,
      enhancedStats gameData players = Some stats →
      let names := Ranking.name <$> EnhancedStats.playerRankings stats in
      NoDup names
      ∧ (∀ n, n ∈ names ↔ n ∈ players ∧ n ≠ "__proto__")
      ∧ (length names <= length players)%nat
      ∧ (NoDup players → names ≡ₚ ownNames players)
      ∧ (NoDup players → "__proto__" ∉ players → names ≡ₚ players).
Proof.
  split.
  { intros Hnot. rewrite enhancedStats_plain by done. eauto. }
  intros stats Hstats. apply enhancedStats_own in Hstats as ->.
  fold (ownNames players). cbv zeta.
  destruct (ownStats_names gameData (ownNames players))
    as (Hnodup & Hnames & Hlen & Hperm).
  split; [exact Hnodup|].
  split.
  { intros n. rewrite Hnames. unfold ownNames.
    by rewrite list_elem_of_filter, (comm and). }
  split.
  { etrans; [exact Hlen|]. apply length_filter. }
  split.
  { intros Hnd. apply Hperm. by apply NoDup_filter. }
  intros Hnd Hnot. rewrite <- (filter_ordinary players Hnot) at 2.
  apply Hperm. by apply NoDup_filter.
Qed.

Lemma playerRankings_names_witness :
  ∃ st stats,
    run renamedToProto (initialState monday) = Some st
    ∧ Session.players (session st)
      = ["__proto__"; "Player 2"; "Player 3"; "Player 4"; "Player 5"; "Player 6"]
    ∧ enhancedStats (gameData st) (Session.players (session st)) = Some stats
    ∧ length (EnhancedStats.playerRankings stats) = 5%nat
    ∧ Ranking.name <$> EnhancedStats.playerRankings stats
      ≡ₚ ["Player 2"; "Player 3"; "Player 4"; "Player 5"; "Player 6"].
Proof.
  destruct (run renamedToProto (initialState monday)) as [st|] eqn:Hrun;
    [|vm_compute in Hrun; discriminate].
  vm_compute in Hrun. injection Hrun as <-.
  match goal with
  | |- ∃ st' stats, Some ?s = Some st' ∧ _ =>
      pose proof (playerRankings_names (gameData s)
                                       (Session.players (session s)))
        as [_ Hall];
      set (st := s) in *
  end.
  destruct (enhancedStats (gameData st) (Session.players (session st)))
    as [stats|] eqn:Hstats; [|vm_compute in Hstats; discriminate].
  destruct (Hall stats eq_refl) as (_ & _ & _ & Hperm & _).
  pose proof Hstats as Hc. vm_compute in Hc. injection Hc as Hc.
  exists st, stats.
  split; [reflexivity|]. split; [reflexivity|]. split; [exact Hstats|].
  split; [rewrite <- Hc; reflexivity|].
  apply Hperm. apply (bool_decide_unpack _). vm_compute. exact I.
Defined.



(** X21: whenever [enhancedStats] returns, and it does for every roster
    without the name [__proto__], the totalScore of an entry of
    [playerRankings] is [Math.round] of the double reached from 0 by
    adding, one after the other, the score entries under its name in the
    rounds of all sessions, in the order of the rounds; the additions are
    those of doubles, so the result can differ from the rounded exact
    sum. *)
Theorem totalScore_rounded_sum (gameData : obj Session.t)
    (players : list string) :
  ("__proto__" ∉ players → is_Some (enhancedStats gameData players))
  ∧ ∀ stats p,
      enhancedStats gameData players = Some stats →
      p ∈ EnhancedStats.playerRankings stats →
      Ranking.totalScore p
      = Math_round_double
          (addPoints (ofZ 0)
             (entriesOf (Ranking.name p)
                (flat_map Session.rounds (Obj.values gameData)))).
Proof.
  split.
  { intros Hnot. rewrite enhancedStats_plain by done. eauto. }
  intros stats p Hstats. apply enhancedStats_own in Hstats as ->. intros Hp.
  destruct (ownStats_entry _ _ _ Hp) as (s & Hentry & Hget).
  pose proof (ownTable_counters _ _ _ _ Hget) as [Hk _].
  rewrite <- (ownTable_totalScore _ _ _ Hk).
  unfold totalScoreOf. rewrite Hget. cbn [fmap option_fmap option_map default].
  by rewrite Hentry at 1.
Qed.

Lemma totalScore_rounded_sum_witness :
  ∃ st stats p,
    run lostEvening (initialState monday) = Some st
    ∧ enhancedStats (gameData st) (Session.players (session st)) = Some stats
    ∧ p ∈ EnhancedStats.playerRankings stats
    ∧ Ranking.name p = "Player 2"
    ∧ entriesOf "Player 2" (flat_map Session.rounds (Obj.values (gameData st)))
      = [(176 * 1.5 / 5)%Q; (257 * 1.5 / 5)%Q; (152 * 1.5 / 5)%Q]
    ∧ Ranking.totalScore p = 175
    ∧ Ranking.totalScore p
      = Math_round_double
          (addPoints (ofZ 0)
             (entriesOf "Player 2"
                (flat_map Session.rounds (Obj.values (gameData st))))).
Proof.
  destruct (run lostEvening (initialState monday)) as [st|] eqn:Hrun;
    [|vm_compute in Hrun; discriminate].
  vm_compute in Hrun. injection Hrun as <-.
  match goal with
  | |- ∃ st' stats p, Some ?s = Some st' ∧ _ =>
      pose proof (totalScore_rounded_sum
                    (gameData s) (Session.players (session s)))
        as [Hsome Hall];
      set (st := s) in *
  end.
  destruct Hsome as [stats Hstats].
  { apply (bool_decide_unpack _). vm_compute. exact I. }
  pose proof Hstats as Hc. vm_compute in Hc. injection Hc as Hc.
  assert (∃ p, head (EnhancedStats.playerRankings stats) = Some p
               ∧ Ranking.name p = "Player 2"
               ∧ Ranking.totalScore p = 175)
    as (p & Hhead & Hname & Htotal).
  { rewrite <- Hc. eexists. split; [vm_compute; reflexivity|].
    split; reflexivity. }
  assert (p ∈ EnhancedStats.playerRankings stats) as Hin.
  { destruct (EnhancedStats.playerRankings stats); [done|].
    injection Hhead as ->. apply list_elem_of_here. }
  exists st, stats, p.
  split; [reflexivity|]. split; [exact Hstats|]. split; [exact Hin|].
  split; [exact Hname|]. split; [vm_compute; reflexivity|].
  split; [exact Htotal|].
  rewrite <- Hname. exact (Hall stats p Hstats Hin).
Defined.

(** ** The table of roles *)



